(** * Scoring pipeline of the driver-licence verification service (app.py)

    A shallow embedding of the pure part of [app.py]: the face comparator
    [compare_faces], the scorer [calculate_safety_score], the two status
    mappers, and the two expressions of the [ocr] handler that classify the
    text and assemble the score breakdown.

    Data model.
    - A Python [float] is an IEEE-754 binary64 value: Rocq's primitive
      [float], whose literals are rounded to the nearest binary64 value the
      way Python's parser rounds them.  Facts about them are proved through
      the specification [Prim2SF] of the standard library.
    - A Python [int] is a [Z].
    - A Python [str] is a [string] whose characters are read as the code
      points U+0000 .. U+00FF; [str.lower], [str.strip], [\d] and [\s] are
      defined on those code points as Python 3 defines them.
    - An operation that raises (here only [int(x)] on an infinity or a NaN)
      returns [None]. *)

From Stdlib Require Import ZArith QArith Qpower Qround List Bool Ascii String.
From Stdlib Require Import Floats Lia.
Import ListNotations.

Set Warnings "-inexact-float".

Local Open Scope Z_scope.

(** ** Python floats *)

(** [a > b], [a <= b] on floats: false as soon as one side is a NaN. *)
Definition fgt (a b : float) : bool := PrimFloat.ltb b a.
Definition fle (a b : float) : bool := PrimFloat.leb a b.

(** [int(x)]: truncation toward zero; [OverflowError] on an infinity and
    [ValueError] on a NaN are both [None]. *)
Definition int_of_SF (x : spec_float) : option Z :=
  match x with
  | S754_zero _ => Some 0
  | S754_finite s m e => Some (cond_Zopp s (Z.shiftl (Zpos m) e))
  | S754_infinity _ | S754_nan => None
  end.

Definition int_of_float (x : float) : option Z := int_of_SF (Prim2SF x).

(** The rational a finite float denotes, to state what [int] returns. *)
Definition SF2Q (x : spec_float) : option Q :=
  match x with
  | S754_zero _ => Some 0%Q
  | S754_finite s m e => Some (inject_Z (cond_Zopp s (Zpos m)) * Qpower 2 e)%Q
  | S754_infinity _ | S754_nan => None
  end.

Definition float_value (x : float) : option Q := SF2Q (Prim2SF x).

(** [k] is the floor of the number the float [x] denotes. *)
Definition floor_is (x : float) (k : Z) : Prop :=
  exists q, float_value x = Some q /\ Qfloor q = k.

(** [max(0, x)] as the builtin computes it: the first argument is kept unless
    the second compares strictly greater.  The integer [0] it then returns is
    represented by the float [0.0], which compares equal to it. *)
Definition max0 (x : float) : float := if fgt x 0 then x else 0%float.

(** ** Python strings *)

Definition code (c : ascii) : nat := nat_of_ascii c.

Definition in_range (lo hi : nat) (c : ascii) : bool :=
  (Nat.leb lo (code c) && Nat.leb (code c) hi)%bool.

Definition is_upper_az (c : ascii) : bool := in_range 65 90 c.
Definition is_lower_az (c : ascii) : bool := in_range 97 122 c.
Definition is_digit (c : ascii) : bool := in_range 48 57 c.

(** Unicode white space below U+0100: TAB..CR, FS..US, SPACE, NEL, NBSP. *)
Definition is_space (c : ascii) : bool :=
  (in_range 9 13 c || in_range 28 32 c
   || Nat.eqb (code c) 133 || Nat.eqb (code c) 160)%bool.

(** The cased letters below U+0100 that [str.lower] changes: A..Z and
    U+00C0..U+00DE without the multiplication sign U+00D7. *)
Definition lower_char (c : ascii) : ascii :=
  if (is_upper_az c || (in_range 192 222 c && negb (Nat.eqb (code c) 215)))%bool
  then ascii_of_nat (code c + 32) else c.

Fixpoint lower (s : string) : string :=
  match s with
  | EmptyString => EmptyString
  | String c s' => String (lower_char c) (lower s')
  end.

Fixpoint lstrip (s : string) : string :=
  match s with
  | EmptyString => EmptyString
  | String c s' => if is_space c then lstrip s' else s
  end.

Fixpoint rstrip (s : string) : string :=
  match s with
  | EmptyString => EmptyString
  | String c s' =>
      match rstrip s' with
      | EmptyString => if is_space c then EmptyString else String c EmptyString
      | r => String c r
      end
  end.

Definition strip (s : string) : string := rstrip (lstrip s).

Definition len (s : string) : Z := Z.of_nat (String.length s).

(** [kw in s]: [kw] occurs in [s] as a contiguous substring. *)
Fixpoint contains (kw s : string) : bool :=
  (prefix kw s ||
   match s with
   | EmptyString => false
   | String _ s' => contains kw s'
   end)%bool.

(** ** The fragment of [re] the scorer uses

    A pattern is a sequence of items [c{lo,hi}] over a character class [c];
    [hi = None] is an unbounded repetition.  [re.search] is only asked
    whether a match exists, which backtracking decides exactly. *)

Record item := Item { cls : ascii -> bool; lo : nat; hi : option nat }.

Definition pattern := list item.

(** [rep c k lo hi s]: some prefix of [s], made of between [lo] and [hi]
    characters of class [c], is followed by a match of the continuation. *)
Fixpoint rep (c : ascii -> bool) (k : string -> bool)
    (lo : nat) (hi : option nat) (s : string) : bool :=
  ((match lo with O => k s | S _ => false end) ||
   match s with
   | EmptyString => false
   | String a s' =>
       match hi with
       | Some O => false
       | Some (S h) => c a && rep c k (Nat.pred lo) (Some h) s'
       | None => c a && rep c k (Nat.pred lo) None s'
       end
   end)%bool.

Fixpoint match_here (p : pattern) : string -> bool :=
  match p with
  | [] => fun _ => true
  | i :: p' => rep (cls i) (match_here p') (lo i) (hi i)
  end.

Fixpoint re_search (p : pattern) (s : string) : bool :=
  (match_here p s ||
   match s with
   | EmptyString => false
   | String _ s' => re_search p s'
   end)%bool.

Definition times (c : ascii -> bool) (a b : nat) : item := Item c a (Some b).
Definition once (c : ascii -> bool) : item := Item c 1 (Some 1%nat).
Definition plus (c : ascii -> bool) : item := Item c 1 None.
Definition star (c : ascii -> bool) : item := Item c 0 None.
Definition slash : item := once (Ascii.eqb "/"%char).

(** [\d{2}/\d{2}/\d{4}] *)
Definition re_date_strict : pattern :=
  [times is_digit 2 2; slash; times is_digit 2 2; slash; times is_digit 4 4].
(** [\d{1,2}/\d{1,2}/\d{2,4}] *)
Definition re_date_loose : pattern :=
  [times is_digit 1 2; slash; times is_digit 1 2; slash; times is_digit 2 4].
(** [[A-Z]{2}\s*\d{6,8}] *)
Definition re_licno_strict : pattern :=
  [times is_upper_az 2 2; star is_space; times is_digit 6 8].
(** [[A-Z]{1,3}\s*\d{4,10}] *)
Definition re_licno_loose : pattern :=
  [times is_upper_az 1 3; star is_space; times is_digit 4 10].
(** [[A-Z]{2,3}] *)
Definition re_state_abbrev : pattern := [times is_upper_az 2 3].
(** [[A-Z][a-z]+\s+[A-Z][a-z]+] *)
Definition re_name : pattern :=
  [once is_upper_az; plus is_lower_az; plus is_space;
   once is_upper_az; plus is_lower_az].
(** [[A-Z][a-z]+] *)
Definition re_capitalized : pattern := [once is_upper_az; plus is_lower_az].

(** ** Exceptions: the option monad *)

Definition bind {A B : Type} (m : option A) (f : A -> option B) : option B :=
  match m with
  | Some a => f a
  | None => None
  end.

Notation "x <- m ;; k" := (bind m (fun x => k))
  (at level 61, m at next level, right associativity).

(** ** Face comparator: [compare_faces]

    The encodings are opaque; the distance is the collaborator's
    [face_recognition.face_distance].  Each call to it is recorded, in order,
    next to the running best score, so that what the loop evaluates can be
    stated. *)

Section Comparator.
Variable Encoding : Type.
Variable face_distance : Encoding -> Encoding -> float.

Definition calls := list (Encoding * Encoding).

(** The body of the inner loop for one pair. *)
Definition compare_pair (license_encoding user_encoding : Encoding)
    (st : float * calls) : float * calls :=
  let '(best_match_score, log) := st in
  let distance := face_distance license_encoding user_encoding in
  let log := log ++ [(license_encoding, user_encoding)] in
  let similarity_score := max0 (1 - distance) in
  if fle distance 0.6 then
    if fgt similarity_score best_match_score
    then (similarity_score, log)
    else (best_match_score, log)
  else (best_match_score, log).

(** The same body as a step over a list of pairs. *)
Definition compare_step (st : float * calls) (p : Encoding * Encoding)
    : float * calls :=
  compare_pair (fst p) (snd p) st.

Definition compare_faces_log (license_encodings user_encodings : list Encoding)
    : float * calls :=
  match license_encodings, user_encodings with
  | [], _ | _, [] => (0%float, [])
  | _, _ =>
      fold_left
        (fun st license_encoding =>
           fold_left (fun st user_encoding =>
                        compare_pair license_encoding user_encoding st)
                     user_encodings st)
        license_encodings (0%float, [])
  end.

Definition compare_faces (license_encodings user_encodings : list Encoding)
    : float :=
  fst (compare_faces_log license_encodings user_encodings).

(** What the specification calls the similarity of a pair, and the pairs
    within the tolerance, in the order of the two loops. *)
Definition pair_similarity (p : Encoding * Encoding) : float :=
  max0 (1 - face_distance (fst p) (snd p)).

Definition matching (p : Encoding * Encoding) : bool :=
  fle (face_distance (fst p) (snd p)) 0.6.

Definition matching_similarities (setA setB : list Encoding) : list float :=
  map pair_similarity (filter matching (list_prod setA setB)).
End Comparator.

Arguments compare_pair {Encoding}.
Arguments compare_step {Encoding}.
Arguments compare_faces_log {Encoding}.
Arguments compare_faces {Encoding}.
Arguments pair_similarity {Encoding}.
Arguments matching {Encoding}.
Arguments matching_similarities {Encoding}.

(** ** Safety scorer: [calculate_safety_score] *)

Local Open Scope string_scope.
Local Open Scope Z_scope.

Definition license_keywords : list (string * Z) :=
  [("driver", 2); ("license", 2); ("identification", 2); ("state", 1);
   ("dmv", 2); ("department", 1); ("motor", 1); ("vehicle", 1);
   ("id", 2); ("card", 1)].

Definition license_fields : list string :=
  ["expires"; "issued"; "class"; "restrictions"; "endorsements"; "date";
   "birth"; "address"; "height"; "weight"; "eyes"; "hair"].

Definition calculate_safety_score (text : string) (is_license : bool)
    (face_match_score : float) : option Z :=
  let score := 0 in
  let text_lower := lower text in
  score <-
    (if fgt face_match_score 0.4 then
       face_score <- int_of_float (face_match_score * 20) ;;
       Some (score + 70 + face_score)
     else if fgt face_match_score 0.2 then
       face_score <- int_of_float (face_match_score * 15) ;;
       Some (score + 50 + face_score)
     else if is_license then Some (score + 40)
     else Some (score + 20)) ;;
  let score :=
    fold_left (fun score '(keyword, points) =>
                 if contains keyword text_lower then score + points else score)
              license_keywords score in
  let score :=
    if re_search re_date_strict text then score + 2
    else if re_search re_date_loose text then score + 1
    else score in
  let score :=
    if re_search re_licno_strict text then score + 2
    else if re_search re_licno_loose text then score + 1
    else score in
  let score := if re_search re_state_abbrev text then score + 1 else score in
  let score := if 20 <? len (strip text) then score + 1 else score in
  let score :=
    if re_search re_name text then score + 1
    else if re_search re_capitalized text then score + 1
    else score in
  let score :=
    fold_left (fun score field =>
                 if contains field text_lower then score + 1 else score)
              license_fields score in
  let score := Z.min score 100 in
  let score := Z.max score 0 in
  Some score.

(** ** Status mapper: [get_safety_status], [get_confidence_level] *)

Inductive safety_status :=
  rejected | unsafe | risky | moderate | safe | very_safe.

Inductive confidence_level :=
  minimal | very_low | low | medium | high | very_high.

Definition get_safety_status (score : Z) : safety_status :=
  if 80 <=? score then very_safe
  else if 60 <=? score then safe
  else if 40 <=? score then moderate
  else if 25 <=? score then risky
  else if 10 <=? score then unsafe
  else rejected.

Definition get_confidence_level (score : Z) : confidence_level :=
  if 80 <=? score then very_high
  else if 60 <=? score then high
  else if 40 <=? score then medium
  else if 25 <=? score then low
  else if 10 <=? score then very_low
  else minimal.

(** The labels the two functions return. *)
Definition status_label (s : safety_status) : string :=
  match s with
  | very_safe => "very_safe" | safe => "safe" | moderate => "moderate"
  | risky => "risky" | unsafe => "unsafe" | rejected => "rejected"
  end.

Definition confidence_label (c : confidence_level) : string :=
  match c with
  | very_high => "very_high" | high => "high" | medium => "medium"
  | low => "low" | very_low => "very_low" | minimal => "minimal"
  end.

(** The order of the bands, lowest first. *)
Definition status_rank (s : safety_status) : Z :=
  match s with
  | rejected => 0 | unsafe => 1 | risky => 2
  | moderate => 3 | safe => 4 | very_safe => 5
  end.

Definition confidence_rank (c : confidence_level) : Z :=
  match c with
  | minimal => 0 | very_low => 1 | low => 2
  | medium => 3 | high => 4 | very_high => 5
  end.

(** ** The [ocr] handler: classification and result assembly *)

(** [is_license = any(keyword in text_lower for keyword in license_keywords)]
    with the handler's own seven keywords. *)
Definition ocr_keywords : list string :=
  ["license"; "driver"; "id"; "identification"; "state"; "dmv";
   "department"].

Definition is_license_text (text : string) : bool :=
  let text_lower := lower text in
  existsb (fun keyword => contains keyword text_lower) ocr_keywords.

(** The dictionary under the key ['score_breakdown'] (lines 391-397); the
    entry ['face_match_score'] is the field [face_match_points]. *)
Record breakdown := Breakdown {
  base_license_score : Z;
  face_match_points : Z;
  keyword_matches : Z;
  text_quality : Z;
  confidence_indicators : Z
}.

(** The builtin [sum] on a list of integers. *)
Definition zsum (l : list Z) : Z := fold_left Z.add l 0.

Definition score_breakdown (text : string) (is_license : bool)
    (face_match_score : float) : option breakdown :=
  let text_lower := lower text in
  let has kw := contains kw text_lower in
  face_points <- int_of_float (face_match_score * 15) ;;
  Some {|
    base_license_score := if is_license then 70 else 55;
    face_match_points := face_points;
    keyword_matches :=
      zsum [if has "driver" then 2 else 0; if has "license" then 2 else 0;
            if has "identification" then 2 else 0;
            if has "state" then 1 else 0; if has "dmv" then 2 else 0;
            if has "department" then 1 else 0; if has "motor" then 1 else 0;
            if has "vehicle" then 1 else 0; if has "id" then 2 else 0;
            if has "card" then 1 else 0];
    text_quality :=
      zsum [if re_search re_date_strict text then 2 else 0;
            if re_search re_date_loose text then 1 else 0;
            if re_search re_licno_strict text then 2 else 0;
            if re_search re_licno_loose text then 1 else 0;
            if re_search re_state_abbrev text then 1 else 0;
            if 5 <? len (strip text) then 1 else 0;
            if re_search re_name text then 1 else 0;
            if re_search re_capitalized text then 1 else 0];
    confidence_indicators :=
      zsum (map (fun field => if contains field text_lower then 1 else 0)
                license_fields)
  |}.

(** The part of the handler after the recognisers: score, labels and
    breakdown of one request. *)
Record result := Result {
  safety_score : Z;
  safety_status_of : safety_status;
  confidence_level_of : confidence_level;
  breakdown_of : breakdown
}.

Definition ocr_result (text : string) (face_match_score : float)
    : option result :=
  let is_license := is_license_text text in
  safety_score <- calculate_safety_score text is_license face_match_score ;;
  let safety_status := get_safety_status safety_score in
  let confidence_level := get_confidence_level safety_score in
  b <- score_breakdown text is_license face_match_score ;;
  Some (Result safety_score safety_status confidence_level b).

(** The scorer's pipeline on a frozen triple: score, status, confidence. *)
Definition pipeline (text : string) (is_license : bool) (similarity : float)
    : option (Z * string * string) :=
  score <- calculate_safety_score text is_license similarity ;;
  Some (score, status_label (get_safety_status score),
        confidence_label (get_confidence_level score)).


(** ** The stages of the scorer

    The four additive stages of [calculate_safety_score], each as the source
    computes it from a zero score, and the final clamp;
    [calculate_safety_score_stages] below shows that the scorer is their
    composition. *)

(** Lines 130-152: base and bonus of the face match. *)
Definition face_stage (is_license : bool) (face_match_score : float)
    : option Z :=
  if fgt face_match_score 0.4 then
    face_score <- int_of_float (face_match_score * 20) ;;
    Some (70 + face_score)
  else if fgt face_match_score 0.2 then
    face_score <- int_of_float (face_match_score * 15) ;;
    Some (50 + face_score)
  else if is_license then Some 40
  else Some 20.

(** Lines 154-170. *)
Definition keyword_stage (text_lower : string) : Z :=
  fold_left (fun score '(keyword, points) =>
               if contains keyword text_lower then score + points else score)
            license_keywords 0.

(** Lines 172-188. *)
Definition quality_stage (text : string) : Z :=
  (if re_search re_date_strict text then 2
   else if re_search re_date_loose text then 1 else 0)
  + (if re_search re_licno_strict text then 2
     else if re_search re_licno_loose text then 1 else 0)
  + (if re_search re_state_abbrev text then 1 else 0)
  + (if 20 <? len (strip text) then 1 else 0)
  + (if re_search re_name text then 1
     else if re_search re_capitalized text then 1 else 0).

(** Lines 190-194. *)
Definition field_stage (text_lower : string) : Z :=
  fold_left (fun score field =>
               if contains field text_lower then score + 1 else score)
            license_fields 0.

Definition text_points (text : string) : Z :=
  keyword_stage (lower text) + quality_stage text + field_stage (lower text).

(** Lines 198-202. *)
Definition clamp (score : Z) : Z := Z.max (Z.min score 100) 0.

(** The sum a reader of the breakdown would form. *)
Definition breakdown_total (b : breakdown) : Z :=
  base_license_score b + face_match_points b + keyword_matches b
  + text_quality b + confidence_indicators b.

(** ** Notions of the specification *)

(** The similarity is a score in [0,1]. *)
Definition in_unit (s : float) : Prop := fle 0 s = true /\ fle s 1 = true.

(** Some contiguous part of [text] and [kw] have the same lower-case form,
    which is how the code looks for [kw]; what the specification calls a
    case-insensitive occurrence is [occurs_ignoring_case] below. *)
Definition ci_substring (kw text : string) : Prop :=
  exists pre mid post,
    text = (pre ++ mid ++ post)%string /\ lower mid = lower kw.

(** The five breakpoints of the status mapper, and the number of them a
    score has reached. *)
Definition breakpoints : list Z := [10; 25; 40; 60; 80].

Definition band (score : Z) : Z :=
  Z.of_nat (List.length (filter (fun b => b <=? score) breakpoints)).

(** ** Letter case, as the specification means it

    The keywords and the file extensions are made of the letters a..z, so
    that ignoring case is ignoring the case of the 26 letters A..Z. *)

(** The upper-case letters next to their lower-case forms. *)
Definition letter_pairs : list (ascii * ascii) :=
  combine (list_ascii_of_string "ABCDEFGHIJKLMNOPQRSTUVWXYZ")
          (list_ascii_of_string "abcdefghijklmnopqrstuvwxyz").

(** The same character, or the two cases of one letter. *)
Definition same_up_to_case (a b : ascii) : bool :=
  (Ascii.eqb a b ||
   existsb (fun p => (Ascii.eqb a (fst p) && Ascii.eqb b (snd p)) ||
                     (Ascii.eqb a (snd p) && Ascii.eqb b (fst p)))
           letter_pairs)%bool.

(** Two strings that differ at most in the case of their letters. *)
Fixpoint equal_ignoring_case (s t : string) : bool :=
  match s, t with
  | EmptyString, EmptyString => true
  | String a s', String b t' =>
      (same_up_to_case a b && equal_ignoring_case s' t')%bool
  | _, _ => false
  end.

(** [kw] occurs in [text] as a case-insensitive substring: some contiguous
    part of [text] is [kw] up to the case of its letters. *)
Definition occurs_ignoring_case (kw text : string) : Prop :=
  exists pre mid post,
    text = (pre ++ mid ++ post)%string /\ equal_ignoring_case mid kw = true.

(** ** White space, by its code points *)

(** The code points below U+0100 that Unicode classes as white space:
    TAB, LF, VT, FF, CR, FS, GS, RS, US, SPACE, NEL and NBSP. *)
Definition white_space_codes : list nat :=
  [9; 10; 11; 12; 13; 28; 29; 30; 31; 32; 133; 160]%nat.

Definition is_blank_char (c : ascii) : bool :=
  existsb (Nat.eqb (nat_of_ascii c)) white_space_codes.

(** A string made of white space only; the empty string is one. *)
Fixpoint blank (s : string) : bool :=
  match s with
  | EmptyString => true
  | String c s' => (is_blank_char c && blank s')%bool
  end.

(** [core] is [t] without the white space at its two ends: [t] is [core]
    between two blank strings, and [core] neither starts nor ends with
    white space. *)
Definition trimmed (core t : string) : Prop :=
  exists l r,
    t = (l ++ core ++ r)%string /\ blank l = true /\ blank r = true /\
    (forall c rest, core = String c rest -> is_blank_char c = false) /\
    (forall init c, core = (init ++ String c "")%string ->
                    is_blank_char c = false).

(** ** Rounding and order of binary64 values

    Auxiliary notions for reasoning about [SFmul] and [SFcompare]. *)

(** Nearest multiple of [2^n] to [M], ties to even, divided by [2^n]. *)
Definition rnd_even (M n : Z) : Z :=
  let q := M / 2 ^ n in
  let r := M mod 2 ^ n in
  let h := 2 ^ (n - 1) in
  if r <? h then q
  else if h <? r then q + 1
  else if Z.even q then q else q + 1.

(** What [k] applications of [shr_1] to [(M, false, false)] have computed. *)
Definition shr_inv (M k : Z) (st : shr_record) : Prop :=
  let rem := M - shr_m st * 2 ^ k in
  0 <= shr_m st /\ 0 <= rem < 2 ^ k /\
  (shr_r st = true <-> 1 <= k /\ 2 ^ (k - 1) <= rem) /\
  (shr_s st = true <-> 1 <= k /\ rem <> 0 /\ rem <> 2 ^ (k - 1)).

(** The exact value [X] rounded to 53 significant bits. *)
Definition round53 (X : Z) : Z :=
  let n := Z.log2 X - 52 in rnd_even X n * 2 ^ n.

(** Position of a float on the extended real line, as a triple compared
    lexicographically: class, then exponent, then mantissa. *)
Definition SFkey (x : spec_float) : Z * Z * Z :=
  match x with
  | S754_infinity true => (-2, 0, 0)
  | S754_finite true m e => (-1, - e, - Zpos m)
  | S754_zero _ => (0, 0, 0)
  | S754_finite false m e => (1, e, Zpos m)
  | S754_infinity false => (2, 0, 0)
  | S754_nan => (3, 0, 0)
  end.

Definition lex_lt (a b : Z * Z * Z) : Prop :=
  let '(a1, a2, a3) := a in
  let '(b1, b2, b3) := b in
  a1 < b1 \/ (a1 = b1 /\ (a2 < b2 \/ (a2 = b2 /\ a3 < b3))).

Definition lex_le (a b : Z * Z * Z) : Prop :=
  let '(a1, a2, a3) := a in
  let '(b1, b2, b3) := b in
  a1 < b1 \/ (a1 = b1 /\ (a2 < b2 \/ (a2 = b2 /\ a3 <= b3))).

Definition not_nan (x : spec_float) : Prop := fst (fst (SFkey x)) <> 3.

(** The float that follows 0.2. *)
Definition after_one_fifth : float := 0x1.999999999999bp-3%float.

(** ** File names: [allowed_file] *)

Definition ALLOWED_EXTENSIONS : list string := ["png"; "jpg"; "jpeg"].

(** The two parts of [s] around its last ['.'], if it has one. *)
Fixpoint split_last_dot (s : string) : option (string * string) :=
  match s with
  | EmptyString => None
  | String c s' =>
      match split_last_dot s' with
      | Some (h, t) => Some (String c h, t)
      | None => if Ascii.eqb c "." then Some (EmptyString, s') else None
      end
  end.

(** [s.rsplit('.', 1)] *)
Definition rsplit1 (s : string) : list string :=
  match split_last_dot s with
  | Some (h, t) => [h; t]
  | None => [s]
  end.

(** [l[i]], with [None] for [IndexError]. *)
Definition index {A : Type} (l : list A) (i : nat) : option A := nth_error l i.

(** ['.' in filename and filename.rsplit('.', 1)[1].lower() in
    ALLOWED_EXTENSIONS]; the right operand of [and] is evaluated only when
    the left one is true. *)
Definition allowed_file (filename : string) : option bool :=
  if contains "." filename then
    ext <- index (rsplit1 filename) 1 ;;
    Some (existsb (String.eqb (lower ext)) ALLOWED_EXTENSIONS)
  else Some false.

(** A name with one of the allowed extensions, up to case. *)
Definition has_allowed_extension (name : string) : Prop :=
  exists stem ext,
    name = (stem ++ "." ++ ext)%string /\
    contains "." ext = false /\
    (lower ext = "png" \/ lower ext = "jpg" \/ lower ext = "jpeg").

(** ** Text recognition: the loop over the configurations (lines 296-312)

    [pytesseract.image_to_string] on the saved image is the collaborator; it
    answers [None] when it raises, which the loop catches. *)

Definition ocr_configs : list string :=
  ["--psm 6 --oem 3"; "--psm 3 --oem 3"; "--psm 4 --oem 3"].

Section Recognition.
Variable image_to_string : string -> option string.

(** The body of the loop for one configuration. *)
Definition ocr_try (text config : string) : string :=
  match image_to_string config with
  | Some temp_text =>
      if len (strip text) <? len (strip temp_text) then temp_text else text
  | None => text
  end.

Definition ocr_race (configs : list string) : string :=
  fold_left ocr_try configs "".

Definition ocr_text : string := ocr_race ocr_configs.
End Recognition.

(** ** Python numbers used by the resizing code *)

(** [float(n)] for an integer [0 <= n < 2^63]; exact below [2^53]. *)
Definition float_of_int (n : Z) : float := PrimFloat.of_uint63 (Uint63.of_Z n).

(** [a / b] on integers: the quotient of their conversions, which is
    Python's true division for operands below [2^53]; [None] is
    [ZeroDivisionError]. *)
Definition true_div (a b : Z) : option float :=
  if b =? 0 then None else Some (float_of_int a / float_of_int b)%float.

(** [min(a, b)] on floats: [a] unless [b < a]. *)
Definition fmin (a b : float) : float := if PrimFloat.ltb b a then b else a.

(** ** Face extractor: [extract_faces_from_image]

    The collaborators are [face_recognition] (loading, detection, encoding)
    and PIL (resizing); each answers [None] when it raises.  The detectors
    called are recorded in order. *)

Inductive detector :=
  | Hog        (* model="hog" *)
  | HogUp2     (* model="hog", number_of_times_to_upsample=2 *)
  | Cnn.       (* model="cnn" *)

Section Extractor.
Variables Image Box Encoding : Type.
Variable load_image_file : string -> option Image.
Variable shape : Image -> Z * Z.
Variable resize : Image -> Z -> Z -> option Image.
Variable face_locations : Image -> detector -> option (list Box).
Variable face_encodings : Image -> list Box -> option (list Encoding).

(** Lines 54-66: the image handed to the detectors. *)
Definition resized (image : Image) : option Image :=
  let '(height, width) := shape image in
  if (800 <? width) || (800 <? height) then
    sw <- true_div 800 width ;;
    sh <- true_div 800 height ;;
    let scale := fmin sw sh in
    new_width <- int_of_float (float_of_int width * scale) ;;
    new_height <- int_of_float (float_of_int height * scale) ;;
    resize image new_width new_height
  else Some image.

Definition prepared_image (image_path : string) : option Image :=
  image <- load_image_file image_path ;;
  resized image.

Definition is_empty {A : Type} (l : list A) : bool :=
  match l with [] => true | _ => false end.

(** Lines 68-80: the three attempts; the result is [None] when one raises. *)
Definition detect (image : Image) : list detector * option (list Box) :=
  match face_locations image Hog with
  | None => ([Hog], None)
  | Some locations =>
      if negb (is_empty locations) then ([Hog], Some locations) else
      match face_locations image HogUp2 with
      | None => ([Hog; HogUp2], None)
      | Some locations =>
          if negb (is_empty locations) then ([Hog; HogUp2], Some locations) else
          match face_locations image Cnn with
          | None => ([Hog; HogUp2; Cnn], None)
          | Some locations => ([Hog; HogUp2; Cnn], Some locations)
          end
      end
  end.

(** The function, with the detectors it called; every exception is caught
    and gives the empty list. *)
Definition extract_faces_log (image_path : string)
    : list detector * list Encoding :=
  match prepared_image image_path with
  | None => ([], [])
  | Some image =>
      let '(log, found) := detect image in
      match found with
      | None => (log, [])
      | Some locations =>
          if is_empty locations then (log, [])
          else match face_encodings image locations with
               | Some encodings => (log, encodings)
               | None => (log, [])
               end
      end
  end.

Definition extract_faces_from_image (image_path : string) : list Encoding :=
  snd (extract_faces_log image_path).
End Extractor.

Arguments is_empty {A}.
Arguments resized {Image}.
Arguments prepared_image {Image}.
Arguments detect {Image Box}.
Arguments extract_faces_log {Image Box Encoding}.
Arguments extract_faces_from_image {Image Box Encoding}.

(** The order in which the detectors are tried. *)
Definition detector_rank (d : detector) : Z :=
  match d with Hog => 0 | HogUp2 => 1 | Cnn => 2 end.

(** ** The handler [ocr] (lines 240-405)

    PIL, the temporary files, [pytesseract] and the face extractor are
    collaborators; one that raises answers [inl] with the exception, of
    which the handler distinguishes [UnidentifiedImageError] from all
    others. *)

Inductive exn := UnidentifiedImageError | OtherException.

Definition attempt (A : Type) : Type := exn + A.

Definition abind {A B : Type} (m : attempt A) (f : A -> attempt B) : attempt B :=
  match m with
  | inl e => inl e
  | inr a => f a
  end.

Notation "x <~ m ;; k" := (abind m (fun x => k))
  (at level 61, m at next level, right associativity).

(** An exception of the scoring code, [OverflowError] or [ValueError] of
    [int], or [ZeroDivisionError], inside the handler's [try]. *)
Definition raising {A : Type} (m : option A) : attempt A :=
  match m with
  | Some a => inr a
  | None => inl OtherException
  end.

Inductive enhancer := Contrast | Sharpness | Brightness.

(** The answers of the handler: 400 with its message, 500, and 200 with
    the fields of the JSON body. *)
Record verification := Verification {
  v_text : string;
  v_is_license : bool;
  v_face_match_score : float;        (* round(face_match_score, 3) *)
  v_license_faces : Z;
  v_user_faces : Z;
  v_safety_score : Z;
  v_safety_status : safety_status;
  v_confidence_level : confidence_level;
  v_score_breakdown : breakdown
}.

Inductive response :=
  | Rejected (message : string)            (* 400 *)
  | Failed                                 (* 500, 'Unexpected error: ...' *)
  | Verified (body : verification).        (* 200 *)

Section Handler.
Variables Bytes Image Encoding : Type.

Record upload := Upload { filename : string; data : Bytes }.

Variable image_open : Bytes -> attempt Image.
Variable to_rgb : Image -> attempt Image.
Variable size : Image -> Z * Z.
Variable resize : Image -> Z -> Z -> attempt Image.
Variable enhance : Image -> enhancer -> float -> attempt Image.
Variable save_temp : Image -> attempt string.
Variable image_to_string : string -> string -> option string.
Variable extract_faces : string -> list Encoding.
Variable unlink : string -> attempt unit.
Variable face_distance : Encoding -> Encoding -> float.
Variable round3 : float -> float.

(** Lines 269-277. *)
Definition ocr_resized (license_image : Image) : attempt Image :=
  let '(width, height) := size license_image in
  if (1500 <? width) || (1000 <? height) then
    sw <~ raising (true_div 1500 width) ;;
    sh <~ raising (true_div 1000 height) ;;
    let scale := fmin sw sh in
    new_width <~ raising (int_of_float (float_of_int width * scale)) ;;
    new_height <~ raising (int_of_float (float_of_int height * scale)) ;;
    resize license_image new_width new_height
  else inr license_image.

(** Lines 262-318: text and faces of the license image. *)
Definition read_license (license_file : upload)
    : attempt (string * list Encoding) :=
  license_image <~ image_open (data license_file) ;;
  license_image <~ to_rgb license_image ;;
  license_image <~ ocr_resized license_image ;;
  license_image <~ enhance license_image Contrast 1.3 ;;
  license_image <~ enhance license_image Sharpness 1.2 ;;
  license_image <~ enhance license_image Brightness 1.1 ;;
  temp_license <~ save_temp license_image ;;
  let text := ocr_text (image_to_string temp_license) in
  let license_face_encodings := extract_faces temp_license in
  _ <~ unlink temp_license ;;
  inr (text, license_face_encodings).

(** Lines 320-336: faces of the user photo. *)
Definition read_user (user_photo_file : upload) : attempt (list Encoding) :=
  user_photo_image <~ image_open (data user_photo_file) ;;
  user_photo_image <~ to_rgb user_photo_image ;;
  temp_user <~ save_temp user_photo_image ;;
  let user_face_encodings := extract_faces temp_user in
  _ <~ unlink temp_user ;;
  inr user_face_encodings.

(** Lines 338-398: comparison, classification, score and the body. *)
Definition assemble (text : string)
    (license_face_encodings user_face_encodings : list Encoding)
    : attempt verification :=
  let face_match_score :=
    compare_faces face_distance license_face_encodings user_face_encodings in
  let is_license := is_license_text text in
  safety_score <~ raising (calculate_safety_score text is_license face_match_score) ;;
  let safety_status := get_safety_status safety_score in
  let confidence_level := get_confidence_level safety_score in
  score_breakdown <~ raising (score_breakdown text is_license face_match_score) ;;
  inr (Verification text is_license (round3 face_match_score)
         (Z.of_nat (List.length license_face_encodings))
         (Z.of_nat (List.length user_face_encodings))
         safety_score safety_status confidence_level score_breakdown).

(** The body of the [try]. *)
Definition ocr_try_body (license_file user_photo_file : upload)
    : attempt verification :=
  license <~ read_license license_file ;;
  let '(text, license_face_encodings) := license in
  user_face_encodings <~ read_user user_photo_file ;;
  assemble text license_face_encodings user_face_encodings.

(** [request.files] is a map from field names to uploads.  An exception
    outside the [try] would be a 500 of the framework. *)
Definition ocr (files : string -> option upload) : response :=
  match files "license_image" with
  | None => Rejected "No license image uploaded"
  | Some license_file =>
  match files "user_photo" with
  | None => Rejected "No user photo uploaded"
  | Some user_photo_file =>
  if String.eqb (filename license_file) "" || String.eqb (filename user_photo_file) ""
  then Rejected "No file selected"
  else
    match allowed_file (filename license_file) with
    | None => Failed
    | Some false => Rejected "Unsupported file type"
    | Some true =>
    match allowed_file (filename user_photo_file) with
    | None => Failed
    | Some false => Rejected "Unsupported file type"
    | Some true =>
    match ocr_try_body license_file user_photo_file with
    | inr body => Verified body
    | inl UnidentifiedImageError =>
        Rejected "Invalid or unsupported image format"
    | inl OtherException => Failed
    end end end
  end end.
End Handler.

Arguments Upload {Bytes}.
Arguments filename {Bytes}.
Arguments data {Bytes}.
Arguments ocr_resized {Image}.
Arguments read_license {Bytes Image Encoding}.
Arguments read_user {Bytes Image Encoding}.
Arguments assemble {Encoding}.
Arguments ocr_try_body {Bytes Image Encoding}.
Arguments ocr {Bytes Image Encoding}.

(** ** Sample collaborators, for concrete runs *)

(** An extractor whose two HOG attempts find nothing and whose CNN attempt
    finds one face. *)
Definition sample_locations (_ : unit) (d : detector) : option (list unit) :=
  match d with
  | Cnn => Some [tt]
  | _ => Some []
  end.

Definition sample_extract : string -> list Z :=
  extract_faces_from_image
    (fun _ => Some tt) (fun _ => (480, 640)) (fun image _ _ => Some image)
    sample_locations (fun _ boxes => Some (map (fun _ => 7) boxes)).

(** A distance that depends on whether the two encodings are equal. *)
Definition sample_distance (a b : Z) : float :=
  if a =? b then 0.25%float else 0.75%float.

(** A request with two well-named uploads, a recogniser that reads the
    same text under every configuration, and one face in each image. *)
Definition sample_files (field : string) : option (upload unit) :=
  if String.eqb field "license_image" then Some (Upload "license.JPG" tt)
  else if String.eqb field "user_photo" then Some (Upload "me.png" tt)
  else None.

Definition sample_ocr : (string -> option (upload unit)) -> response :=
  ocr (Image := unit)
    (fun _ => inr tt) (fun image => inr image) (fun _ => (640, 480))
    (fun image _ _ => inr image) (fun image _ _ => inr image)
    (fun _ => inr "tmp.png") (fun _ _ => Some "DRIVER LICENSE")
    (fun _ => [1]) (fun _ => inr tt) sample_distance (fun x => x).

(** The same request when no face is found in either image. *)
Definition sample_ocr_no_face : (string -> option (upload unit)) -> response :=
  ocr (Image := unit) (Encoding := Z)
    (fun _ => inr tt) (fun image => inr image) (fun _ => (640, 480))
    (fun image _ _ => inr image) (fun image _ _ => inr image)
    (fun _ => inr "tmp.png") (fun _ _ => Some "DRIVER LICENSE")
    (fun _ => []) (fun _ => inr tt) sample_distance (fun x => x).

(** The same request when sharpening the license image raises. *)
Definition sample_enhance_broken (image : unit) (e : enhancer) (_ : float)
    : attempt unit :=
  match e with
  | Sharpness => inl OtherException
  | _ => inr image
  end.

Definition sample_ocr_broken : (string -> option (upload unit)) -> response :=
  ocr (Image := unit)
    (fun _ => inr tt) (fun image => inr image) (fun _ => (640, 480))
    (fun image _ _ => inr image) sample_enhance_broken
    (fun _ => inr "tmp.png") (fun _ _ => Some "DRIVER LICENSE")
    (fun _ => [1]) (fun _ => inr tt) sample_distance (fun x => x).

(** Images that are only their shape [(height, width)], resized by
    taking the new shape. *)
Definition sample_shape (image : Z * Z) : Z * Z := image.

Definition sample_resize (_ : Z * Z) (new_width new_height : Z) : option (Z * Z) :=
  Some (new_height, new_width).

(** The same for PIL, whose [size] is [(width, height)]. *)
Definition sample_size (image : Z * Z) : Z * Z := image.

Definition sample_pil_resize (_ : Z * Z) (new_width new_height : Z)
    : attempt (Z * Z) :=
  inr (new_width, new_height).

(** * Properties of binary64 arithmetic used by the scorer *)

(** ** Powers of two *)
Lemma pow2_succ k : 0 <= k -> 2 ^ (k + 1) = 2 * 2 ^ k.
Proof. intros. rewrite Z.pow_add_r by lia. lia. Qed.

Lemma pow2_pos k : 0 <= k -> 0 < 2 ^ k.
Proof. intros. apply Z.pow_pos_nonneg; lia. Qed.

(** ** Shifting a mantissa right: [shr]

    [shr_inv] holds initially, is preserved by [shr_1], hence by the
    iteration [shr] performs, and determines what [round_nearest_even]
    returns. *)
Lemma shr_inv_init M : 0 <= M -> shr_inv M 0 (shr_record_of_loc M loc_Exact).
Proof.
  intros HM. unfold shr_inv; simpl. repeat split; try lia; intros; try discriminate; lia.
Qed.

Lemma shr_inv_step M k st :
  0 <= k -> shr_inv M k st -> shr_inv M (k + 1) (shr_1 st).
Proof.
  intros Hk (Hm & Hrem & Hr & Hs).
  assert (Hp := pow2_pos k Hk).
  assert (Hsucc := pow2_succ k Hk).
  assert (Hpred : 1 <= k -> 2 ^ k = 2 * 2 ^ (k - 1)).
  { intros. replace k with ((k - 1) + 1) at 1 by lia. apply pow2_succ. lia. }
  assert (Hk0 : k = 0 -> 2 ^ k = 1) by (intros ->; reflexivity).
  destruct st as [m r s]; cbn [shr_m shr_r shr_s] in *.
  assert (Hrs : orb r s = true <-> M - m * 2 ^ k <> 0).
  { rewrite orb_true_iff, Hr, Hs.
    destruct (Z.eq_dec k 0) as [->|]; [change (2 ^ 0) with 1 in *; lia|].
    specialize (Hpred ltac:(lia)). assert (0 < 2 ^ (k - 1)) by (apply pow2_pos; lia). lia. }
  unfold shr_inv.
  replace (k + 1 - 1) with k by lia. rewrite Hsucc.
  destruct m as [|[p|p|]|p]; cbn [shr_1 shr_m shr_r shr_s]; try lia.
  - rewrite Hrs. repeat split; try lia; intros; try discriminate; lia.
  - rewrite Hrs. repeat split; try lia.
  - rewrite Hrs. repeat split; try lia; intros; try discriminate; lia.
  - rewrite Hrs. repeat split; try lia.
Qed.

Lemma shr_inv_iter M p : forall k st,
  0 <= k -> shr_inv M k st -> shr_inv M (k + Zpos p) (iter_pos shr_1 p st).
Proof.
  induction p as [p IH|p IH|]; intros k st Hk H; simpl.
  - replace (k + Z.pos p~1) with (((k + 1) + Z.pos p) + Z.pos p) by lia.
    apply IH; [lia|]. apply IH; [lia|]. now apply shr_inv_step.
  - replace (k + Z.pos p~0) with ((k + Z.pos p) + Z.pos p) by lia.
    apply IH; [lia|]. now apply IH.
  - now apply shr_inv_step.
Qed.

Lemma shr_inv_round M k st :
  1 <= k -> shr_inv M k st ->
  round_nearest_even (shr_m st) (loc_of_shr_record st) = rnd_even M k.
Proof.
  intros Hk (Hm & Hrem & Hr & Hs).
  assert (Hp := pow2_pos k ltac:(lia)).
  assert (Hq : shr_m st = M / 2 ^ k).
  { apply Z.div_unique with (r := M - shr_m st * 2 ^ k); lia. }
  assert (Hmod : M mod 2 ^ k = M - shr_m st * 2 ^ k).
  { symmetry. apply Z.mod_unique with (q := shr_m st); lia. }
  unfold rnd_even. rewrite Hmod, <- Hq.
  destruct st as [m r s]; cbn [shr_m shr_r shr_s loc_of_shr_record] in *.
  destruct (Z.ltb_spec (M - m * 2 ^ k) (2 ^ (k - 1))) as [Hlt|Hge].
  - destruct r; [apply proj1 in Hr; specialize (Hr eq_refl); lia|].
    destruct s; reflexivity.
  - assert (r = true) as -> by (apply Hr; lia).
    destruct (Z.ltb_spec (2 ^ (k - 1)) (M - m * 2 ^ k)) as [Hgt|Hle].
    + assert (s = true) as -> by (apply Hs; lia). reflexivity.
    + destruct s; [apply proj1 in Hs; specialize (Hs eq_refl); lia|].
      reflexivity.
Qed.

(** ** Number of binary digits *)
Lemma digits2_bounds p :
  2 ^ (Zpos (digits2_pos p) - 1) <= Zpos p < 2 ^ Zpos (digits2_pos p).
Proof.
  induction p as [p IH|p IH|]; cbn [digits2_pos].
  - rewrite Pos2Z.inj_succ. replace (Z.succ (Zpos (digits2_pos p)) - 1) with ((Zpos (digits2_pos p) - 1) + 1) by lia.
    unfold Z.succ. rewrite !pow2_succ by lia. lia.
  - rewrite Pos2Z.inj_succ. replace (Z.succ (Zpos (digits2_pos p)) - 1) with ((Zpos (digits2_pos p) - 1) + 1) by lia.
    unfold Z.succ. rewrite !pow2_succ by lia. lia.
  - change (2 ^ (1 - 1)) with 1. change (2 ^ 1) with 2. lia.
Qed.

Lemma digits2_unique p d :
  2 ^ (d - 1) <= Zpos p < 2 ^ d -> Zpos (digits2_pos p) = d.
Proof.
  intros [Hlo Hhi]. destruct (digits2_bounds p) as [Hlo' Hhi'].
  assert (Hd : 0 < d).
  { destruct (Z.lt_trichotomy d 0) as [H|[H|H]]; try lia.
    - rewrite Z.pow_neg_r in Hhi by lia. lia.
    - subst d. change (2 ^ 0) with 1 in Hhi. lia. }
  destruct (Z.lt_trichotomy (Zpos (digits2_pos p)) d) as [H|[H|H]]; trivial.
  - assert (2 ^ Zpos (digits2_pos p) <= 2 ^ (d - 1)) by (apply Z.pow_le_mono_r; lia). lia.
  - assert (2 ^ d <= 2 ^ (Zpos (digits2_pos p) - 1)) by (apply Z.pow_le_mono_r; lia). lia.
Qed.

(** ** Rounding to nearest, ties to even *)
Lemma rnd_even_bounds M n a :
  1 <= n -> 0 <= a -> a * 2 ^ n <= M < 2 * a * 2 ^ n ->
  a <= rnd_even M n <= 2 * a.
Proof.
  intros Hn Ha [Hlo Hhi].
  assert (Hp := pow2_pos n ltac:(lia)).
  assert (a <= M / 2 ^ n) by (apply Z.div_le_lower_bound; lia).
  assert (M / 2 ^ n < 2 * a) by (apply Z.div_lt_upper_bound; lia).
  unfold rnd_even.
  destruct (_ <? _); [lia|]. destruct (_ <? _); [lia|]. destruct (Z.even _); lia.
Qed.

(** [binary_round_aux] on a mantissa of [53 + n] digits, away from the
    subnormal and the overflow range: the result is finite, denotes
    [rnd_even (Zpos P) n * 2 ^ (e + n)] and has a 53-digit mantissa. *)
Lemma bra_normal sx P e n :
  Zpos (digits2_pos P) = 53 + n -> 1 <= n -> -1074 <= e + n -> e + n + 1 <= 971 ->
  exists m' e',
    binary_round_aux prec emax sx (Zpos P) e loc_Exact = S754_finite sx m' e' /\
    e + n <= e' <= e + n + 1 /\
    Zpos m' * 2 ^ (e' - (e + n)) = rnd_even (Zpos P) n /\
    Zpos (digits2_pos m') = 53.
Proof.
  intros Hd Hn Hlo Hhi.
  assert (Hb := digits2_bounds P). rewrite Hd in Hb.
  replace (53 + n - 1) with (n + 52) in Hb by lia.
  replace (53 + n) with (n + 53) in Hb by lia.
  rewrite !Z.pow_add_r in Hb by lia.
  change (2 ^ 52) with 4503599627370496 in Hb.
  change (2 ^ 53) with 9007199254740992 in Hb.
  assert (Hp := pow2_pos n ltac:(lia)).
  assert (HM1 := rnd_even_bounds (Zpos P) n 4503599627370496 Hn ltac:(lia) ltac:(lia)).
  unfold binary_round_aux, shr_fexp, fexp, SpecFloat.emin, emax, prec.
  cbn [Zdigits2]. rewrite Hd.
  rewrite Z.max_l by lia.
  replace (53 + n + e - 53 - e) with n by lia.
  destruct n as [|pn|pn]; try lia.
  cbn [shr].
  pose proof (shr_inv_iter (Zpos P) pn 0 _ ltac:(lia) (shr_inv_init (Zpos P) ltac:(lia))) as Hinv.
  cbn [Z.add] in Hinv.
  rewrite (shr_inv_round _ _ _ Hn Hinv).
  set (M1 := rnd_even (Zpos P) (Zpos pn)) in *.
  destruct M1 as [|m1|m1] eqn:E1; try lia.
  cbn [Zdigits2].
  destruct (Z.eq_dec (Zpos m1) 9007199254740992) as [Heq|Hne].
  - injection Heq as ->. 
    exists 4503599627370496%positive, (e + Zpos pn + 1).
    split; [|split; [lia|split; [|reflexivity]]].
    + cbn [digits2_pos Pos.succ].
      replace (Z.max _ _ - _) with 1.
      2:{ rewrite Z.max_l; lia. }
      cbn. destruct (Z.leb_spec (e + Zpos pn + 1) 971); [reflexivity|lia].
    + replace (e + Zpos pn + 1 - (e + Zpos pn)) with 1 by lia. reflexivity.
  - assert (Hd1 : Zpos (digits2_pos m1) = 53).
    { apply digits2_unique. change (2 ^ (53 - 1)) with 4503599627370496.
      change (2 ^ 53) with 9007199254740992. lia. }
    exists m1, (e + Zpos pn).
    split; [|split; [lia|split; [|assumption]]].
    + rewrite Hd1. rewrite Z.max_l by lia.
      replace (53 + (e + Zpos pn) - 53 - (e + Zpos pn)) with 0 by lia.
      cbn. destruct (Z.leb_spec (e + Zpos pn) 971); [reflexivity|lia].
    + rewrite Z.sub_diag. change (2 ^ 0) with 1. lia.
Qed.

(** Rounding at a fixed position is monotone, fixes the multiples of
    [2^n], and commutes with scaling by a power of two. *)
Lemma rnd_even_mono n X Y :
  1 <= n -> 0 <= X <= Y -> rnd_even X n <= rnd_even Y n.
Proof.
  intros Hn [HX HXY].
  assert (Hp := pow2_pos n ltac:(lia)).
  assert (Hh : 2 ^ n = 2 * 2 ^ (n - 1)).
  { replace n with ((n - 1) + 1) at 1 by lia. apply pow2_succ. lia. }
  assert (Hq : X / 2 ^ n <= Y / 2 ^ n) by (apply Z.div_le_mono; lia).
  pose proof (Z.div_mod X (2 ^ n) ltac:(lia)) as HdX.
  pose proof (Z.div_mod Y (2 ^ n) ltac:(lia)) as HdY.
  pose proof (Z.mod_pos_bound X (2 ^ n) Hp) as HrX.
  pose proof (Z.mod_pos_bound Y (2 ^ n) Hp) as HrY.
  unfold rnd_even.
  destruct (Z.eq_dec (X / 2 ^ n) (Y / 2 ^ n)) as [E|NE].
  - rewrite E in *.
    assert (X mod 2 ^ n <= Y mod 2 ^ n) by lia.
    repeat match goal with |- context [?a <? ?b] => destruct (Z.ltb_spec a b) end;
      try destruct (Z.even _); lia.
  - repeat match goal with |- context [?a <? ?b] => destruct (Z.ltb_spec a b) end;
      repeat match goal with |- context [Z.even ?a] => destruct (Z.even a) end; lia.
Qed.

Lemma rnd_even_fix n a : 1 <= n -> rnd_even (a * 2 ^ n) n = a.
Proof.
  intros Hn. assert (Hp := pow2_pos n ltac:(lia)).
  assert (0 < 2 ^ (n - 1)) by (apply pow2_pos; lia).
  unfold rnd_even. rewrite Z.mod_mul, Z.div_mul by lia.
  destruct (Z.ltb_spec 0 (2 ^ (n - 1))); [reflexivity|lia].
Qed.

Lemma rnd_even_scale n j X :
  1 <= n -> 0 <= j -> rnd_even (X * 2 ^ j) (n + j) = rnd_even X n.
Proof.
  intros Hn Hj.
  assert (Hp := pow2_pos n ltac:(lia)). assert (Hpj := pow2_pos j Hj).
  assert (Hph := pow2_pos (n - 1) ltac:(lia)).
  unfold rnd_even.
  replace (n + j - 1) with ((n - 1) + j) by lia.
  rewrite !Z.pow_add_r by lia.
  rewrite Z.div_mul_cancel_r by lia.
  rewrite Z.mul_mod_distr_r by lia.
  set (r := X mod 2 ^ n). set (h := 2 ^ (n - 1)). set (b := 2 ^ j) in *.
  assert (E1 : (r * b <? h * b) = (r <? h)).
  { apply eq_true_iff_eq. rewrite !Z.ltb_lt. split; intros; nia. }
  assert (E2 : (h * b <? r * b) = (h <? r)).
  { apply eq_true_iff_eq. rewrite !Z.ltb_lt. split; intros; nia. }
  now rewrite E1, E2.
Qed.

(** Rounding to 53 significant bits is monotone, also between numbers of
    different magnitude. *)
Lemma round53_mono X Y : 2 ^ 53 <= X <= Y -> round53 X <= round53 Y.
Proof.
  intros [HX HXY].
  assert (H53 : 0 < 2 ^ 53) by reflexivity.
  assert (HlX : 53 <= Z.log2 X) by (apply Z.log2_le_pow2; lia).
  assert (Hmono : Z.log2 X <= Z.log2 Y) by (apply Z.log2_le_mono; lia).
  destruct (Z.log2_spec X ltac:(lia)) as [HXlo HXhi].
  destruct (Z.log2_spec Y ltac:(lia)) as [HYlo HYhi].
  unfold round53.
  destruct (Z.eq_dec (Z.log2 X) (Z.log2 Y)) as [E|NE].
  - rewrite E. apply Z.mul_le_mono_nonneg_r.
    + apply Z.pow_nonneg; lia.
    + apply rnd_even_mono; lia.
  - set (nX := Z.log2 X - 52). set (nY := Z.log2 Y - 52).
    assert (HpX := pow2_pos nX ltac:(unfold nX; lia)).
    assert (HpY := pow2_pos nY ltac:(unfold nY; lia)).
    (* X rounds to at most the next power of two, Y to at least its own *)
    assert (Hup : rnd_even X nX <= 2 ^ 53).
    { rewrite <- (rnd_even_fix nX (2 ^ 53)) by (unfold nX; lia).
      apply rnd_even_mono; [unfold nX; lia|]. split; [lia|].
      rewrite <- Z.pow_add_r by (unfold nX; lia).
      replace (53 + nX) with (Z.succ (Z.log2 X)) by (unfold nX; lia). lia. }
    assert (Hdn : 2 ^ 52 <= rnd_even Y nY).
    { rewrite <- (rnd_even_fix nY (2 ^ 52)) at 1 by (unfold nY; lia).
      apply rnd_even_mono; [unfold nY; lia|]. split.
      - apply Z.mul_nonneg_nonneg; [apply Z.pow_nonneg|]; lia.
      - rewrite <- Z.pow_add_r by (unfold nY; lia).
        replace (52 + nY) with (Z.log2 Y) by (unfold nY; lia). lia. }
    apply Z.le_trans with (2 ^ 53 * 2 ^ nX).
    { apply Z.mul_le_mono_nonneg_r; lia. }
    apply Z.le_trans with (2 ^ 52 * 2 ^ nY).
    2:{ apply Z.mul_le_mono_nonneg_r; lia. }
    rewrite <- !Z.pow_add_r by (unfold nX, nY; lia).
    apply Z.pow_le_mono_r; unfold nX, nY; lia.
Qed.

Lemma round53_nonneg X : 2 ^ 53 <= X -> 0 <= round53 X.
Proof.
  intros HX. assert (H53 : 0 < 2 ^ 53) by reflexivity.
  assert (HlX : 53 <= Z.log2 X) by (apply Z.log2_le_pow2; lia).
  unfold round53. apply Z.mul_nonneg_nonneg; [|apply Z.pow_nonneg; lia].
  rewrite <- (rnd_even_fix (Z.log2 X - 52) 0) by lia.
  apply rnd_even_mono; lia.
Qed.

Lemma log2_digits p : Z.log2 (Zpos p) = Zpos (digits2_pos p) - 1.
Proof.
  destruct (digits2_bounds p). apply Z.log2_unique; [lia|].
  replace (Z.succ (Zpos (digits2_pos p) - 1)) with (Zpos (digits2_pos p)) by lia.
  lia.
Qed.

(** The product of a positive normal float with exponent field in
    [-55, -52] by a positive normal constant is a positive finite float, and
    its integer part is that of the exact product rounded to 53 bits. *)
Lemma SFmul_normal ms es mc ec :
  Zpos (digits2_pos ms) = 53 -> Zpos (digits2_pos mc) = 53 ->
  -55 <= es <= -52 -> -60 <= ec <= -2 ->
  exists m' e',
    SF64mul (S754_finite false ms es) (S754_finite false mc ec)
      = S754_finite false m' e' /\
    Z.shiftl (Zpos m') e'
      = round53 (Zpos ms * 2 ^ (es + 55) * Zpos mc) / 2 ^ (55 - ec).
Proof.
  intros Hds Hdc Hes Hec.
  assert (Hbs := digits2_bounds ms). rewrite Hds in Hbs.
  assert (Hbc := digits2_bounds mc). rewrite Hdc in Hbc.
  change (2 ^ (53 - 1)) with 4503599627370496 in *.
  change (2 ^ 53) with 9007199254740992 in *.
  set (P := (ms * mc)%positive).
  assert (HP : Zpos P = Zpos ms * Zpos mc) by reflexivity.
  assert (HPb : 2 ^ 104 <= Zpos P < 2 ^ 106).
  { change (2 ^ 104) with (4503599627370496 * 4503599627370496).
    change (2 ^ 106) with (9007199254740992 * 9007199254740992). nia. }
  assert (Hl : 104 <= Z.log2 (Zpos P) < 106).
  { split; [apply Z.log2_le_pow2; lia | apply Z.log2_lt_pow2; lia]. }
  set (n := Zpos (digits2_pos P) - 53).
  assert (Hn : Z.log2 (Zpos P) = 52 + n) by (rewrite log2_digits; unfold n; lia).
  assert (Hn1 : 52 <= n <= 53) by lia.
  destruct (bra_normal false P (es + ec) n) as (m' & e' & Heq & He' & Hval & Hd');
    try (unfold n; lia).
  exists m', e'. split; [exact Heq|].
  set (A := rnd_even (Zpos P) n) in *.
  rewrite Z.shiftl_div_pow2 by lia.
  (* left-hand side *)
  assert (HL : Zpos m' / 2 ^ (- e') = A / 2 ^ (- (es + ec + n))).
  { rewrite <- Hval.
    replace (- (es + ec + n)) with (- e' + (e' - (es + ec + n))) by lia.
    rewrite Z.pow_add_r by lia.
    rewrite Z.div_mul_cancel_r; trivial.
    - apply Z.pow_nonzero; lia.
    - apply Z.pow_nonzero; lia. }
  rewrite HL.
  (* right-hand side *)
  replace (Zpos ms * 2 ^ (es + 55) * Zpos mc) with (Zpos P * 2 ^ (es + 55)) by lia.
  unfold round53.
  rewrite Z.log2_mul_pow2 by lia. rewrite Hn.
  replace (es + 55 + (52 + n) - 52) with (n + (es + 55)) by lia.
  rewrite rnd_even_scale by lia. fold A.
  replace (55 - ec) with (- (es + ec + n) + (n + (es + 55))) by lia.
  rewrite (Z.pow_add_r 2 (- (es + ec + n))) by lia.
  rewrite Z.div_mul_cancel_r; trivial.
  - apply Z.pow_nonzero; lia.
  - apply Z.pow_nonzero; lia.
Qed.

(** ** The order of floats

    [SFcompare] is the lexicographic comparison of the keys. *)
Lemma SFcompare_key x y :
  match SFcompare x y with
  | Some Lt => not_nan x /\ not_nan y /\ lex_lt (SFkey x) (SFkey y)
  | Some Eq => not_nan x /\ not_nan y /\ lex_le (SFkey x) (SFkey y) /\ lex_le (SFkey y) (SFkey x)
  | Some Gt => not_nan x /\ not_nan y /\ lex_lt (SFkey y) (SFkey x)
  | None => ~ (not_nan x /\ not_nan y)
  end.
Proof.
  unfold not_nan.
  destruct x as [sx|sx| |sx mx ex], y as [sy|sy| |sy my ey];
    try destruct sx; try destruct sy; cbn; try lia;
    change (Pos.compare_cont Eq mx my) with (Pos.compare mx my);
    destruct (Z.compare_spec ex ey); try destruct (Pos.compare_spec mx my);
    cbn; lia.
Qed.

Lemma SFltb_key x y :
  SFltb x y = true <-> not_nan x /\ not_nan y /\ lex_lt (SFkey x) (SFkey y).
Proof.
  unfold SFltb. pose proof (SFcompare_key x y) as H.
  destruct (SFkey x) as [[a1 a2] a3], (SFkey y) as [[b1 b2] b3].
  destruct (SFcompare x y) as [[| |]|]; unfold not_nan, lex_lt, lex_le in *;
    split; intros; try reflexivity; try discriminate; try tauto; try lia; exfalso; lia.
Qed.

Lemma SFleb_key x y :
  SFleb x y = true <-> not_nan x /\ not_nan y /\ lex_le (SFkey x) (SFkey y).
Proof.
  unfold SFleb. pose proof (SFcompare_key x y) as H.
  destruct (SFkey x) as [[a1 a2] a3], (SFkey y) as [[b1 b2] b3].
  destruct (SFcompare x y) as [[| |]|]; unfold not_nan, lex_lt, lex_le in *;
    split; intros; try reflexivity; try discriminate; try tauto; try lia; exfalso; lia.
Qed.

Lemma fgt_key a b :
  fgt a b = true <->
  not_nan (Prim2SF a) /\ not_nan (Prim2SF b) /\ lex_lt (SFkey (Prim2SF b)) (SFkey (Prim2SF a)).
Proof. unfold fgt. rewrite ltb_spec, SFltb_key. tauto. Qed.

Lemma fle_key a b :
  fle a b = true <->
  not_nan (Prim2SF a) /\ not_nan (Prim2SF b) /\ lex_le (SFkey (Prim2SF a)) (SFkey (Prim2SF b)).
Proof. unfold fle. rewrite leb_spec, SFleb_key. tauto. Qed.

Lemma fgt_key_false a b :
  fgt a b = false <->
  ~ (not_nan (Prim2SF a) /\ not_nan (Prim2SF b) /\ lex_lt (SFkey (Prim2SF b)) (SFkey (Prim2SF a))).
Proof. rewrite <- fgt_key. destruct (fgt a b); split; congruence. Qed.

Lemma fle_key_false a b :
  fle a b = false <->
  ~ (not_nan (Prim2SF a) /\ not_nan (Prim2SF b) /\ lex_le (SFkey (Prim2SF a)) (SFkey (Prim2SF b))).
Proof. rewrite <- fle_key. destruct (fle a b); split; congruence. Qed.

(** Decide a goal about [fgt] and [fle] from hypotheses about them by
    arithmetic on the keys. *)
Ltac float_order :=
  rewrite ?fgt_key, ?fle_key, ?fgt_key_false, ?fle_key_false in *;
  unfold not_nan, lex_lt, lex_le in *;
  repeat match goal with
         | |- context [SFkey (Prim2SF ?x)] =>
             let a := fresh "k" in let b := fresh "k" in let c := fresh "k" in
             destruct (SFkey (Prim2SF x)) as [[a b] c]
         | H : context [SFkey (Prim2SF ?x)] |- _ =>
             let a := fresh "k" in let b := fresh "k" in let c := fresh "k" in
             destruct (SFkey (Prim2SF x)) as [[a b] c]
         end;
  cbn [fst snd] in *; lia.

(** The facts about the order that the proofs below name. *)
Lemma fle_trans x y z : fle x y = true -> fle y z = true -> fle x z = true.
Proof. intros. float_order. Qed.

Lemma fgt_fle_trans x y z : fgt y x = true -> fle y z = true -> fgt z x = true.
Proof. intros. float_order. Qed.

Lemma fgt_fle_weaken x y z : fgt y x = true -> fle y z = true -> fle x z = true.
Proof. intros. float_order. Qed.

Lemma fle_total x y :
  fle x x = true -> fle y y = true -> fgt x y = false -> fle x y = true.
Proof. intros. float_order. Qed.

Lemma fgt_not_fle x y : fgt x y = true -> fle x y = false.
Proof. intros. float_order. Qed.

(** ** Floats in (0.2, 1] *)
Lemma SF_one_fifth : Prim2SF 0.2 = S754_finite false 7205759403792794 (-55).
Proof. vm_compute. reflexivity. Qed.

Lemma SF_one : Prim2SF 1 = S754_finite false 4503599627370496 (-52).
Proof. vm_compute. reflexivity. Qed.

(** A float in (0.2, 1] is a positive normal number with exponent field
    between -55 and -52. *)
Lemma unit_form s :
  fgt s 0.2 = true -> fle s 1 = true ->
  exists m e, Prim2SF s = S754_finite false m e /\
              Zpos (digits2_pos m) = 53 /\ -55 <= e <= -52.
Proof.
  rewrite fgt_key, fle_key, SF_one_fifth, SF_one.
  pose proof (Prim2SF_valid s) as Hv.
  destruct (Prim2SF s) as [sx|sx| |sx m e]; try destruct sx;
    unfold not_nan, lex_lt, lex_le; cbn [SFkey fst snd]; intros H1 H2; try lia.
  exists m, e. split; [reflexivity|].
  assert (He : -55 <= e <= -52) by lia.
  split; [|exact He].
  cbn [valid_binary] in Hv. unfold bounded, canonical_mantissa, fexp, SpecFloat.emin, emax, prec in Hv.
  apply andb_true_iff in Hv. destruct Hv as [Hc _].
  apply Z.eqb_eq in Hc. lia.
Qed.

(** On such floats [<=] is the order of the values in units of [2^-55]. *)
Lemma fle_scaled s t ms es mt et :
  Prim2SF s = S754_finite false ms es -> Prim2SF t = S754_finite false mt et ->
  Zpos (digits2_pos ms) = 53 -> Zpos (digits2_pos mt) = 53 ->
  -55 <= es <= -52 -> -55 <= et <= -52 ->
  fle s t = true -> Zpos ms * 2 ^ (es + 55) <= Zpos mt * 2 ^ (et + 55).
Proof.
  intros Es Et Hds Hdt Hes Het. rewrite fle_key, Es, Et.
  unfold not_nan, lex_le; cbn [SFkey fst snd]. intros (_ & _ & H).
  assert (Hbs := digits2_bounds ms). rewrite Hds in Hbs.
  assert (Hbt := digits2_bounds mt). rewrite Hdt in Hbt.
  change (2 ^ (53 - 1)) with 4503599627370496 in *.
  change (2 ^ 53) with 9007199254740992 in *.
  assert (es = -55 \/ es = -54 \/ es = -53 \/ es = -52) as [->|[->|[->| ->]]] by lia;
  assert (et = -55 \/ et = -54 \/ et = -53 \/ et = -52) as [->|[->|[->| ->]]] by lia;
  cbn; lia.
Qed.

(** Multiplying by a positive normal constant [c] and truncating is monotone
    on (0.2, 1]; in particular [int] does not raise there. *)
Lemma int_mul_mono c mc ec :
  Prim2SF c = S754_finite false mc ec -> Zpos (digits2_pos mc) = 53 ->
  -60 <= ec <= -2 ->
  forall s t, fgt s 0.2 = true -> fle s t = true -> fle t 1 = true ->
  exists a b, int_of_float (s * c) = Some a /\ int_of_float (t * c) = Some b /\
              0 <= a <= b.
Proof.
  intros Ec Hdc Hec s t Hs Hst Ht.
  assert (Hs1 : fle s 1 = true) by (eapply fle_trans; eassumption).
  assert (Ht2 : fgt t 0.2 = true) by (eapply fgt_fle_trans; eassumption).
  destruct (unit_form s Hs Hs1) as (ms & es & Es & Hds & Hes).
  destruct (unit_form t Ht2 Ht) as (mt & et & Et & Hdt & Het).
  pose proof (fle_scaled s t _ _ _ _ Es Et Hds Hdt Hes Het Hst) as Hle.
  destruct (SFmul_normal ms es mc ec Hds Hdc Hes Hec) as (ma & ea & Ea & Ha).
  destruct (SFmul_normal mt et mc ec Hdt Hdc Het Hec) as (mb & eb & Eb & Hb).
  unfold int_of_float. rewrite !mul_spec, Es, Et, Ec, Ea, Eb.
  cbn [int_of_SF cond_Zopp]. rewrite Ha, Hb.
  eexists _, _. split; [reflexivity|]. split; [reflexivity|].
  assert (Hbs := digits2_bounds ms). rewrite Hds in Hbs.
  assert (Hbc := digits2_bounds mc). rewrite Hdc in Hbc.
  change (2 ^ (53 - 1)) with 4503599627370496 in *.
  change (2 ^ 53) with 9007199254740992 in *.
  assert (Hps : 1 <= 2 ^ (es + 55)) by (assert (Hp := pow2_pos (es + 55) ltac:(lia)); lia).
  assert (HX : 2 ^ 53 <= Zpos ms * 2 ^ (es + 55) * Zpos mc).
  { change (2 ^ 53) with (4503599627370496 * 1 * 2). nia. }
  assert (HXY : Zpos ms * 2 ^ (es + 55) * Zpos mc <= Zpos mt * 2 ^ (et + 55) * Zpos mc).
  { apply Z.mul_le_mono_nonneg_r; lia. }
  assert (Hp := pow2_pos (55 - ec) ltac:(lia)).
  split.
  - apply Z.div_pos; [|lia]. apply round53_nonneg. exact HX.
  - apply Z.div_le_mono; [lia|]. apply round53_mono. lia.
Qed.

(** ** Truncation *)
Lemma Qfloor_scale (m : positive) (e : Z) :
  Qfloor (inject_Z (Zpos m) * Qpower 2 e) = Z.shiftl (Zpos m) e.
Proof.
  destruct (Z.le_gt_cases 0 e) as [He|He].
  - rewrite Z.shiftl_mul_pow2 by lia.
    rewrite <- (Qfloor_Z (Zpos m * 2 ^ e)).
    apply Qfloor_comp.
    rewrite inject_Z_mult. apply Qmult_comp; [reflexivity|].
    symmetry. apply (Zpower_Qpower 2 e He).
  - rewrite Z.shiftl_div_pow2 by lia.
    destruct e as [|p|p]; try lia.
    change (- Z.neg p) with (Zpos p).
    assert (Hp : 0 < 2 ^ Zpos p) by (apply Z.pow_pos_nonneg; lia).
    destruct (2 ^ Zpos p) as [|d|d] eqn:E; try lia.
    transitivity (Qfloor (Zpos m # d)); [|reflexivity].
    apply Qfloor_comp.
    change (Z.neg p) with (- Zpos p). rewrite Qpower_opp.
    rewrite <- (Zpower_Qpower 2 (Zpos p)) by lia. rewrite E.
    unfold Qeq, Qmult, Qinv, inject_Z; cbn. lia.
Qed.

(** On a float that is not negative, [int] returns the floor of the number
    the float denotes. *)
Lemma int_of_float_floor x k :
  fle 0 x = true -> int_of_float x = Some k -> floor_is x k.
Proof.
  unfold int_of_float, floor_is, float_value. rewrite fle_key.
  change (Prim2SF 0) with (S754_zero false).
  destruct (Prim2SF x) as [sx|sx| |sx m e]; try destruct sx;
    unfold not_nan, lex_le; cbn [SFkey fst snd int_of_SF SF2Q cond_Zopp];
    intros H E; try discriminate; try lia.
  - injection E as <-. now exists 0%Q.
  - injection E as <-. now exists 0%Q.
  - injection E as <-. eexists. split; [reflexivity|]. apply Qfloor_scale.
Qed.

(** The product of a float in (0.2, 1] by such a constant is not negative. *)
Lemma mul_nonneg c mc ec :
  Prim2SF c = S754_finite false mc ec -> Zpos (digits2_pos mc) = 53 ->
  -60 <= ec <= -2 ->
  forall s, fgt s 0.2 = true -> fle s 1 = true -> fle 0 (s * c) = true.
Proof.
  intros Ec Hdc Hec s Hs Hs1.
  destruct (unit_form s Hs Hs1) as (ms & es & Es & Hds & Hes).
  destruct (SFmul_normal ms es mc ec Hds Hdc Hes Hec) as (ma & ea & Ea & _).
  rewrite fle_key, mul_spec, Es, Ec, Ea.
  change (Prim2SF 0) with (S754_zero false).
  unfold not_nan, lex_le; cbn [SFkey fst snd]. lia.
Qed.

(** ** Results that are not a NaN *)

Lemma shr_fexp_nonneg M e :
  0 <= M -> 0 <= shr_m (fst (shr_fexp prec emax M e loc_Exact)).
Proof.
  intros HM. unfold shr_fexp, shr.
  destruct (fexp prec emax (Zdigits2 M + e) - e) as [|p|p]; cbn [fst].
  - cbn. exact HM.
  - pose proof (shr_inv_iter M p 0 _ ltac:(lia) (shr_inv_init M HM)) as (H & _).
    exact H.
  - cbn. exact HM.
Qed.

Lemma round_nearest_even_nonneg m l : 0 <= m -> 0 <= round_nearest_even m l.
Proof.
  intros Hm. destruct l as [|[]]; cbn [round_nearest_even];
    try destruct (Z.even m); lia.
Qed.

Lemma binary_round_aux_not_nan sx M e :
  0 <= M -> binary_round_aux prec emax sx M e loc_Exact <> S754_nan.
Proof.
  intros HM. unfold binary_round_aux.
  pose proof (shr_fexp_nonneg M e HM) as H1.
  destruct (shr_fexp prec emax M e loc_Exact) as [mrs' e']. cbn [fst] in H1.
  pose proof (shr_fexp_nonneg _ e'
                (round_nearest_even_nonneg _ (loc_of_shr_record mrs') H1)) as H2.
  destruct (shr_fexp prec emax _ e' loc_Exact) as [mrs'' e'']. cbn [fst] in H2.
  destruct (shr_m mrs'') as [|m|m]; try lia; try discriminate.
  destruct (e'' <=? emax - prec); discriminate.
Qed.

Lemma binary_normalize_not_nan m e szero :
  binary_normalize prec emax m e szero <> S754_nan.
Proof.
  destruct m as [|p|p]; cbn [binary_normalize]; [discriminate| |];
    unfold binary_round;
    destruct (shl_align p e _) as [mz ez];
    apply binary_round_aux_not_nan; lia.
Qed.

(** [1 - d] is a NaN only when [d] is. *)
Lemma one_minus_not_nan d :
  fle d d = true -> fle (1 - d) (1 - d) = true.
Proof.
  rewrite !fle_key, sub_spec. change (Prim2SF 1) with (S754_finite false 4503599627370496 (-52)).
  intros (Hd & _ & _).
  assert (N : not_nan (SF64sub (S754_finite false 4503599627370496 (-52)) (Prim2SF d))).
  { unfold SF64sub, SFsub.
    destruct (Prim2SF d) as [s|s| |s m e]; unfold not_nan in *; cbn [SFkey fst] in *;
      try destruct s; cbn [negb SFkey fst]; try lia.
    - pose proof (binary_normalize_not_nan
        (cond_Zopp false (Z.pos (fst (shl_align 4503599627370496 (-52) (Z.min (-52) e)))) -
         cond_Zopp true (Z.pos (fst (shl_align m e (Z.min (-52) e)))))
        (Z.min (-52) e) false) as H.
      destruct (binary_normalize _ _ _ _ _) as [?|?| |? ? ?]; try congruence;
        try destruct s; cbn; lia.
    - pose proof (binary_normalize_not_nan
        (cond_Zopp false (Z.pos (fst (shl_align 4503599627370496 (-52) (Z.min (-52) e)))) -
         cond_Zopp false (Z.pos (fst (shl_align m e (Z.min (-52) e)))))
        (Z.min (-52) e) false) as H.
      destruct (binary_normalize _ _ _ _ _) as [?|?| |? ? ?]; try congruence;
        try destruct s; cbn; lia. }
  split; [exact N|]. split; [exact N|].
  unfold lex_le. destruct (SFkey _) as [[a b] c]. lia.
Qed.

(** A number that is not a NaN is at most [max(0, x)]. *)
Lemma le_max0 x : fle x x = true -> fle x (max0 x) = true.
Proof.
  intros Hx. unfold max0. destruct (fgt x 0) eqn:E; [exact Hx|].
  apply fle_total; trivial.
Qed.

(** * Strings *)

Lemma prefix_app kw s :
  prefix kw s = true <-> exists post, s = (kw ++ post)%string.
Proof.
  revert s. induction kw as [|c kw IH]; intros s.
  - split; [intros _; now exists s | now destruct s].
  - destruct s as [|d s]; cbn.
    + split; [discriminate | intros [post H]; discriminate].
    + destruct (Ascii.ascii_dec c d) as [->|Hne].
      * rewrite IH. split; intros [post H]; exists post; congruence.
      * split; [discriminate | intros [post H]; congruence].
Qed.

Lemma contains_app kw s :
  contains kw s = true <-> exists pre post, s = (pre ++ kw ++ post)%string.
Proof.
  induction s as [|c s IH]; cbn [contains]; rewrite orb_true_iff, prefix_app.
  - split.
    + intros [[post H]|H]; [|discriminate]. now exists EmptyString, post.
    + intros (pre & post & H). left. destruct pre; cbn in H; [now exists post|discriminate].
  - rewrite IH. split.
    + intros [[post H]|(pre & post & H)].
      * now exists EmptyString, post.
      * exists (String c pre), post. cbn. now rewrite H.
    + intros (pre & post & H). destruct pre as [|d pre]; cbn in H.
      * left. now exists post.
      * right. exists pre, post. congruence.
Qed.

Lemma lower_app a b : lower (a ++ b) = (lower a ++ lower b)%string.
Proof. induction a as [|c a IH]; cbn; [reflexivity | now rewrite IH]. Qed.

Lemma lower_app_inv s : forall a b,
  lower s = (a ++ b)%string ->
  exists a' b', s = (a' ++ b')%string /\ lower a' = a /\ lower b' = b.
Proof.
  induction s as [|c s IH]; intros a b H; cbn in H.
  - destruct a; [|discriminate]. cbn in H. subst b.
    now exists EmptyString, EmptyString.
  - destruct a as [|d a]; cbn in H.
    + subst b. exists EmptyString, (String c s). now cbn.
    + injection H as Hc Hs. destruct (IH _ _ Hs) as (a' & b' & -> & Ha & Hb).
      exists (String c a'), b'. cbn. now rewrite Hc, Ha, Hb.
Qed.

(** [kw in text.lower()] finds exactly the occurrences of [kw] up to case,
    for a keyword that is already in lower case. *)
Lemma contains_lower kw text :
  lower kw = kw ->
  contains kw (lower text) = true <-> ci_substring kw text.
Proof.
  intros Hkw. rewrite contains_app. unfold ci_substring. rewrite Hkw. split.
  - intros (pre & post & H).
    destruct (lower_app_inv _ _ _ H) as (pre' & rest & -> & Hpre & Hrest).
    destruct (lower_app_inv _ _ _ Hrest) as (mid & post' & -> & Hmid & Hpost).
    now exists pre', mid, post'.
  - intros (pre & mid & post & -> & Hmid).
    exists (lower pre), (lower post). now rewrite !lower_app, Hmid.
Qed.

(** * Letter case *)

(** The characters of class [a-z]. *)
Lemma lower_az_letters k :
  is_lower_az k = true ->
  In k (list_ascii_of_string "abcdefghijklmnopqrstuvwxyz").
Proof.
  destruct k as [[] [] [] [] [] [] [] []]; intros H;
    try discriminate H; cbn; tauto.
Qed.

(** [str.lower] sends a character to a given letter of a..z exactly when
    the character is that letter in one of its two cases. *)
Lemma lower_char_letter c k :
  is_lower_az k = true ->
  Ascii.eqb (lower_char c) k = same_up_to_case c k.
Proof.
  intros Hk. apply lower_az_letters in Hk. cbn in Hk.
  repeat (destruct Hk as [<-|Hk];
          [destruct c as [[] [] [] [] [] [] [] []]; reflexivity|]).
  destruct Hk.
Qed.

Lemma lower_equal_ignoring_case kw : forall mid,
  forallb is_lower_az (list_ascii_of_string kw) = true ->
  lower mid = kw <-> equal_ignoring_case mid kw = true.
Proof.
  induction kw as [|k kw IH]; intros mid Hkw.
  - destruct mid; cbn; split; congruence.
  - cbn [list_ascii_of_string forallb] in Hkw.
    apply andb_true_iff in Hkw. destruct Hkw as [Hk Hkw].
    destruct mid as [|c mid]; cbn [lower equal_ignoring_case];
      [split; discriminate|].
    rewrite andb_true_iff, <- (lower_char_letter c k Hk), <- (IH mid Hkw).
    rewrite Ascii.eqb_eq. split.
    + intros H. injection H as -> ->. now split.
    + intros [-> ->]. reflexivity.
Qed.

(** A string of letters a..z is its own lower-case form. *)
Lemma lower_letters kw :
  forallb is_lower_az (list_ascii_of_string kw) = true -> lower kw = kw.
Proof.
  induction kw as [|k kw IH]; [reflexivity|].
  cbn [list_ascii_of_string forallb lower]. intros H.
  apply andb_true_iff in H. destruct H as [Hk Hkw]. rewrite (IH Hkw).
  f_equal. apply lower_az_letters in Hk. cbn in Hk.
  repeat (destruct Hk as [<-|Hk]; [reflexivity|]). destruct Hk.
Qed.

(** [kw in text.lower()], for a keyword of letters a..z, finds exactly the
    case-insensitive occurrences of [kw]. *)
Lemma contains_ignoring_case kw text :
  forallb is_lower_az (list_ascii_of_string kw) = true ->
  contains kw (lower text) = true <-> occurs_ignoring_case kw text.
Proof.
  intros Hkw. rewrite (contains_lower kw text (lower_letters kw Hkw)).
  unfold ci_substring, occurs_ignoring_case.
  rewrite (lower_letters kw Hkw).
  split; intros (pre & mid & post & Ht & Hm); exists pre, mid, post;
    (split; [exact Ht|]); now apply (lower_equal_ignoring_case kw mid Hkw).
Qed.

(** C7: the document classifier of the handler answers true exactly when one
    of the seven keywords license, driver, id, identification, state, dmv,
    department occurs somewhere in the text as a case-insensitive substring,
    with no condition on what surrounds the occurrence; on the empty text it
    answers false. *)
Theorem is_license_text_iff :
  (forall text,
     is_license_text text = true <->
     (occurs_ignoring_case "license" text \/
      occurs_ignoring_case "driver" text \/
      occurs_ignoring_case "id" text \/
      occurs_ignoring_case "identification" text \/
      occurs_ignoring_case "state" text \/
      occurs_ignoring_case "dmv" text \/
      occurs_ignoring_case "department" text))
  /\ is_license_text "" = false.
Proof.
  split; [|reflexivity].
  intros text. unfold is_license_text, ocr_keywords. cbn [existsb].
  rewrite !orb_true_iff, !contains_ignoring_case by reflexivity.
  intuition discriminate.
Qed.

(** [str.lower] neither makes nor removes a dot. *)
Lemma lower_char_dot c : Ascii.eqb "." (lower_char c) = Ascii.eqb "." c.
Proof. destruct c as [[] [] [] [] [] [] [] []]; reflexivity. Qed.

Lemma prefix_dot c s : prefix "." (String c s) = Ascii.eqb "." c.
Proof.
  cbn [prefix]. destruct (ascii_dec "." c) as [E|E].
  - rewrite <- E. rewrite Ascii.eqb_refl. now destruct s.
  - symmetry. apply Ascii.eqb_neq. exact E.
Qed.

Lemma contains_dot_lower s : contains "." (lower s) = contains "." s.
Proof.
  induction s as [|c s IH]; [reflexivity|].
  cbn [lower]. cbn [contains]. fold (contains "." (lower s)).
  fold (contains "." s). rewrite IH, !prefix_dot, lower_char_dot. reflexivity.
Qed.

(** * Status mapper *)

Lemma status_rank_band score : status_rank (get_safety_status score) = band score.
Proof.
  unfold get_safety_status, band, breakpoints. cbn [filter].
  repeat match goal with |- context [?a <=? ?b] => destruct (Z.leb_spec a b) end;
    cbn; lia.
Qed.

Lemma confidence_rank_band score :
  confidence_rank (get_confidence_level score) = band score.
Proof.
  unfold get_confidence_level, band, breakpoints. cbn [filter].
  repeat match goal with |- context [?a <=? ?b] => destruct (Z.leb_spec a b) end;
    cbn; lia.
Qed.

Lemma band_mono a b : a <= b -> band a <= band b.
Proof.
  intros H. unfold band, breakpoints. cbn [filter].
  repeat match goal with |- context [?x <=? ?y] => destruct (Z.leb_spec x y) end;
    cbn; lia.
Qed.

(** C2: both mappers are total functions of the integer score, they are
    monotone non-decreasing for the order rejected < unsafe < risky <
    moderate < safe < very_safe (and the parallel order of the confidence
    labels), they cut the integers at the same breakpoints 10, 25, 40, 60 and
    80, so that a score falls in exactly one of the six bands, and each band
    carries the named pair of labels. *)
Theorem status_confidence_bands :
  (forall a b, a <= b ->
     status_rank (get_safety_status a) <= status_rank (get_safety_status b) /\
     confidence_rank (get_confidence_level a)
       <= confidence_rank (get_confidence_level b))
  /\ (forall score,
        status_rank (get_safety_status score) = band score /\
        confidence_rank (get_confidence_level score) = band score)
  /\ (forall score,
        (80 <= score ->
           get_safety_status score = very_safe /\
           get_confidence_level score = very_high) /\
        (60 <= score <= 79 ->
           get_safety_status score = safe /\
           get_confidence_level score = high) /\
        (40 <= score <= 59 ->
           get_safety_status score = moderate /\
           get_confidence_level score = medium) /\
        (25 <= score <= 39 ->
           get_safety_status score = risky /\
           get_confidence_level score = low) /\
        (10 <= score <= 24 ->
           get_safety_status score = unsafe /\
           get_confidence_level score = very_low) /\
        (score <= 9 ->
           get_safety_status score = rejected /\
           get_confidence_level score = minimal))
  /\ (forall score, 0 <= score <= 100 ->
        (80 <= score <= 100 /\ band score = 5) \/
        (60 <= score <= 79 /\ band score = 4) \/
        (40 <= score <= 59 /\ band score = 3) \/
        (25 <= score <= 39 /\ band score = 2) \/
        (10 <= score <= 24 /\ band score = 1) \/
        (0 <= score <= 9 /\ band score = 0)).
Proof.
  split; [|split; [|split]].
  - intros a b H. rewrite !status_rank_band, !confidence_rank_band.
    split; now apply band_mono.
  - intros score. split; [apply status_rank_band | apply confidence_rank_band].
  - intros score. unfold get_safety_status, get_confidence_level.
    repeat match goal with |- context [?a <=? ?b] => destruct (Z.leb_spec a b) end;
      repeat split; intros; try reflexivity; lia.
  - intros score H. unfold band, breakpoints. cbn [filter].
    repeat match goal with |- context [?a <=? ?b] => destruct (Z.leb_spec a b) end;
      cbn; lia.
Qed.

(** * The scorer as a composition of its stages *)

Lemma fold_keywords_shift text_lower l : forall score,
  fold_left (fun score '(keyword, points) =>
               if contains keyword text_lower then score + points else score)
            l score
  = score + fold_left (fun score '(keyword, points) =>
               if contains keyword text_lower then score + points else score)
            l 0.
Proof.
  induction l as [|[kw pts] l IH]; intros score; cbn [fold_left]; [lia|].
  rewrite IH. rewrite (IH (if contains kw text_lower then 0 + pts else 0)).
  destruct (contains kw text_lower); lia.
Qed.

Lemma fold_fields_shift text_lower l : forall score,
  fold_left (fun score field =>
               if contains field text_lower then score + 1 else score)
            l score
  = score + fold_left (fun score field =>
               if contains field text_lower then score + 1 else score)
            l 0.
Proof.
  induction l as [|f l IH]; intros score; cbn [fold_left]; [lia|].
  rewrite IH. rewrite (IH (if contains f text_lower then 0 + 1 else 0)).
  destruct (contains f text_lower); lia.
Qed.

Lemma calculate_safety_score_stages text is_license s :
  calculate_safety_score text is_license s =
  base <- face_stage is_license s ;;
  Some (clamp (base + text_points text)).
Proof.
  unfold calculate_safety_score, face_stage, text_points, clamp,
    keyword_stage, quality_stage, field_stage.
  assert (K : forall b,
    Some (Z.max (Z.min
      (fold_left (fun score field =>
                    if contains field (lower text) then score + 1 else score)
         license_fields
         (let score := fold_left (fun score '(keyword, points) =>
                          if contains keyword (lower text) then score + points else score)
                        license_keywords b in
          let score := if re_search re_date_strict text then score + 2
                       else if re_search re_date_loose text then score + 1 else score in
          let score := if re_search re_licno_strict text then score + 2
                       else if re_search re_licno_loose text then score + 1 else score in
          let score := if re_search re_state_abbrev text then score + 1 else score in
          let score := if 20 <? len (strip text) then score + 1 else score in
          if re_search re_name text then score + 1
          else if re_search re_capitalized text then score + 1 else score)) 100) 0)
    = Some (Z.max (Z.min (b + (keyword_stage (lower text) + quality_stage text
                               + field_stage (lower text))) 100) 0)).
  { intros b. cbv zeta. rewrite fold_fields_shift, (fold_keywords_shift _ _ b).
    unfold keyword_stage, quality_stage, field_stage.
    do 2 f_equal. f_equal.
    repeat match goal with |- context [if ?c then _ else _] =>
      match c with
      | re_search _ _ => destruct c
      | _ <? _ => destruct c
      end end; lia. }
  cbv zeta.
  destruct (fgt s 0.4); [|destruct (fgt s 0.2); [|destruct is_license]];
    cbn [bind].
  - destruct (int_of_float (s * 20)) as [k|]; cbn [bind]; [|reflexivity].
    rewrite <- K. reflexivity.
  - destruct (int_of_float (s * 15)) as [k|]; cbn [bind]; [|reflexivity].
    rewrite <- K. reflexivity.
  - rewrite <- K. reflexivity.
  - rewrite <- K. reflexivity.
Qed.

(** * Stage 1 on a similarity in [0,1] *)

Lemma SF_twenty : Prim2SF 20 = S754_finite false 5629499534213120 (-48).
Proof. vm_compute. reflexivity. Qed.

Lemma SF_fifteen : Prim2SF 15 = S754_finite false 8444249301319680 (-49).
Proof. vm_compute. reflexivity. Qed.

Lemma SF_two_fifths : Prim2SF 0.4 = S754_finite false 7205759403792794 (-54).
Proof. vm_compute. reflexivity. Qed.

Lemma SF_after_one_fifth :
  Prim2SF after_one_fifth = S754_finite false 7205759403792795 (-55).
Proof. vm_compute. reflexivity. Qed.

Lemma above_two_fifths s : fgt s 0.4 = true -> fgt s 0.2 = true /\ fle 0.4 s = true.
Proof.
  rewrite !fgt_key, fle_key, SF_two_fifths, SF_one_fifth.
  unfold not_nan, lex_lt, lex_le. cbn [SFkey fst snd].
  destruct (SFkey (Prim2SF s)) as [[k1 k2] k3]. cbn [fst snd]. lia.
Qed.

Lemma above_one_fifth s :
  fgt s 0.2 = true -> fgt after_one_fifth 0.2 = true /\ fle after_one_fifth s = true.
Proof.
  rewrite !fgt_key, fle_key, SF_after_one_fifth, SF_one_fifth.
  unfold not_nan, lex_lt, lex_le. cbn [SFkey fst snd].
  destruct (SFkey (Prim2SF s)) as [[k1 k2] k3]. cbn [fst snd]. lia.
Qed.

Lemma two_fifths_in_unit : fgt 0.4 0.2 = true /\ fle 0.4 1 = true.
Proof. split; vm_compute; reflexivity. Qed.

(** Bonus of the upper tier: defined, between 8 and 20, monotone. *)
Lemma bonus_twenty s t :
  fgt s 0.4 = true -> fle s t = true -> fle t 1 = true ->
  exists a b, int_of_float (s * 20) = Some a /\ int_of_float (t * 20) = Some b /\
              8 <= a /\ a <= b /\ b <= 20.
Proof.
  intros Hs Hst Ht.
  destruct (above_two_fifths s Hs) as [Hs2 Hs4].
  assert (H20 := int_mul_mono 20 _ _ SF_twenty eq_refl ltac:(lia)).
  destruct (H20 s t Hs2 Hst Ht) as (a & b & Ea & Eb & Hab).
  destruct (H20 0.4%float s (proj1 two_fifths_in_unit) Hs4
              (fle_trans _ _ _ Hst Ht)) as (a0 & a' & Ea0 & Ea' & Ha0).
  assert (Ht2 : fgt t 0.2 = true) by exact (fgt_fle_trans _ s _ Hs2 Hst).
  assert (Ht1 : fle 1 1 = true) by (vm_compute; reflexivity).
  destruct (H20 t 1%float Ht2 Ht Ht1) as (b' & b1 & Eb' & Eb1 & Hb1).
  assert (E0 : int_of_float (0.4 * 20) = Some 8) by (vm_compute; reflexivity).
  assert (E1 : int_of_float (1 * 20) = Some 20) by (vm_compute; reflexivity).
  rewrite Ea in Ea'; rewrite Eb in Eb'; rewrite E0 in Ea0; rewrite E1 in Eb1.
  injection Ea' as <-; injection Eb' as <-; injection Ea0 as <-; injection Eb1 as <-.
  exists a, b. repeat split; trivial; lia.
Qed.

(** Bonus of the middle tier: defined, between 3 and 6, monotone. *)
Lemma bonus_fifteen s t :
  fgt s 0.2 = true -> fle s t = true -> fle t 0.4 = true ->
  exists a b, int_of_float (s * 15) = Some a /\ int_of_float (t * 15) = Some b /\
              3 <= a /\ a <= b /\ b <= 6.
Proof.
  intros Hs Hst Ht.
  destruct (above_one_fifth s Hs) as [Hu Hus].
  assert (Ht1 : fle t 1 = true)
    by (eapply fle_trans; [eassumption | apply two_fifths_in_unit]).
  assert (H15 := int_mul_mono 15 _ _ SF_fifteen eq_refl ltac:(lia)).
  destruct (H15 s t Hs Hst Ht1) as (a & b & Ea & Eb & Hab).
  destruct (H15 after_one_fifth s Hu Hus (fle_trans _ _ _ Hst Ht1))
    as (a0 & a' & Ea0 & Ea' & Ha0).
  assert (Ht2 : fgt t 0.2 = true) by exact (fgt_fle_trans _ s _ Hs Hst).
  destruct (H15 t 0.4%float Ht2 Ht (proj2 two_fifths_in_unit))
    as (b' & b1 & Eb' & Eb1 & Hb1).
  assert (E0 : int_of_float (after_one_fifth * 15) = Some 3) by (vm_compute; reflexivity).
  assert (E1 : int_of_float (0.4 * 15) = Some 6) by (vm_compute; reflexivity).
  rewrite Ea in Ea'; rewrite Eb in Eb'; rewrite E0 in Ea0; rewrite E1 in Eb1.
  injection Ea' as <-; injection Eb' as <-; injection Ea0 as <-; injection Eb1 as <-.
  exists a, b. repeat split; trivial; lia.
Qed.

(** The three tiers, in the order the source tests them. *)
Lemma face_stage_cases is_license s :
  in_unit s ->
  (fgt s 0.4 = true /\
   exists k, int_of_float (s * 20) = Some k /\ 8 <= k <= 20 /\
             face_stage is_license s = Some (70 + k))
  \/ (fgt s 0.4 = false /\ fgt s 0.2 = true /\ fle s 0.4 = true /\
      exists k, int_of_float (s * 15) = Some k /\ 3 <= k <= 6 /\
                face_stage is_license s = Some (50 + k))
  \/ (fgt s 0.4 = false /\ fgt s 0.2 = false /\ fle s 0.2 = true /\
      face_stage is_license s = Some (if is_license then 40 else 20)).
Proof.
  intros [H0 H1]. unfold face_stage.
  assert (Hs : fle s s = true) by (clear H1; float_order).
  assert (H4 : fle 0.4 0.4 = true) by (vm_compute; reflexivity).
  assert (H2 : fle 0.2 0.2 = true) by (vm_compute; reflexivity).
  destruct (fgt s 0.4) eqn:E4.
  - left. split; [reflexivity|].
    destruct (bonus_twenty s s E4 Hs H1) as (a & b & Ea & Eb & Hab).
    exists a. rewrite Ea. cbn [bind]. repeat split; trivial; lia.
  - right. pose proof (fle_total s 0.4 Hs H4 E4) as L4.
    destruct (fgt s 0.2) eqn:E2.
    + left. repeat split; trivial.
      destruct (bonus_fifteen s s E2 Hs L4) as (a & b & Ea & Eb & Hab).
      exists a. rewrite Ea. cbn [bind]. repeat split; trivial; lia.
    + right. pose proof (fle_total s 0.2 Hs H2 E2) as L2.
      repeat split; trivial. now destruct is_license.
Qed.

(** * Text stages *)

Lemma fold_keywords_ge text_lower l :
  Forall (fun kp => 0 <= snd kp) l ->
  forall score,
    score <= fold_left (fun score '(keyword, points) =>
                          if contains keyword text_lower then score + points
                          else score) l score.
Proof.
  induction 1 as [|[kw pts] l Hp _ IH]; intros score; cbn [fold_left]; [lia|].
  cbn [snd] in Hp. etransitivity; [|apply IH].
  destruct (contains kw text_lower); lia.
Qed.

Lemma fold_fields_ge text_lower l : forall score,
  score <= fold_left (fun score field =>
                        if contains field text_lower then score + 1 else score)
                     l score.
Proof.
  induction l as [|f l IH]; intros score; cbn [fold_left]; [lia|].
  etransitivity; [|apply IH]. destruct (contains f text_lower); lia.
Qed.

Lemma text_points_nonneg text : 0 <= text_points text.
Proof.
  unfold text_points.
  assert (0 <= keyword_stage (lower text)).
  { apply fold_keywords_ge. unfold license_keywords.
    repeat constructor; cbn; lia. }
  assert (0 <= field_stage (lower text)) by apply fold_fields_ge.
  assert (0 <= quality_stage text).
  { unfold quality_stage.
    repeat match goal with |- context [if ?c then _ else _] => destruct c end; lia. }
  lia.
Qed.

Lemma clamp_range score : 0 <= clamp score <= 100.
Proof. unfold clamp. lia. Qed.

Lemma clamp_mono a b : a <= b -> clamp a <= clamp b.
Proof. unfold clamp. lia. Qed.

Lemma clamp_ge_20 score : 20 <= score -> 20 <= clamp score.
Proof. unfold clamp. lia. Qed.

(** * The claims about the scorer *)

(** C1: for every text, every document flag and every similarity [s] in
    [0,1], the face-match stage contributes by exactly one of three tiers:
    [70 + floor(s * 20)] when [s > 0.4]; [50 + floor(s * 15)] when
    [0.2 < s <= 0.4]; and 40 for a document, 20 otherwise, when [s <= 0.2].
    The product is Python's float product and [floor] is the floor of the
    number that product denotes; the contribution enters the final score
    through the sum with the text stages and the clamp. *)
Theorem face_stage_tiers (text : string) (is_document : bool) (s : float) :
  in_unit s ->
  exists contribution,
    face_stage is_document s = Some contribution /\
    calculate_safety_score text is_document s
      = Some (clamp (contribution + text_points text)) /\
    (fgt s 0.4 = true ->
       exists k, floor_is (s * 20) k /\ contribution = 70 + k) /\
    (fgt s 0.2 = true -> fle s 0.4 = true ->
       exists k, floor_is (s * 15) k /\ contribution = 50 + k) /\
    (fle s 0.2 = true -> contribution = if is_document then 40 else 20) /\
    (fgt s 0.4 = true \/ (fgt s 0.2 = true /\ fle s 0.4 = true)
     \/ fle s 0.2 = true) /\
    ~ (fgt s 0.4 = true /\ fle s 0.4 = true) /\
    ~ (fgt s 0.2 = true /\ fle s 0.2 = true) /\
    ~ (fgt s 0.4 = true /\ fle s 0.2 = true).
Proof.
  intros Hu. pose proof Hu as [H0 H1].
  assert (X4 : ~ (fgt s 0.4 = true /\ fle s 0.4 = true)).
  { intros [A B]. apply fgt_not_fle in A. congruence. }
  assert (X2 : ~ (fgt s 0.2 = true /\ fle s 0.2 = true)).
  { intros [A B]. apply fgt_not_fle in A. congruence. }
  assert (X42 : ~ (fgt s 0.4 = true /\ fle s 0.2 = true)).
  { intros [A B]. apply above_two_fifths in A. tauto. }
  rewrite calculate_safety_score_stages.
  destruct (face_stage_cases is_document s Hu)
    as [(E4 & k & Ek & Hk & Ef)|[(E4 & E2 & L4 & k & Ek & Hk & Ef)
                                |(E4 & E2 & L2 & Ef)]];
    rewrite Ef; cbn [bind]; eexists; (split; [reflexivity|]);
    (split; [reflexivity|]); repeat split; trivial; try tauto; try congruence.
  - intros _. exists k. split; [|reflexivity].
    apply int_of_float_floor; [|exact Ek].
    apply (mul_nonneg 20 _ _ SF_twenty eq_refl); trivial; try lia.
    now apply above_two_fifths.
  - intros _ _. exists k. split; [|reflexivity].
    apply int_of_float_floor; [|exact Ek].
    apply (mul_nonneg 15 _ _ SF_fifteen eq_refl); trivial; lia.
Qed.

(** The floor is that of the product as Python computes it, rounded to the
    nearest float: at the float just below 0.45 the number [s * 20] is below
    9 by [2^-50], the product rounds to 9.0, and the bonus is 9. *)
Remark bonus_of_rounded_product :
  let s := 0x1.cccccccccccccp-2%float in
  int_of_float (s * 20) = Some 9 /\
  floor_is (s * 20) 9 /\
  exists q, float_value s = Some q /\ (q * 20 < 9)%Q /\ Qfloor (q * 20) = 8.
Proof.
  cbv zeta. split; [vm_compute; reflexivity|]. split.
  - eexists. split; [vm_compute; reflexivity|]. reflexivity.
  - eexists. split; [vm_compute; reflexivity|]. split; reflexivity.
Qed.

Lemma face_stage_tiers_witness :
  exists contribution,
    face_stage false 0.55 = Some contribution /\
    calculate_safety_score "" false 0.55
      = Some (clamp (contribution + text_points "")).
Proof.
  assert (Hu : in_unit 0.55) by (split; reflexivity).
  destruct (face_stage_tiers "" false 0.55 Hu) as (c & Hc & Hs & _).
  exists c. split; assumption.
Defined.

(** The contribution of stage 1 does not decrease with the similarity. *)
Lemma face_stage_mono is_license s1 s2 :
  in_unit s1 -> in_unit s2 -> fle s1 s2 = true ->
  exists b1 b2, face_stage is_license s1 = Some b1 /\
                face_stage is_license s2 = Some b2 /\ 20 <= b1 <= b2.
Proof.
  intros Hu1 Hu2 Hle. pose proof Hu2 as [_ H21].
  destruct (face_stage_cases is_license s1 Hu1)
    as [(E4 & k & Ek & Hk & Ef)|[(E4 & E2 & L4 & k & Ek & Hk & Ef)
                                |(E4 & E2 & L2 & Ef)]];
  destruct (face_stage_cases is_license s2 Hu2)
    as [(E4' & k' & Ek' & Hk' & Ef')|[(E4' & E2' & L4' & k' & Ek' & Hk' & Ef')
                                     |(E4' & E2' & L2' & Ef')]];
  rewrite Ef, Ef'; eexists _, _; (split; [reflexivity|]); (split; [reflexivity|]).
  - destruct (bonus_twenty s1 s2 E4 Hle H21) as (a & b & Ea & Eb & Hab).
    rewrite Ea in Ek; rewrite Eb in Ek'.
    injection Ek as <-; injection Ek' as <-. lia.
  - pose proof (fgt_fle_trans _ _ _ E4 Hle). congruence.
  - pose proof (fgt_fle_trans _ _ _ E4 Hle). congruence.
  - lia.
  - destruct (bonus_fifteen s1 s2 E2 Hle L4') as (a & b & Ea & Eb & Hab).
    rewrite Ea in Ek; rewrite Eb in Ek'.
    injection Ek as <-; injection Ek' as <-. lia.
  - pose proof (fgt_fle_trans _ _ _ E2 Hle). congruence.
  - destruct is_license; lia.
  - destruct is_license; lia.
  - destruct is_license; lia.
Qed.

(** C5: for a fixed text and document flag, the score does not decrease
    when the similarity increases within [0,1]; this covers two similarities
    of one tier as well as two on either side of the boundaries 0.2 and
    0.4. *)
Theorem score_monotone_in_similarity
    (text : string) (is_document : bool) (s1 s2 : float) :
  in_unit s1 -> in_unit s2 -> fle s1 s2 = true ->
  exists v1 v2,
    calculate_safety_score text is_document s1 = Some v1 /\
    calculate_safety_score text is_document s2 = Some v2 /\
    v1 <= v2.
Proof.
  intros Hu1 Hu2 Hle.
  destruct (face_stage_mono is_document s1 s2 Hu1 Hu2 Hle)
    as (b1 & b2 & E1 & E2 & Hb).
  rewrite !calculate_safety_score_stages, E1, E2. cbn [bind].
  eexists _, _. split; [reflexivity|]. split; [reflexivity|].
  apply clamp_mono. lia.
Qed.

Lemma score_monotone_in_similarity_witness :
  exists v1 v2,
    calculate_safety_score "" true 0.4 = Some v1 /\
    calculate_safety_score "" true 0x1.999999999999bp-2 = Some v2 /\
    v1 <= v2.
Proof.
  apply (score_monotone_in_similarity "" true 0.4 0x1.999999999999bp-2).
  - split; reflexivity.
  - split; reflexivity.
  - reflexivity.
Defined.

(** C6: for every text, the empty one included, every document flag and
    every similarity in [0,1], 0 and 1 included, the scorer returns an
    integer between 0 and 100. *)
Theorem score_in_range (text : string) (is_document : bool) (s : float) :
  in_unit s ->
  exists v, calculate_safety_score text is_document s = Some v /\
            0 <= v <= 100.
Proof.
  intros Hu. pose proof Hu as [H0 _].
  assert (Hs : fle s s = true) by float_order.
  destruct (face_stage_mono is_document s s Hu Hu Hs) as (b & b' & E & _).
  rewrite calculate_safety_score_stages, E. cbn [bind].
  eexists. split; [reflexivity|]. apply clamp_range.
Qed.

Lemma score_in_range_witness :
  (exists v, calculate_safety_score "" false 0 = Some v /\ 0 <= v <= 100) /\
  (exists v, calculate_safety_score "" true 1 = Some v /\ 0 <= v <= 100).
Proof.
  split.
  - apply (score_in_range "" false 0). split; reflexivity.
  - apply (score_in_range "" true 1). split; reflexivity.
Defined.

(** C10: for every text, every flag and every similarity in [0,1] the
    scorer returns at least 20, the smallest base of stage 1, hence a score
    in [20,100]; on such a score the status is never rejected and the
    confidence never minimal. *)
Theorem score_at_least_20 (text : string) (is_license : bool) (s : float) :
  in_unit s ->
  exists v, calculate_safety_score text is_license s = Some v /\
            20 <= v <= 100 /\
            get_safety_status v <> rejected /\
            get_confidence_level v <> minimal.
Proof.
  intros Hu. pose proof Hu as [H0 _].
  assert (Hs : fle s s = true) by float_order.
  destruct (face_stage_mono is_license s s Hu Hu Hs) as (b & b' & E & _ & Hb).
  rewrite calculate_safety_score_stages, E. cbn [bind].
  pose proof (text_points_nonneg text) as Ht.
  pose proof (clamp_range (b + text_points text)) as Hr.
  pose proof (clamp_ge_20 (b + text_points text) ltac:(lia)) as H20.
  eexists. split; [reflexivity|]. split; [lia|].
  unfold get_safety_status, get_confidence_level.
  repeat match goal with |- context [?x <=? ?y] => destruct (Z.leb_spec x y) end;
    split; try discriminate; lia.
Qed.

Lemma score_at_least_20_witness :
  exists v, calculate_safety_score "" false 0 = Some v /\
            20 <= v <= 100 /\
            get_safety_status v <> rejected /\
            get_confidence_level v <> minimal.
Proof. apply (score_at_least_20 "" false 0). split; reflexivity. Defined.

(** * Scenarios *)

(** C4 (amended): on the empty text, no document and similarity 0.0 the
    pipeline produces the score 20, which the status mapper places in the
    band 10..24: status "unsafe" and confidence "very_low". *)
Theorem scenario_empty_input :
  pipeline "" false 0 = Some (20, "unsafe", "very_low").
Proof. vm_compute. reflexivity. Qed.

(** The labels "rejected" and "minimal" belong to scores below 10, so the
    pipeline does not produce them on that input. *)
Lemma scenario_empty_not_rejected :
  pipeline "" false 0 <> Some (20, "rejected", "minimal").
Proof. vm_compute. discriminate. Qed.

(** C8 (amended): on the text "driver license state dmv department", a
    document, similarity 0.0, the keyword stage finds the five keywords
    driver, license, state, dmv and department and gives 2+2+1+2+1 = 8
    points; the only other point is the one for a stripped length above 20;
    the score is 40 + 8 + 1 = 49. *)
Theorem scenario_keywords_score :
  let text := "driver license state dmv department" in
  map fst (filter (fun kp => contains (fst kp) (lower text)) license_keywords)
    = ["driver"; "license"; "state"; "dmv"; "department"] /\
  keyword_stage (lower text) = 8 /\
  quality_stage text = 1 /\
  field_stage (lower text) = 0 /\
  is_license_text text = true /\
  calculate_safety_score text true 0 = Some 49.
Proof. vm_compute. repeat split; reflexivity. Qed.

(** The keyword stage does not reach 13 points on that text, and the score
    is not 40 + 13 plus the pattern points. *)
Lemma scenario_keywords_not_13 :
  let text := "driver license state dmv department" in
  ~ (keyword_stage (lower text) = 13 /\
     calculate_safety_score text true 0
       = Some (Z.min 100 (40 + 13 + (quality_stage text
                                     + field_stage (lower text))))).
Proof. vm_compute. intros [H _]. discriminate. Qed.

(** * The score breakdown of the handler *)

Lemma zsum_shift l : forall a, fold_left Z.add l a = a + zsum l.
Proof.
  unfold zsum. induction l as [|x l IH]; intros a; cbn [fold_left]; [lia|].
  rewrite IH, (IH (0 + x)). lia.
Qed.

Lemma keyword_stage_sum text_lower :
  keyword_stage text_lower
  = zsum (map (fun kp => if contains (fst kp) text_lower then snd kp else 0)
              license_keywords).
Proof.
  unfold keyword_stage. generalize license_keywords as l.
  induction l as [|[kw pts] l IH]; [reflexivity|].
  cbn [fold_left map fst snd]. rewrite fold_keywords_shift, IH.
  unfold zsum at 2. cbn [fold_left]. rewrite zsum_shift.
  destruct (contains kw text_lower); lia.
Qed.

Lemma field_stage_sum text_lower :
  field_stage text_lower
  = zsum (map (fun field => if contains field text_lower then 1 else 0)
              license_fields).
Proof.
  unfold field_stage. generalize license_fields as l.
  induction l as [|f l IH]; [reflexivity|].
  cbn [fold_left map]. rewrite fold_fields_shift, IH.
  unfold zsum at 2. cbn [fold_left]. rewrite zsum_shift.
  destruct (contains f text_lower); lia.
Qed.

(** Two components of the breakdown are the sub-totals the scorer used. *)
Lemma breakdown_keywords_fields text is_license s b :
  score_breakdown text is_license s = Some b ->
  keyword_matches b = keyword_stage (lower text) /\
  confidence_indicators b = field_stage (lower text).
Proof.
  unfold score_breakdown.
  destruct (int_of_float (s * 15)) as [k|]; cbn [bind]; [|discriminate].
  intros H. injection H as <-. cbn [keyword_matches confidence_indicators].
  rewrite keyword_stage_sum, field_stage_sum. split; reflexivity.
Qed.

(** C9 at the empty text and similarity 0.0: the handler reports the score
    20, which is the base the scorer used, while the breakdown it returns
    next to it carries a base of 55 and sums to 55. *)
Theorem breakdown_diverges_on_empty :
  exists r,
    ocr_result "" 0 = Some r /\
    safety_score r = 20 /\
    face_stage (is_license_text "") 0 = Some 20 /\
    breakdown_of r = Breakdown 55 0 0 0 0 /\
    clamp (breakdown_total (breakdown_of r)) = 55.
Proof. eexists. vm_compute. repeat split; reflexivity. Qed.

(** With a good face match the bonus differs as well: the scorer adds
    [int(0.55 * 20) = 11] to the base 70, the breakdown lists
    [int(0.55 * 15) = 8] next to the base 55. *)
Lemma breakdown_diverges_on_match :
  exists r,
    ocr_result "" 0.55 = Some r /\
    safety_score r = 81 /\
    breakdown_of r = Breakdown 55 8 0 0 0.
Proof. eexists. vm_compute. repeat split; reflexivity. Qed.

(** * Face comparator *)

Lemma max0_cases x : max0 x = 0%float \/ (max0 x = x /\ fgt x 0 = true).
Proof. unfold max0. destruct (fgt x 0) eqn:E; [right|left]; auto. Qed.

Lemma zero_not_nan : fle 0 0 = true.
Proof. reflexivity. Qed.

Lemma max0_not_nan x : fle (max0 x) (max0 x) = true.
Proof.
  destruct (max0_cases x) as [->|[-> H]]; [apply zero_not_nan|]. float_order.
Qed.

Section ComparatorFacts.
Variable Encoding : Type.
Variable face_distance : Encoding -> Encoding -> float.

(** The two nested loops visit the pairs in the order of [list_prod]. *)
Lemma loops_as_pairs (A B : list Encoding) : forall st,
  fold_left
    (fun st a => fold_left (fun st b => compare_pair face_distance a b st) B st)
    A st
  = fold_left (compare_step face_distance) (list_prod A B) st.
Proof.
  induction A as [|a A IH]; intros st; [reflexivity|].
  cbn [fold_left list_prod]. rewrite fold_left_app, IH. f_equal.
  clear IH. revert st. induction B as [|b B IHB]; intros st; [reflexivity|].
  cbn [fold_left map]. now rewrite IHB.
Qed.

(** One pass over a list of pairs: every pair is logged, and the running
    best is the greatest similarity met within the tolerance, if it beats
    the initial value. *)
Lemma fold_step_spec (L : list (Encoding * Encoding)) : forall best log,
  fle best best = true ->
  let M := map (pair_similarity face_distance)
               (filter (matching face_distance) L) in
  let r := fold_left (compare_step face_distance) L (best, log) in
  snd r = (log ++ L)%list /\
  fle (fst r) (fst r) = true /\
  fle best (fst r) = true /\
  (fst r = best \/ In (fst r) M) /\
  (forall x, In x M -> fle x (fst r) = true).
Proof.
  induction L as [|p L IH]; intros best log Hb; cbn zeta.
  - cbn. rewrite app_nil_r. repeat split; auto; intros x [].
  - cbn [fold_left filter].
    pose proof (max0_not_nan (1 - face_distance (fst p) (snd p))) as Hsim.
    fold (pair_similarity face_distance p) in Hsim.
    remember (pair_similarity face_distance p) as sim eqn:Esim.
    assert (Hstep : compare_step face_distance (best, log) p
                    = (if matching face_distance p
                       then if fgt sim best then sim else best
                       else best, (log ++ [p])%list)).
    { unfold compare_step, compare_pair. rewrite <- (surjective_pairing p).
      fold (matching face_distance p). fold (pair_similarity face_distance p).
      rewrite <- Esim. destruct (matching face_distance p); [|reflexivity].
      destruct (fgt sim best); reflexivity. }
    rewrite Hstep. clear Hstep.
    destruct (matching face_distance p) eqn:Em;
      [destruct (fgt sim best) eqn:Eg|].
    + destruct (IH sim (log ++ [p])%list Hsim) as (Hl & Hr & Hle & Hin & Hall).
      cbn zeta in *. rewrite <- app_assoc in Hl. cbn [map]. rewrite <- Esim.
      split; [exact Hl|]. split; [exact Hr|].
      split; [exact (fgt_fle_weaken _ _ _ Eg Hle)|]. split.
      * right. destruct Hin as [Hin|Hin];
          [left; symmetry; exact Hin | right; exact Hin].
      * intros x [Hx|Hx]; [subst x; exact Hle | exact (Hall x Hx)].
    + destruct (IH best (log ++ [p])%list Hb) as (Hl & Hr & Hle & Hin & Hall).
      cbn zeta in *. rewrite <- app_assoc in Hl. cbn [map]. rewrite <- Esim.
      split; [exact Hl|]. split; [exact Hr|].
      split; [exact Hle|]. split.
      * destruct Hin as [Hin|Hin]; [left; exact Hin | right; right; exact Hin].
      * intros x [Hx|Hx]; [subst x | exact (Hall x Hx)].
        exact (fle_trans _ _ _ (fle_total sim best Hsim Hb Eg) Hle).
    + destruct (IH best (log ++ [p])%list Hb) as (Hl & Hr & Hle & Hin & Hall).
      cbn zeta in *. rewrite <- app_assoc in Hl.
      repeat split; assumption.
Qed.

(** The value returned, in terms of the distances alone. *)
Lemma compare_faces_value (setA setB : list Encoding) :
  let r := compare_faces face_distance setA setB in
  fle 0 r = true /\
  (forall a b, In a setA -> In b setB ->
     fle (face_distance a b) 0.6 = true ->
     fle (1 - face_distance a b) r = true) /\
  (r = 0%float \/
   exists a b, In a setA /\ In b setB /\
     fle (face_distance a b) 0.6 = true /\
     r = (1 - face_distance a b)%float).
Proof.
  cbn zeta. unfold compare_faces.
  destruct setA as [|a0 A].
  { cbn. split; [reflexivity|]. split; [intros ? ? []|now left]. }
  destruct setB as [|b0 B].
  { cbn. split; [reflexivity|]. split; [intros ? ? ? []|now left]. }
  unfold compare_faces_log. rewrite loops_as_pairs.
  pose proof (fold_step_spec
                (list_prod (a0 :: A) (b0 :: B)) 0%float [] zero_not_nan)
    as (_ & _ & Hle & Hin & Hall).
  cbn zeta in *.
  set (r := fst (fold_left (compare_step face_distance)
                   (list_prod (a0 :: A) (b0 :: B)) (0%float, []))) in *.
  split; [exact Hle|]. split.
  - intros a b Ha Hb Hm.
    assert (Hd : fle (face_distance a b) (face_distance a b) = true).
    { clear -Hm. float_order. }
    apply fle_trans with (max0 (1 - face_distance a b)).
    + apply le_max0. apply one_minus_not_nan. exact Hd.
    + apply Hall. apply in_map_iff. exists (a, b). split; [reflexivity|].
      apply filter_In. split; [apply in_prod; assumption|exact Hm].
  - destruct Hin as [H0|Hin]; [now left|].
    apply in_map_iff in Hin. destruct Hin as ([a b] & Hr & Hp).
    apply filter_In in Hp. destruct Hp as [Hp Hm].
    apply in_prod_iff in Hp. destruct Hp as [Ha Hb].
    unfold pair_similarity in Hr. cbn [fst snd] in Hr. unfold matching in Hm.
    cbn [fst snd] in Hm.
    destruct (max0_cases (1 - face_distance a b)) as [E|[E _]];
      rewrite E in Hr.
    + left. symmetry. exact Hr.
    + right. exists a, b. repeat split; trivial. symmetry. exact Hr.
Qed.

(** C3: with an empty set on either side the comparator returns 0.0 and
    calls the distance function for no pair.  Otherwise it calls it for
    every pair of the two sets, in order, and returns the greatest
    [max(0, 1 - distance)] among the pairs whose distance is at most 0.6:
    a value met on one of those pairs and not below that of any other;
    and 0.0 when no pair is within 0.6.  In terms of the distances alone:
    the result is not below 0, not below [1 - distance] for any pair
    within 0.6, and it is 0.0 or the [1 - distance] of such a pair. *)
Theorem compare_faces_best_of_all_pairs (setA setB : list Encoding) :
  ((setA = [] \/ setB = []) ->
     compare_faces_log face_distance setA setB = (0%float, [])) /\
  (setA <> [] -> setB <> [] ->
     snd (compare_faces_log face_distance setA setB) = list_prod setA setB) /\
  (matching_similarities face_distance setA setB = [] ->
     compare_faces face_distance setA setB = 0%float) /\
  (matching_similarities face_distance setA setB <> [] ->
     In (compare_faces face_distance setA setB)
        (matching_similarities face_distance setA setB) /\
     forall x, In x (matching_similarities face_distance setA setB) ->
               fle x (compare_faces face_distance setA setB) = true) /\
  fle 0 (compare_faces face_distance setA setB) = true /\
  (forall a b, In a setA -> In b setB ->
     fle (face_distance a b) 0.6 = true ->
     fle (1 - face_distance a b) (compare_faces face_distance setA setB)
       = true) /\
  (compare_faces face_distance setA setB = 0%float \/
   exists a b, In a setA /\ In b setB /\
     fle (face_distance a b) 0.6 = true /\
     compare_faces face_distance setA setB = (1 - face_distance a b)%float).
Proof.
  pose proof (compare_faces_value setA setB) as Hvalue. cbn zeta in Hvalue.
  assert (Hrun : setA <> [] -> setB <> [] ->
            compare_faces_log face_distance setA setB
            = fold_left (compare_step face_distance) (list_prod setA setB) (0%float, [])).
  { intros HA HB. unfold compare_faces_log.
    destruct setA as [|a A]; [congruence|]. destruct setB as [|b B]; [congruence|].
    apply loops_as_pairs. }
  pose proof (fold_step_spec (list_prod setA setB) 0%float [] zero_not_nan)
    as (Hl & Hr & Hle & Hin & Hall). cbn zeta in *.
  fold (matching_similarities face_distance setA setB) in Hin, Hall.
  destruct setA as [|a A].
  { split; [reflexivity|]. split; [congruence|].
    split; [reflexivity|]. split; [|exact Hvalue]. intros HM. now elim HM. }
  destruct setB as [|b B].
  { unfold matching_similarities, compare_faces, compare_faces_log.
    replace (list_prod (a :: A) []) with (@nil (Encoding * Encoding))
      by (clear; induction (a :: A); cbn; auto).
    split; [reflexivity|]. split; [congruence|].
    split; [reflexivity|]. split; [|exact Hvalue]. intros HM. now elim HM. }
  split; [intros [H|H]; discriminate|].
  split; [intros _ _; rewrite Hrun by congruence; exact Hl|].
  split; [|split; [|exact Hvalue]]; unfold compare_faces;
    rewrite Hrun by congruence.
  - intros HM. rewrite HM in Hin. destruct Hin as [H|[]]. exact H.
  - intros HM. split; [|exact Hall].
    destruct Hin as [H0|Hin]; [|exact Hin].
    (* the initial 0.0 survives only if every matching similarity is 0 *)
    destruct (matching_similarities face_distance (a :: A) (b :: B))
      as [|x M] eqn:EM; [congruence|].
    assert (Hx : In x (x :: M)) by now left.
    pose proof (Hall x Hx) as Hx0. rewrite H0 in *.
    assert (Hform : x = 0%float \/ fgt x 0 = true).
    { assert (In x (matching_similarities face_distance (a :: A) (b :: B)))
        as Hi by (rewrite EM; now left).
      unfold matching_similarities in Hi. apply in_map_iff in Hi.
      destruct Hi as (p & <- & _). unfold pair_similarity.
      destruct (max0_cases (1 - face_distance (fst p) (snd p))) as [->|[-> ?]]; auto. }
    destruct Hform as [->|Hpos]; [now left|].
    apply fgt_not_fle in Hpos. congruence.
Qed.
End ComparatorFacts.

(** * File names *)

Lemma split_last_dot_none s :
  split_last_dot s = None <-> contains "." s = false.
Proof.
  induction s as [|c s IH]; [now split|].
  cbn [split_last_dot contains]. destruct (split_last_dot s) as [[h t]|].
  - assert (contains "." s = true) as ->.
    { destruct (contains "." s); [reflexivity|].
      destruct IH as [_ IH]. specialize (IH eq_refl). discriminate. }
    rewrite orb_true_r. split; discriminate.
  - assert (contains "." s = false) as -> by now apply IH.
    rewrite orb_false_r. cbn [prefix].
    destruct (Ascii.ascii_dec "." c) as [<-|Hne].
    + cbn. destruct s; split; discriminate.
    + destruct (Ascii.eqb_spec c "."); [congruence|].
      destruct s; now split.
Qed.

Lemma split_last_dot_some s h t :
  split_last_dot s = Some (h, t) <->
  s = (h ++ "." ++ t)%string /\ contains "." t = false.
Proof.
  revert h. induction s as [|c s IH]; intros h.
  - cbn. split; [discriminate|]. intros [H _]. destruct h; discriminate.
  - cbn [split_last_dot]. destruct (split_last_dot s) as [[h' t']|] eqn:E.
    + split.
      * intros H. injection H as <- <-.
        destruct (proj1 (IH h') eq_refl) as [-> Ht]. now split.
      * intros [H Ht]. destruct h as [|d h]; cbn in H.
        -- injection H as _ ->. apply split_last_dot_none in Ht. congruence.
        -- injection H as -> H.
           assert (E' : Some (h', t') = Some (h, t)) by (apply IH; now split).
           now injection E' as -> ->.
    + apply split_last_dot_none in E. split.
      * destruct (Ascii.eqb_spec c "."); [|discriminate].
        intros H. injection H as <- <-. subst c. now split.
      * intros [H Ht]. destruct h as [|d h]; cbn in H.
        -- injection H as -> ->. now rewrite Ascii.eqb_refl.
        -- injection H as _ Hs. exfalso.
           assert (contains "." s = true) as Hc.
           { apply contains_app. now exists h, t. }
           congruence.
Qed.

Lemma allowed_file_char (filename : string) :
  (exists b, allowed_file filename = Some b) /\
  (allowed_file filename = Some true <-> has_allowed_extension filename).
Proof.
  unfold has_allowed_extension.
  unfold allowed_file, rsplit1, index, ALLOWED_EXTENSIONS.
  destruct (split_last_dot filename) as [[h t]|] eqn:E.
  - pose proof (proj1 (split_last_dot_some _ _ _) E) as [-> Ht].
    assert (contains "." (h ++ "." ++ t) = true) as ->.
    { apply contains_app. now exists h, t. }
    cbn [nth_error bind existsb]. split; [eauto|].
    split.
    + intros H. injection H as H.
      rewrite !orb_true_iff, !String.eqb_eq in H.
      exists h, t. intuition discriminate.
    + intros (stem & ext & H & Hx & Hl).
      assert (E' : Some (h, t) = Some (stem, ext)).
      { rewrite <- E. apply split_last_dot_some. now split. }
      injection E' as -> ->. f_equal. destruct Hl as [->|[->| ->]]; reflexivity.
  - apply split_last_dot_none in E. rewrite E. split; [eauto|].
    split; [discriminate|]. intros (stem & ext & -> & _).
    assert (contains "." (stem ++ "." ++ ext) = true) as Hc.
    { apply contains_app. now exists stem, ext. }
    congruence.
Qed.

(** X1: [allowed_file] never raises, and it accepts a name exactly when the
    name ends with a dot followed by png, jpg or jpeg in any letter case. *)
Theorem allowed_file_spec (filename : string) :
  (exists b, allowed_file filename = Some b) /\
  (allowed_file filename = Some true <->
   exists stem ext,
     filename = (stem ++ "." ++ ext)%string /\
     (equal_ignoring_case ext "png" = true \/
      equal_ignoring_case ext "jpg" = true \/
      equal_ignoring_case ext "jpeg" = true)).
Proof.
  destruct (allowed_file_char filename) as [Hb Hiff].
  split; [exact Hb|]. rewrite Hiff. unfold has_allowed_extension.
  assert (Hl : forall ext kw,
            forallb is_lower_az (list_ascii_of_string kw) = true ->
            lower ext = kw <-> equal_ignoring_case ext kw = true).
  { intros ext kw Hkw. apply lower_equal_ignoring_case. exact Hkw. }
  split.
  - intros (stem & ext & Hf & _ & He). exists stem, ext. split; [exact Hf|].
    rewrite <- !Hl by reflexivity. exact He.
  - intros (stem & ext & Hf & He). exists stem, ext. split; [exact Hf|].
    rewrite <- !Hl in He by reflexivity. split; [|exact He].
    rewrite <- contains_dot_lower.
    destruct He as [->|[->| ->]]; reflexivity.
Qed.

(** * White space and [str.strip] *)

Lemma is_blank_char_space c : is_blank_char c = is_space c.
Proof. destruct c as [[] [] [] [] [] [] [] []]; reflexivity. Qed.

Lemma blank_app a b : blank (a ++ b) = (blank a && blank b)%bool.
Proof.
  induction a as [|c a IH]; [reflexivity|].
  cbn [append blank]. rewrite IH. now rewrite andb_assoc.
Qed.

Lemma lstrip_split s :
  exists l, s = (l ++ lstrip s)%string /\ blank l = true /\
            forall c rest, lstrip s = String c rest -> is_blank_char c = false.
Proof.
  induction s as [|a s (l & Hs & Hl & Hh)].
  - exists "". split; [reflexivity|]. split; [reflexivity|]. discriminate.
  - cbn [lstrip]. destruct (is_space a) eqn:Ea.
    + exists (String a l). cbn [append blank]. rewrite <- Hs.
      rewrite is_blank_char_space, Ea.
      split; [reflexivity|]. split; [exact Hl|exact Hh].
    + exists "". split; [reflexivity|]. split; [reflexivity|].
      intros c rest H. injection H as <- _. now rewrite is_blank_char_space.
Qed.

Lemma rstrip_split s :
  exists r, s = (rstrip s ++ r)%string /\ blank r = true /\
            forall init c, rstrip s = (init ++ String c "")%string ->
                           is_blank_char c = false.
Proof.
  induction s as [|a s (r & Hs & Hr & Hlast)].
  - exists "". split; [reflexivity|]. split; [reflexivity|].
    intros [|? ?] ? H; discriminate.
  - cbn [rstrip]. destruct (rstrip s) as [|b u] eqn:Eu.
    + cbn [append] in Hs. subst r.
      destruct (is_space a) eqn:Ea.
      * exists (String a s). cbn [append blank].
        rewrite is_blank_char_space, Ea, Hr.
        split; [reflexivity|]. split; [reflexivity|].
        intros [|? ?] ? H; discriminate.
      * exists s. cbn [append].
        split; [reflexivity|]. split; [exact Hr|].
        intros [|i init] c H; cbn [append] in H.
        -- injection H as <-. now rewrite is_blank_char_space.
        -- injection H as _ H. destruct init; discriminate.
    + exists r. cbn [append]. rewrite Hs at 1.
      split; [reflexivity|]. split; [exact Hr|].
      intros [|i init] c H; cbn [append] in H.
      * injection H as _ H. discriminate.
      * injection H as _ H. exact (Hlast init c H).
Qed.

Lemma rstrip_head u c rest :
  rstrip u = String c rest -> exists rest', u = String c rest'.
Proof.
  destruct u as [|a u]; [discriminate|]. cbn [rstrip].
  destruct (rstrip u); [destruct (is_space a); [discriminate|]|];
    intros H; injection H as -> _; eauto.
Qed.

(** [str.strip] removes the white space at the two ends. *)
Lemma strip_trimmed t : trimmed (strip t) t.
Proof.
  destruct (lstrip_split t) as (l & Ht & Hl & Hh).
  destruct (rstrip_split (lstrip t)) as (r & Hu & Hr & Hlast).
  exists l, r. unfold strip. rewrite <- Hu. split; [exact Ht|].
  split; [exact Hl|]. split; [exact Hr|]. split; [|exact Hlast].
  intros c rest H. destruct (rstrip_head _ _ _ H) as [rest' H'].
  exact (Hh c rest' H').
Qed.

Lemma lstrip_blank_app l u : blank l = true -> lstrip (l ++ u) = lstrip u.
Proof.
  induction l as [|a l IH]; [reflexivity|]. cbn [blank append lstrip].
  rewrite is_blank_char_space. intros H. apply andb_true_iff in H.
  destruct H as [-> H]. exact (IH H).
Qed.

Lemma rstrip_blank r : blank r = true -> rstrip r = "".
Proof.
  induction r as [|a r IH]; [reflexivity|]. cbn [blank rstrip].
  rewrite is_blank_char_space. intros H. apply andb_true_iff in H.
  destruct H as [Ha H]. now rewrite (IH H), Ha.
Qed.

Lemma rstrip_app_blank u r : blank r = true -> rstrip (u ++ r) = rstrip u.
Proof.
  intros Hr. induction u as [|a u IH]; cbn [append].
  - now apply rstrip_blank.
  - cbn [rstrip]. now rewrite IH.
Qed.

Lemma rstrip_id u :
  (forall init c, u = (init ++ String c "")%string -> is_blank_char c = false) ->
  rstrip u = u.
Proof.
  induction u as [|a u IH]; [reflexivity|]. intros H. cbn [rstrip].
  rewrite IH.
  - destruct u; [|reflexivity].
    rewrite <- is_blank_char_space, (H "" a eq_refl). reflexivity.
  - intros init c E. apply (H (String a init) c). cbn. now rewrite E.
Qed.

(** Only [strip t] is [t] without the white space at its two ends. *)
Lemma trimmed_unique core t : trimmed core t -> core = strip t.
Proof.
  intros (l & r & -> & Hl & Hr & Hh & Hlast). unfold strip.
  rewrite (lstrip_blank_app l _ Hl).
  destruct core as [|c rest].
  - cbn [append]. replace (lstrip r) with "".
    + reflexivity.
    + clear -Hr. induction r as [|a r IH]; [reflexivity|].
      cbn [blank lstrip] in *. rewrite is_blank_char_space in Hr.
      apply andb_true_iff in Hr. destruct Hr as [-> Hr]. exact (IH Hr).
  - cbn [append lstrip].
    rewrite <- is_blank_char_space, (Hh c rest eq_refl).
    change (String c (rest ++ r)) with (String c rest ++ r)%string.
    rewrite (rstrip_app_blank _ r Hr). symmetry. now apply rstrip_id.
Qed.

Lemma blank_strip t : blank t = true <-> strip t = "".
Proof.
  split.
  - intros H. symmetry. apply trimmed_unique. exists "", t.
    split; [reflexivity|]. split; [reflexivity|]. split; [exact H|].
    split; [discriminate|]. intros [|? ?] ? E; discriminate.
  - intros H. destruct (strip_trimmed t) as (l & r & Ht & Hl & Hr & _).
    rewrite H in Ht. cbn [append] in Ht. rewrite Ht, blank_app, Hl, Hr.
    reflexivity.
Qed.

(** * Text recognition *)

Section RecognitionFacts.
Variable image_to_string : string -> option string.

Lemma len_nonneg s : 0 <= len s.
Proof. unfold len. lia. Qed.

(** One pass of the loop from a running text [text0]. *)
Lemma ocr_fold_spec (configs : list string) : forall text0,
  let r := fold_left (ocr_try image_to_string) configs text0 in
  len (strip text0) <= len (strip r) /\
  (forall config t, In config configs -> image_to_string config = Some t ->
                    len (strip t) <= len (strip r)) /\
  (r = text0 \/
   exists pre config post,
     configs = (pre ++ config :: post)%list /\
     image_to_string config = Some r /\
     len (strip text0) < len (strip r) /\
     forall c t, In c pre -> image_to_string c = Some t ->
                 len (strip t) < len (strip r)).
Proof.
  induction configs as [|config configs IH]; intros text0; cbn zeta.
  - cbn [fold_left]. split; [apply Z.le_refl|]. split; [intros ? ? []|now left].
  - cbn [fold_left].
    assert (Hstep :
      (ocr_try image_to_string text0 config = text0 /\
       forall t, image_to_string config = Some t ->
                 len (strip t) <= len (strip text0)) \/
      (exists temp, image_to_string config = Some temp /\
                    len (strip text0) < len (strip temp) /\
                    ocr_try image_to_string text0 config = temp)).
    { unfold ocr_try. destruct (image_to_string config) as [temp|].
      - destruct (Z.ltb_spec (len (strip text0)) (len (strip temp))).
        + right. now exists temp.
        + left. split; [reflexivity|]. intros t Ht. injection Ht as <-. lia.
      - left. split; [reflexivity|]. discriminate. }
    destruct Hstep as [[-> Hno]|(temp & E & Hlt & ->)].
    + destruct (IH text0) as (Hle & Hmax & Hsel). cbn zeta in *.
      split; [exact Hle|]. split.
      * intros c t [<-|Hc] Ht; [|now apply (Hmax c)].
        specialize (Hno t Ht). lia.
      * destruct Hsel as [Hr|(pre & c & post & -> & Hc & Hlen & Hpre)];
          [now left|right].
        exists (config :: pre), c, post.
        repeat split; trivial.
        intros c' t [<-|Hc'] Ht; [|now apply (Hpre c')].
        specialize (Hno t Ht). lia.
    + destruct (IH temp) as (Hle & Hmax & Hsel). cbn zeta in *.
      split; [lia|]. split.
      * intros c t [<-|Hc] Ht; [|now apply (Hmax c)].
        rewrite E in Ht. injection Ht as <-. exact Hle.
      * right. destruct Hsel as [Hr|(pre & c & post & -> & Hc & Hlen & Hpre)].
        -- exists [], config, configs. rewrite Hr.
           repeat split; trivial. intros ? ? [].
        -- exists (config :: pre), c, post.
           repeat split; trivial; [lia|].
           intros c' t [<-|Hc'] Ht; [|now apply (Hpre c')].
           rewrite E in Ht. injection Ht as <-. exact Hlen.
Qed.


(** X3: the kept text is empty exactly when every configuration raised or
    returned white space only, and a kept text that is not empty is never
    made of white space only. *)
Theorem ocr_race_empty_iff (configs : list string) :
  (ocr_race image_to_string configs = "" <->
   forall config t, In config configs -> image_to_string config = Some t ->
                    blank t = true) /\
  (ocr_race image_to_string configs = "" \/
   blank (ocr_race image_to_string configs) = false).
Proof.
  destruct (ocr_fold_spec configs "") as (_ & Hmax & Hsel).
  cbn zeta in *. fold (ocr_race image_to_string configs) in Hmax, Hsel.
  set (text := ocr_race image_to_string configs) in *.
  assert (Hz : forall s, len s = 0 -> s = "").
  { intros [|? ?]; [reflexivity|]. unfold len. cbn. lia. }
  assert (Hkept : text = "" \/ strip text <> "").
  { destruct Hsel as [Hr|(pre & c & post & _ & _ & Hlen & _)]; [now left|right].
    intros E. rewrite E in Hlen. unfold len in Hlen. cbn in Hlen. lia. }
  split.
  - split.
    + intros Hr config t Hin Ht. apply blank_strip. apply Hz.
      pose proof (Hmax config t Hin Ht) as H. rewrite Hr in H.
      change (len (strip "")) with 0 in H. pose proof (len_nonneg (strip t)). lia.
    + intros Hall.
      destruct Hsel as [Hr|(pre & c & post & Hc & Ht & Hlen & _)]; [exact Hr|].
      assert (Hin : In c configs) by (rewrite Hc; apply in_elt).
      rewrite (proj1 (blank_strip _) (Hall c _ Hin Ht)) in Hlen.
      unfold len in Hlen. cbn in Hlen. lia.
  - destruct Hkept as [H|H]; [now left|right].
    destruct (blank text) eqn:E; [|reflexivity].
    apply blank_strip in E. contradiction.
Qed.
End RecognitionFacts.

(** * Face extractor *)

Section ExtractorFacts.
Variables Image Box Encoding : Type.
Variable load_image_file : string -> option Image.
Variable shape : Image -> Z * Z.
Variable resize : Image -> Z -> Z -> option Image.
Variable face_locations : Image -> detector -> option (list Box).
Variable face_encodings : Image -> list Box -> option (list Encoding).

Local Abbreviation prepared := (prepared_image load_image_file shape resize).
Local Abbreviation extract_log :=
  (extract_faces_log load_image_file shape resize face_locations
     face_encodings).
Local Abbreviation extract :=
  (extract_faces_from_image load_image_file shape resize
     face_locations face_encodings).

Lemma is_empty_nil {A} (l : list A) : is_empty l = true <-> l = [].
Proof. destruct l; cbn; split; congruence. Qed.

(** What [detect] called and found. *)
Lemma detect_spec image :
  let '(log, found) := detect face_locations image in
  (log = [Hog] \/ log = [Hog; HogUp2] \/ log = [Hog; HogUp2; Cnn]) /\
  (In HogUp2 log -> face_locations image Hog = Some []) /\
  (In Cnn log -> face_locations image Hog = Some [] /\
                 face_locations image HogUp2 = Some []) /\
  (forall locations, found = Some locations -> locations <> [] ->
     exists d, face_locations image d = Some locations /\
               forall d', detector_rank d' < detector_rank d ->
                          face_locations image d' = Some []) /\
  (forall d locations,
     face_locations image d = Some locations -> locations <> [] ->
     (forall d', detector_rank d' < detector_rank d ->
                 face_locations image d' = Some []) ->
     found = Some locations).
Proof.
  unfold detect.
  assert (R0 : forall d', detector_rank d' < detector_rank Hog ->
                          face_locations image d' = Some []).
  { intros [] Hr; cbn in Hr; lia. }
  destruct (face_locations image Hog) as [[|b1 l1]|] eqn:E1; cbn [is_empty negb].
  2:{ split; [auto|]. split; [intros [H|[]]; discriminate|].
      split; [intros [H|[]]; discriminate|]. split.
      - intros locations H _. injection H as <-. now exists Hog.
      - intros [] locations Hd Hne Hprev; [congruence| |];
          specialize (Hprev Hog ltac:(cbn; lia)); congruence. }
  2:{ split; [auto|]. split; [intros [H|[]]; discriminate|].
      split; [intros [H|[]]; discriminate|]. split; [discriminate|].
      intros [] locations Hd Hne Hprev; [congruence| |];
        specialize (Hprev Hog ltac:(cbn; lia)); congruence. }
  assert (R1 : forall d', detector_rank d' < detector_rank HogUp2 ->
                          face_locations image d' = Some []).
  { intros [] Hr; cbn in Hr; try lia. exact E1. }
  destruct (face_locations image HogUp2) as [[|b2 l2]|] eqn:E2; cbn [is_empty negb].
  2:{ split; [auto|]. split; [auto|].
      split; [intros [H|[H|[]]]; discriminate|]. split.
      - intros locations H _. injection H as <-. now exists HogUp2.
      - intros [] locations Hd Hne Hprev; [congruence|congruence|].
        specialize (Hprev HogUp2 ltac:(cbn; lia)). congruence. }
  2:{ split; [auto|]. split; [auto|].
      split; [intros [H|[H|[]]]; discriminate|]. split; [discriminate|].
      intros [] locations Hd Hne Hprev; [congruence|congruence|].
      specialize (Hprev HogUp2 ltac:(cbn; lia)). congruence. }
  assert (R2 : forall d', detector_rank d' < detector_rank Cnn ->
                          face_locations image d' = Some []).
  { intros [] Hr; cbn in Hr; try lia; assumption. }
  destruct (face_locations image Cnn) as [l3|] eqn:E3.
  - split; [auto|]. split; [auto|]. split; [auto|]. split.
    + intros locations H Hne. injection H as <-. now exists Cnn.
    + intros [] locations Hd Hne Hprev; congruence.
  - split; [auto|]. split; [auto|]. split; [auto|]. split; [discriminate|].
    intros [] locations Hd Hne Hprev; congruence.
Qed.

(** X4: the detectors run in the order HOG, HOG with two upsamplings, CNN;
    the second runs only after the first found nothing on the prepared
    image, the third only after both found nothing; and none runs when the
    image could not be loaded or resized. *)
Theorem extract_faces_escalation (image_path : string) :
  let log := fst (extract_faces_log load_image_file shape resize
                    face_locations face_encodings image_path) in
  match prepared_image load_image_file shape resize image_path with
  | None => log = []
  | Some image =>
      (log = [Hog] \/ log = [Hog; HogUp2] \/ log = [Hog; HogUp2; Cnn]) /\
      (In HogUp2 log -> face_locations image Hog = Some []) /\
      (In Cnn log -> face_locations image Hog = Some [] /\
                     face_locations image HogUp2 = Some [])
  end.
Proof.
  cbn zeta. unfold extract_faces_log.
  destruct (prepared_image _ _ _ image_path) as [image|]; [|reflexivity].
  pose proof (detect_spec image) as H.
  destruct (detect face_locations image) as [log found].
  destruct H as (Hlog & H2 & H3 & _).
  assert (fst (let '(log, found) := (log, found) in
               match found with
               | None => (log, [])
               | Some locations =>
                   if is_empty locations then (log, [])
                   else match face_encodings image locations with
                        | Some encodings => (log, encodings)
                        | None => (log, [])
                        end
               end) = log) as ->.
  { destruct found as [locations|]; [|reflexivity].
    destruct (is_empty locations); [reflexivity|].
    destruct (face_encodings image locations); reflexivity. }
  auto.
Qed.

(** X5: the function returns a non-empty list [encodings] exactly when the
    image was loaded and prepared, some detector found locations while all
    detectors before it found none, and [encodings] are the encodings of
    those locations; in every other case, exceptions included, it returns
    the empty list. *)
Theorem extract_faces_result (image_path : string) (encodings : list Encoding) :
  encodings <> [] ->
  (extract_faces_from_image load_image_file shape resize face_locations
     face_encodings image_path = encodings <->
   exists image d locations,
     prepared_image load_image_file shape resize image_path = Some image /\
     face_locations image d = Some locations /\ locations <> [] /\
     (forall d', detector_rank d' < detector_rank d ->
                 face_locations image d' = Some []) /\
     face_encodings image locations = Some encodings).
Proof.
  intros Hne.
  unfold extract_faces_from_image, extract_faces_log.
  destruct (prepared_image _ _ _ image_path) as [image|].
  2:{ cbn. split; [congruence|]. intros (? & ? & ? & H & _). discriminate. }
  pose proof (detect_spec image) as H.
  destruct (detect face_locations image) as [log found].
  destruct H as (_ & _ & _ & Hfound & Hfirst). cbn [snd].
  split.
  - destruct found as [locations|]; cbn [snd]; [|congruence].
    destruct (is_empty locations) eqn:Ee; cbn [snd]; [congruence|].
    assert (Hl : locations <> []).
    { intros ->. discriminate. }
    destruct (face_encodings image locations) as [e|] eqn:Ef; cbn [snd];
      [|congruence].
    intros ->. destruct (Hfound locations eq_refl Hl) as (d & Hd & Hprev).
    now exists image, d, locations.
  - intros (image' & d & locations & Hi & Hd & Hl & Hprev & He).
    injection Hi as <-.
    rewrite (Hfirst d locations Hd Hl Hprev).
    destruct locations; [congruence|]. cbn [is_empty]. now rewrite He.
Qed.
End ExtractorFacts.

(** * Bounds on the score *)

Lemma fold_keywords_le text_lower l :
  Forall (fun kp => 0 <= snd kp) l ->
  forall score,
    fold_left (fun score '(keyword, points) =>
                 if contains keyword text_lower then score + points else score)
              l score
    <= score + zsum (map snd l).
Proof.
  induction 1 as [|[kw pts] l Hp _ IH]; intros score; cbn [fold_left map snd].
  - unfold zsum. cbn. lia.
  - cbn [snd] in Hp. etransitivity; [apply IH|].
    unfold zsum at 2. cbn [fold_left]. rewrite zsum_shift.
    destruct (contains kw text_lower); lia.
Qed.

Lemma fold_fields_le text_lower l : forall score,
  fold_left (fun score field =>
               if contains field text_lower then score + 1 else score) l score
  <= score + Z.of_nat (List.length l).
Proof.
  induction l as [|f l IH]; intros score; cbn [fold_left List.length]; [lia|].
  etransitivity; [apply IH|]. destruct (contains f text_lower); lia.
Qed.

Lemma quality_stage_le text : quality_stage text <= 7.
Proof.
  unfold quality_stage.
  repeat match goal with |- context [if ?c then _ else _] => destruct c end; lia.
Qed.

Lemma keyword_stage_le text_lower : keyword_stage text_lower <= 15.
Proof.
  unfold keyword_stage.
  etransitivity; [apply fold_keywords_le|reflexivity].
  unfold license_keywords. repeat constructor; cbn; lia.
Qed.

Lemma field_stage_le text_lower : field_stage text_lower <= 12.
Proof. unfold field_stage. etransitivity; [apply fold_fields_le|reflexivity]. Qed.

Lemma text_points_le text : text_points text <= 34.
Proof.
  unfold text_points.
  pose proof (keyword_stage_le (lower text)).
  pose proof (quality_stage_le text).
  pose proof (field_stage_le (lower text)). lia.
Qed.

Lemma SF_half : Prim2SF 0.5 = S754_finite false 4503599627370496 (-53).
Proof. vm_compute. reflexivity. Qed.

Lemma above_half s : fle 0.5 s = true -> fgt s 0.4 = true /\ fgt 0.5 0.2 = true.
Proof.
  rewrite !fgt_key, fle_key, SF_two_fifths, SF_one_fifth, SF_half.
  unfold not_nan, lex_lt, lex_le. cbn [SFkey fst snd].
  destruct (SFkey (Prim2SF s)) as [[k1 k2] k3]. cbn [fst snd]. lia.
Qed.

(** X6: a similarity of at least 0.5 alone gives the top band: whatever the
    text and the document flag, the score is at least 80, the status
    very_safe and the confidence very_high. *)
Theorem half_similarity_is_very_safe
    (text : string) (is_license : bool) (s : float) :
  fle 0.5 s = true -> fle s 1 = true ->
  exists v, calculate_safety_score text is_license s = Some v /\
            80 <= v <= 100 /\
            get_safety_status v = very_safe /\
            get_confidence_level v = very_high.
Proof.
  intros H5 H1. destruct (above_half s H5) as [H4 H52].
  assert (H20 := int_mul_mono 20 _ _ SF_twenty eq_refl ltac:(lia)).
  destruct (H20 0.5%float s H52 H5 H1) as (a & k & Ea & Ek & Hak).
  assert (E0 : int_of_float (0.5 * 20) = Some 10) by (vm_compute; reflexivity).
  rewrite E0 in Ea. injection Ea as <-.
  rewrite calculate_safety_score_stages. unfold face_stage.
  rewrite H4, Ek. cbn [bind].
  pose proof (text_points_nonneg text) as Ht.
  pose proof (clamp_range (70 + k + text_points text)) as Hr.
  assert (H80 : 80 <= clamp (70 + k + text_points text)) by (unfold clamp; lia).
  eexists. split; [reflexivity|]. split; [lia|].
  unfold get_safety_status, get_confidence_level.
  destruct (Z.leb_spec 80 (clamp (70 + k + text_points text))); [now split|lia].
Qed.

Lemma half_similarity_is_very_safe_witness :
  exists v, calculate_safety_score "" false 0.5 = Some v /\
            80 <= v <= 100 /\
            get_safety_status v = very_safe /\
            get_confidence_level v = very_high.
Proof. apply (half_similarity_is_very_safe "" false 0.5); reflexivity. Defined.

(** X7: without a face match, that is for any similarity that is not above
    0.2, a NaN included, the scorer does not raise and the text alone cannot
    reach the top band: the score is at most 74 for a document and at most
    54 otherwise, so the status is never very_safe. *)
Theorem no_match_never_very_safe
    (text : string) (is_license : bool) (s : float) :
  fgt s 0.2 = false ->
  exists v, calculate_safety_score text is_license s = Some v /\
            20 <= v <= (if is_license then 74 else 54) /\
            get_safety_status v <> very_safe.
Proof.
  intros H2.
  assert (H4 : fgt s 0.4 = false).
  { destruct (fgt s 0.4) eqn:E; [|reflexivity].
    apply above_two_fifths in E. destruct E. congruence. }
  rewrite calculate_safety_score_stages. unfold face_stage. rewrite H4, H2.
  pose proof (text_points_nonneg text) as Ht.
  pose proof (text_points_le text) as Hle.
  destruct is_license; cbn [bind]; eexists; (split; [reflexivity|]);
    unfold clamp, get_safety_status; (split; [lia|]);
    match goal with |- context [80 <=? ?x] => destruct (Z.leb_spec 80 x) end;
    try lia;
    repeat match goal with |- context [?a <=? ?b] => destruct (a <=? b) end;
    discriminate.
Qed.

Lemma no_match_never_very_safe_witness :
  exists v, calculate_safety_score "driver license" true nan = Some v /\
            20 <= v <= 74 /\
            get_safety_status v <> very_safe.
Proof. apply (no_match_never_very_safe "driver license" true nan). reflexivity. Defined.

(** The bounds of X7 are reached. *)
Remark full_text_reaches_74 :
  calculate_safety_score
    ("Driver License identification state dmv department motor vehicle card "
     ++ "expires issued class restrictions endorsements date birth address "
     ++ "height weight eyes hair AB1234567 01/02/2020 John Smith")
    true 0 = Some 74.
Proof. lazy. reflexivity. Qed.

Lemma keyword_stage_member text_lower kw pts :
  In (kw, pts) license_keywords -> contains kw text_lower = true ->
  pts <= keyword_stage text_lower.
Proof.
  intros Hin Hc. rewrite keyword_stage_sum.
  assert (Hnn : Forall (fun kp => 0 <= snd kp) license_keywords).
  { unfold license_keywords. repeat constructor; cbn; lia. }
  revert Hin Hnn. generalize license_keywords as l.
  induction l as [|[kw' pts'] l IH]; intros Hin Hnn; [destruct Hin|].
  inversion Hnn as [|? ? Hp Hl]; subst. cbn [snd] in Hp.
  cbn [map fst snd]. unfold zsum. cbn [fold_left]. rewrite zsum_shift.
  assert (Hrest : 0 <= zsum (map (fun kp => if contains (fst kp) text_lower
                                            then snd kp else 0) l)).
  { clear -Hl. induction Hl as [|[k p] l Hp _ IH]; [cbn; lia|].
    cbn [map fst snd]. unfold zsum. cbn [fold_left]. rewrite zsum_shift.
    cbn [snd] in Hp. destruct (contains k text_lower); lia. }
  destruct Hin as [E|Hin].
  - injection E as -> ->. rewrite Hc. lia.
  - specialize (IH Hin Hl). destruct (contains kw' text_lower); lia.
Qed.

(** X8: the handler's document flag and the keyword stage read the same
    text: when the flag is true the keyword stage gives at least one point;
    when it is false only motor, vehicle and card can count, at most 3
    points, and without a face match the score is then at most 42. *)
Theorem flag_and_keyword_points (text : string) :
  (is_license_text text = true -> 1 <= keyword_stage (lower text)) /\
  (is_license_text text = false ->
     keyword_stage (lower text) <= 3 /\
     forall s, fgt s 0.2 = false ->
       exists v, calculate_safety_score text (is_license_text text) s = Some v /\
                 20 <= v <= 42).
Proof.
  unfold is_license_text, ocr_keywords. cbn [existsb]. split.
  - rewrite !orb_true_iff.
    intros [H|[H|[H|[H|[H|[H|[H|H]]]]]]]; try discriminate;
      match type of H with
      | contains ?kw _ = true =>
          first
            [ apply (keyword_stage_member _ kw 1); [cbn; tauto | exact H]
            | apply Z.le_trans with 2; [lia|];
              apply (keyword_stage_member _ kw 2); [cbn; tauto | exact H] ]
      end.
  - intros Hnone. pose proof Hnone as Hflag. rewrite !orb_false_iff in Hnone.
    destruct Hnone as (Hl & Hd & Hi & Hn & Hs & Hm & Hp & _).
    assert (Hk : keyword_stage (lower text) <= 3).
    { rewrite keyword_stage_sum. unfold license_keywords.
      cbn [map fst snd]. rewrite Hl, Hd, Hi, Hn, Hs, Hm, Hp.
      unfold zsum. cbn [fold_left].
      destruct (contains "motor" (lower text)),
               (contains "vehicle" (lower text)),
               (contains "card" (lower text)); cbn; lia. }
    split; [exact Hk|]. intros s H2. rewrite Hflag.
    assert (H4 : fgt s 0.4 = false).
    { destruct (fgt s 0.4) eqn:E; [|reflexivity].
      apply above_two_fifths in E. destruct E. congruence. }
    rewrite calculate_safety_score_stages. unfold face_stage.
    rewrite H4, H2. cbn [bind].
    pose proof (text_points_nonneg text) as Ht.
    assert (text_points text <= 22).
    { unfold text_points. pose proof (quality_stage_le text).
      pose proof (field_stage_le (lower text)). lia. }
    eexists. split; [reflexivity|]. unfold clamp. lia.
Qed.

(** * More text never lowers the score *)

Lemma string_app_assoc (a b c : string) : ((a ++ b) ++ c = a ++ b ++ c)%string.
Proof. induction a as [|x a IH]; cbn; [reflexivity | now rewrite IH]. Qed.

Lemma contains_extend kw pre s post :
  contains kw s = true -> contains kw (pre ++ s ++ post) = true.
Proof.
  rewrite !contains_app. intros (a & b & ->).
  exists (pre ++ a)%string, (b ++ post)%string.
  now rewrite !string_app_assoc.
Qed.

Lemma rep_extend (c : ascii -> bool) (k : string -> bool) post :
  (forall s, k s = true -> k (s ++ post) = true) ->
  forall s lo hi, rep c k lo hi s = true -> rep c k lo hi (s ++ post) = true.
Proof.
  intros Hk. induction s as [|a s IH]; intros lo hi.
  - cbn [rep]. rewrite orb_false_r. destruct lo; [|discriminate].
    intros H. apply Hk in H. cbn [append] in H |- *.
    destruct post; cbn [rep]; rewrite H; reflexivity.
  - cbn [append rep]. rewrite !orb_true_iff. intros [H|H].
    + left. destruct lo; [|discriminate]. apply (Hk (String a s) H).
    + right. destruct hi as [[|h]|]; [discriminate| |];
        apply andb_true_iff in H; destruct H as [Ha H];
        rewrite Ha; cbn [andb]; now apply IH.
Qed.

Lemma match_here_extend p post :
  forall s, match_here p s = true -> match_here p (s ++ post) = true.
Proof.
  induction p as [|i p IH]; intros s; cbn [match_here]; [reflexivity|].
  now apply rep_extend.
Qed.

Lemma re_search_extend p pre s post :
  re_search p s = true -> re_search p (pre ++ s ++ post) = true.
Proof.
  intros H.
  assert (Hpost : re_search p (s ++ post) = true).
  { clear pre. induction s as [|a s IH].
    - cbn [re_search] in H. rewrite orb_false_r in H.
      apply (match_here_extend p post) in H. cbn [append] in *.
      destruct post; cbn [re_search]; rewrite H; reflexivity.
    - cbn [append re_search] in *. apply orb_true_iff in H.
      apply orb_true_iff. destruct H as [H|H].
      + left. apply (match_here_extend p post (String a s) H).
      + right. now apply IH. }
  induction pre as [|a pre IH]; [exact Hpost|].
  cbn [append re_search]. rewrite IH. apply orb_true_r.
Qed.

Lemma rstrip_cons_length c s :
  (String.length (rstrip s) <= String.length (rstrip (String c s)))%nat.
Proof. cbn [rstrip]. destruct (rstrip s); [|cbn; lia]. destruct (is_space c); cbn; lia. Qed.

Lemma rstrip_app_length s post :
  (String.length (rstrip s) <= String.length (rstrip (s ++ post)))%nat.
Proof.
  induction s as [|c s IH]; [cbn; lia|].
  cbn [append rstrip].
  destruct (rstrip s) as [|r0 r] eqn:E, (rstrip (s ++ post)) as [|q0 q] eqn:E';
    cbn [String.length] in *; try lia.
  destruct (is_space c); cbn; lia.
Qed.

Lemma rstrip_prepend_length pre s :
  (String.length (rstrip s) <= String.length (rstrip (pre ++ s)))%nat.
Proof.
  induction pre as [|c pre IH]; [cbn; lia|].
  cbn [append]. etransitivity; [exact IH|apply rstrip_cons_length].
Qed.

Lemma lstrip_suffix s : exists ws, s = (ws ++ lstrip s)%string.
Proof.
  induction s as [|c s [ws IH]]; [now exists ""|].
  cbn [lstrip]. destruct (is_space c).
  - exists (String c ws). cbn. now rewrite <- IH.
  - now exists "".
Qed.

Lemma lstrip_app s post :
  lstrip (s ++ post) = (lstrip s ++ post)%string \/ lstrip s = "".
Proof.
  induction s as [|c s IH]; [now right|].
  cbn [append lstrip]. destruct (is_space c); [exact IH|now left].
Qed.

Lemma strip_extend_length pre s post :
  len (strip s) <= len (strip (pre ++ s ++ post)).
Proof.
  unfold len, strip. apply inj_le.
  (* text after: the stripped text only grows on the right *)
  assert (Hpost : (String.length (rstrip (lstrip s))
                   <= String.length (rstrip (lstrip (s ++ post))))%nat).
  { destruct (lstrip_app s post) as [->| ->]; [apply rstrip_app_length|cbn; lia]. }
  etransitivity; [exact Hpost|]. generalize (s ++ post)%string as t. intros t.
  (* text before: either it is white space, or it is kept whole *)
  induction pre as [|c pre IH]; [cbn; lia|].
  cbn [append lstrip]. destruct (is_space c); [exact IH|].
  etransitivity; [exact IH|].
  destruct (lstrip_suffix (pre ++ t)) as [ws Hws].
  rewrite Hws at 2.
  etransitivity; [apply (rstrip_prepend_length ws)|apply rstrip_cons_length].
Qed.

Lemma zsum_map_le {A} (f g : A -> Z) l :
  (forall x, In x l -> f x <= g x) -> zsum (map f l) <= zsum (map g l).
Proof.
  induction l as [|x l IH]; intros H; [cbn; lia|].
  cbn [map]. unfold zsum. cbn [fold_left]. rewrite !zsum_shift.
  pose proof (H x (or_introl eq_refl)).
  assert (zsum (map f l) <= zsum (map g l)) by (apply IH; intros; apply H; now right).
  lia.
Qed.

Lemma text_points_extend pre text post :
  text_points text <= text_points (pre ++ text ++ post).
Proof.
  unfold text_points. rewrite !lower_app.
  assert (Hk : keyword_stage (lower text)
               <= keyword_stage (lower pre ++ lower text ++ lower post)).
  { rewrite !keyword_stage_sum. apply zsum_map_le. intros [kw pts] Hin.
    cbn [fst snd].
    assert (0 <= pts).
    { revert Hin. unfold license_keywords. cbn [In].
      intuition (match goal with H : (_, _) = (_, _) |- _ => injection H as <- <- end; lia). }
    destruct (contains kw (lower text)) eqn:E.
    - rewrite (contains_extend _ _ _ _ E). lia.
    - destruct (contains kw (lower pre ++ _)); lia. }
  assert (Hf : field_stage (lower text)
               <= field_stage (lower pre ++ lower text ++ lower post)).
  { rewrite !field_stage_sum. apply zsum_map_le. intros f _.
    destruct (contains f (lower text)) eqn:E.
    - rewrite (contains_extend _ _ _ _ E). lia.
    - destruct (contains f (lower pre ++ _)); lia. }
  assert (Hq : quality_stage text <= quality_stage (pre ++ text ++ post)).
  { unfold quality_stage.
    pose proof (strip_extend_length pre text post) as Hlen.
    assert (Hre : forall p, re_search p text = true ->
                            re_search p (pre ++ text ++ post) = true)
      by (intros; now apply re_search_extend).
    pose proof (Hre re_date_strict). pose proof (Hre re_date_loose).
    pose proof (Hre re_licno_strict). pose proof (Hre re_licno_loose).
    pose proof (Hre re_state_abbrev). pose proof (Hre re_name).
    pose proof (Hre re_capitalized). clear Hre.
    destruct (Z.ltb_spec 20 (len (strip text)));
      destruct (Z.ltb_spec 20 (len (strip (pre ++ text ++ post)))); try lia;
    repeat match goal with
           | H : re_search ?p text = true -> _ |- _ =>
               destruct (re_search p text);
               [specialize (H eq_refl); rewrite H | clear H]
           end;
    repeat match goal with |- context [if ?c then _ else _] => destruct c end;
    lia. }
  lia.
Qed.

(** X9: recognised text around a text never lowers the score: for the same
    flag and similarity, if the scorer returns [v] on [text] it returns at
    least [v] on [pre ++ text ++ post]. *)
Theorem more_text_never_lowers_score
    (pre text post : string) (is_license : bool) (s : float) (v : Z) :
  calculate_safety_score text is_license s = Some v ->
  exists v', calculate_safety_score (pre ++ text ++ post) is_license s = Some v' /\
             v <= v'.
Proof.
  rewrite !calculate_safety_score_stages.
  destruct (face_stage is_license s) as [base|]; cbn [bind]; [|discriminate].
  intros H. injection H as <-. eexists. split; [reflexivity|].
  apply clamp_mono. pose proof (text_points_extend pre text post). lia.
Qed.

Lemma more_text_never_lowers_score_witness :
  exists v', calculate_safety_score ("Driver " ++ "license" ++ " 01/02/2020")
               true 0.3 = Some v' /\ 56 <= v'.
Proof.
  apply (more_text_never_lowers_score "Driver " "license" " 01/02/2020" true 0.3 56).
  reflexivity.
Defined.

(** * The breakdown against the scorer *)

(** X10: whenever the handler builds a breakdown, its keyword and
    confidence entries are the sub-totals the scorer used, its text-quality
    entry is never below the scorer's (it adds the strict and the loose
    patterns together and counts a stripped length above 5), its base is 70
    or 55 by the flag alone, and its face entry is [int(similarity * 15)]
    in every tier. *)
Theorem breakdown_against_scorer
    (text : string) (is_license : bool) (s : float) (b : breakdown) :
  score_breakdown text is_license s = Some b ->
  keyword_matches b = keyword_stage (lower text) /\
  confidence_indicators b = field_stage (lower text) /\
  quality_stage text <= text_quality b <= quality_stage text + 4 /\
  base_license_score b = (if is_license then 70 else 55) /\
  int_of_float (s * 15) = Some (face_match_points b).
Proof.
  intros H. pose proof (breakdown_keywords_fields _ _ _ _ H) as [Hk Hf].
  split; [exact Hk|]. split; [exact Hf|].
  unfold score_breakdown in H.
  destruct (int_of_float (s * 15)) as [k|]; cbn [bind] in H; [|discriminate].
  injection H as <-. cbn [text_quality base_license_score face_match_points].
  split; [|split; reflexivity].
  unfold quality_stage, zsum. cbn [fold_left].
  destruct (Z.ltb_spec 20 (len (strip text)));
    destruct (Z.ltb_spec 5 (len (strip text))); try lia;
    repeat match goal with |- context [re_search ?p text] =>
             destruct (re_search p text) end; lia.
Qed.

Lemma breakdown_against_scorer_witness :
  keyword_matches (Breakdown 70 4 4 3 0) = keyword_stage (lower "Driver License") /\
  confidence_indicators (Breakdown 70 4 4 3 0) = field_stage (lower "Driver License") /\
  quality_stage "Driver License" <= text_quality (Breakdown 70 4 4 3 0)
    <= quality_stage "Driver License" + 4 /\
  base_license_score (Breakdown 70 4 4 3 0) = 70 /\
  int_of_float (0.3 * 15) = Some (face_match_points (Breakdown 70 4 4 3 0)).
Proof.
  apply (breakdown_against_scorer "Driver License" true 0.3). reflexivity.
Defined.

(** * More on the face comparator *)

Lemma fle_antisym_nonneg a b :
  (a = 0%float \/ fgt a 0 = true) -> (b = 0%float \/ fgt b 0 = true) ->
  fle a b = true -> fle b a = true -> a = b.
Proof.
  intros [->|Ha] [->|Hb] Hab Hba; trivial.
  - apply fgt_not_fle in Hb. congruence.
  - apply fgt_not_fle in Ha. congruence.
  - apply Prim2SF_inj.
    rewrite fgt_key in Ha, Hb. rewrite fle_key in Hab, Hba.
    change (Prim2SF 0) with (S754_zero false) in *.
    destruct (Prim2SF a) as [sa|sa| |sa ma ea], (Prim2SF b) as [sb|sb| |sb mb eb];
      try destruct sa; try destruct sb;
      unfold not_nan, lex_lt, lex_le in *; cbn [SFkey fst snd] in *;
      try lia; try reflexivity.
    assert (ea = eb) by lia. assert (Zpos ma = Zpos mb) by lia.
    congruence.
Qed.

Section ComparatorMore.
Variable Encoding : Type.
Variable face_distance : Encoding -> Encoding -> float.

Lemma list_prod_nil_r (A : list Encoding) :
  list_prod A (@nil Encoding) = [].
Proof. induction A; cbn; auto. Qed.

(** The result against the similarities within the tolerance. *)
Lemma compare_faces_char (A B : list Encoding) :
  let r := compare_faces face_distance A B in
  let M := matching_similarities face_distance A B in
  fle 0 r = true /\ (r = 0%float \/ In r M) /\
  (forall x, In x M -> fle x r = true).
Proof.
  cbn zeta. unfold compare_faces, matching_similarities.
  destruct A as [|a A].
  { cbn. repeat split; auto; intros x []. }
  destruct B as [|b B].
  { rewrite list_prod_nil_r. cbn. repeat split; auto; intros x []. }
  unfold compare_faces_log. rewrite loops_as_pairs.
  pose proof (fold_step_spec Encoding face_distance
                (list_prod (a :: A) (b :: B)) 0%float [] zero_not_nan)
    as (_ & _ & Hle & Hin & Hall).
  cbn zeta in *. auto.
Qed.

Lemma similarity_form (A B : list Encoding) x :
  In x (matching_similarities face_distance A B) ->
  x = 0%float \/ fgt x 0 = true.
Proof.
  unfold matching_similarities. rewrite in_map_iff.
  intros (p & <- & _). unfold pair_similarity.
  destruct (max0_cases (1 - face_distance (fst p) (snd p))) as [->|[-> ?]]; auto.
Qed.

Lemma similarities_incl (A A' B B' : list Encoding) :
  incl A A' -> incl B B' ->
  incl (matching_similarities face_distance A B)
       (matching_similarities face_distance A' B').
Proof.
  intros HA HB x. unfold matching_similarities. rewrite !in_map_iff.
  intros ([a b] & Hx & Hp). exists (a, b). split; [exact Hx|].
  rewrite filter_In in *. destruct Hp as [Hp Hm]. split; [|exact Hm].
  rewrite in_prod_iff in *. destruct Hp. split; auto.
Qed.

Lemma compare_faces_ge_zero (A B : list Encoding) :
  fle 0 (compare_faces face_distance A B) = true.
Proof. exact (proj1 (compare_faces_char A B)). Qed.

Lemma compare_faces_le (A A' B B' : list Encoding) :
  incl A A' -> incl B B' ->
  fle (compare_faces face_distance A B) (compare_faces face_distance A' B')
    = true.
Proof.
  intros HA HB.
  destruct (compare_faces_char A B) as (_ & [->|Hin] & _).
  - apply compare_faces_ge_zero.
  - apply (proj2 (proj2 (compare_faces_char A' B'))).
    now apply (similarities_incl A A' B B').
Qed.

(** X11: whatever the distance function returns (a NaN, a negative number,
    an infinity), the comparator returns a number that is not a NaN and
    not below 0. *)
Theorem compare_faces_nonneg (A B : list Encoding) :
  fle 0 (compare_faces face_distance A B) = true.
Proof. apply compare_faces_ge_zero. Qed.

(** X12: more faces never lower the result: if every encoding of [A] is
    in [A'] and every encoding of [B] in [B'], the result on [A], [B] is at
    most the result on [A'], [B']. *)
Theorem compare_faces_monotone (A A' B B' : list Encoding) :
  incl A A' -> incl B B' ->
  fle (compare_faces face_distance A B) (compare_faces face_distance A' B')
    = true.
Proof. apply compare_faces_le. Qed.

(** X13: the result does not depend on the order of the encodings nor on
    repetitions among them. *)
Theorem compare_faces_order_independent (A A' B B' : list Encoding) :
  (forall a, In a A <-> In a A') -> (forall b, In b B <-> In b B') ->
  compare_faces face_distance A B = compare_faces face_distance A' B'.
Proof.
  intros HA HB.
  assert (Hform : forall X Y,
            compare_faces face_distance X Y = 0%float \/
            fgt (compare_faces face_distance X Y) 0 = true).
  { intros X Y. destruct (compare_faces_char X Y) as (_ & [H|H] & _); [now left|].
    apply (similarity_form X Y _ H). }
  apply fle_antisym_nonneg; auto.
  - apply compare_faces_le; intros x; [apply HA|apply HB].
  - apply compare_faces_le; intros x; [apply HA|apply HB].
Qed.
End ComparatorMore.

(** * Subtracting a distance from one *)

Lemma shl_align_spec m e e' :
  e' <= e ->
  Zpos (fst (shl_align m e e')) = Zpos m * 2 ^ (e - e') /\
  snd (shl_align m e e') = e'.
Proof.
  intros H. unfold shl_align.
  destruct (e' - e) as [|p|p] eqn:E; try lia.
  - assert (e' = e) as -> by lia. cbn [fst snd]. rewrite Z.sub_diag. cbn. lia.
  - cbn [fst snd]. split; [|reflexivity].
    change (Pos.iter xO m p) with (shift_pos p m).
    rewrite shift_pos_correct. replace (e - e') with (Zpos p) by lia.
    change (Z.pow_pos 2 p) with (2 ^ Zpos p). lia.
Qed.

Lemma shl_align_id m e e' : e <= e' -> shl_align m e e' = (m, e).
Proof. intros H. unfold shl_align. destruct (e' - e) eqn:E; try reflexivity; lia. Qed.

(** [binary_round_aux] on a 53-digit mantissa in the normal range returns
    the float unchanged. *)
Lemma bra_exact sx P e :
  Zpos (digits2_pos P) = 53 -> -1074 <= e <= 971 ->
  binary_round_aux prec emax sx (Zpos P) e loc_Exact = S754_finite sx P e.
Proof.
  intros Hd He.
  unfold binary_round_aux, shr_fexp, fexp, SpecFloat.emin, emax, prec.
  cbn [Zdigits2 shr_record_of_loc]. rewrite Hd.
  rewrite Z.max_l by lia. replace (53 + e - 53 - e) with 0 by lia.
  cbn [shr shr_m loc_of_shr_record round_nearest_even Zdigits2
       shr_record_of_loc].
  rewrite Hd. rewrite Z.max_l by lia. replace (53 + e - 53 - e) with 0 by lia.
  cbn [shr shr_m]. destruct (Z.leb_spec e (1024 - 53)); [reflexivity|lia].
Qed.

Lemma digits2_shift (P : positive) (j : Z) (Q : positive) :
  0 <= j -> Zpos Q = Zpos P * 2 ^ j ->
  Zpos (digits2_pos Q) = Zpos (digits2_pos P) + j.
Proof.
  intros Hj HQ. apply digits2_unique. rewrite HQ.
  destruct (digits2_bounds P) as [Hlo Hhi].
  assert (Hp := pow2_pos j Hj).
  replace (Zpos (digits2_pos P) + j - 1) with ((Zpos (digits2_pos P) - 1) + j) by lia.
  rewrite !Z.pow_add_r by lia. nia.
Qed.

(** [binary_round] of a positive integer [D] scaled by [2^e], when the
    result is a normal number: a float with a 53-digit mantissa that
    denotes [D * 2^e] itself when [D] has at most 53 digits, and [D]
    rounded at the position [digits - 53] otherwise. *)
Lemma binary_round_normal sx (D : positive) e :
  let d := Zpos (digits2_pos D) in
  -1074 <= d + e - 53 -> d + e - 53 + 1 <= 971 ->
  exists m' e',
    binary_round prec emax sx D e = S754_finite sx m' e' /\
    Zpos (digits2_pos m') = 53 /\
    d + e - 53 <= e' <= d + e - 53 + 1 /\
    (d <= 53 -> e' = d + e - 53 /\ Zpos m' = Zpos D * 2 ^ (53 - d)) /\
    (53 < d -> Zpos m' * 2 ^ (e' - (d + e - 53)) = rnd_even (Zpos D) (d - 53)).
Proof.
  intros d Hlo Hhi. unfold binary_round, fexp, SpecFloat.emin, emax, prec.
  fold d. rewrite Z.max_l by lia.
  destruct (Z.le_gt_cases d 53) as [Hd|Hd].
  - destruct (shl_align_spec D e (d + e - 53) ltac:(lia)) as [Hm He].
    destruct (shl_align D e (d + e - 53)) as [mz ez]. cbn [fst snd] in Hm, He.
    subst ez. replace (e - (d + e - 53)) with (53 - d) in Hm by lia.
    assert (Hdz : Zpos (digits2_pos mz) = 53).
    { rewrite (digits2_shift D (53 - d) mz ltac:(lia) Hm). fold d. lia. }
    pose proof (bra_exact sx mz (d + e - 53) Hdz ltac:(lia)) as Hx.
    unfold prec, emax in Hx. rewrite Hx.
    exists mz, (d + e - 53). repeat split; trivial; lia.
  - rewrite (shl_align_id D e (d + e - 53) ltac:(lia)).
    destruct (bra_normal sx D e (d - 53) ltac:(fold d; lia) ltac:(lia)
                ltac:(lia) ltac:(lia)) as (m' & e' & Heq & He' & Hval & Hd').
    unfold prec, emax in Heq.
    exists m', e'. rewrite Heq. repeat split; trivial; try lia.
    intros _. rewrite <- Hval. do 2 f_equal. lia.
Qed.

Lemma SF_three_fifths : Prim2SF 0.6 = S754_finite false 5404319552844595 (-53).
Proof. vm_compute. reflexivity. Qed.

(** [1 - d] for a positive float [d <= 0.6]: a positive normal float
    between 0.4 and 1. *)
Lemma SFsub_one md ed :
  bounded prec emax md ed = true ->
  ed < -53 \/ (ed = -53 /\ Zpos md <= 5404319552844595) ->
  exists m' e',
    SF64sub (S754_finite false 4503599627370496 (-52)) (S754_finite false md ed)
      = S754_finite false m' e' /\
    Zpos (digits2_pos m') = 53 /\
    (-54 < e' \/ (e' = -54 /\ 7205759403792794 <= Zpos m')) /\
    (e' < -52 \/ (e' = -52 /\ Zpos m' <= 4503599627370496)).
Proof.
  intros Hv Hle.
  unfold bounded, canonical_mantissa, fexp, SpecFloat.emin, emax, prec in Hv.
  apply andb_true_iff in Hv. destruct Hv as [Hc _]. apply Z.eqb_eq in Hc.
  assert (Hdm : Zpos (digits2_pos md) <= 53) by lia.
  assert (Hed : -1074 <= ed) by lia.
  pose proof (digits2_bounds md) as [_ Hmd].
  assert (Hmd53 : Zpos md < 2 ^ 53).
  { eapply Z.lt_le_trans; [exact Hmd|]. apply Z.pow_le_mono_r; lia. }
  change (2 ^ 53) with 9007199254740992 in Hmd53.
  set (j := -53 - ed). assert (Hj : 0 <= j) by (unfold j; lia).
  assert (HJ := pow2_pos j Hj). set (J := 2 ^ j) in *.
  assert (HJ2 : 1 <= j -> 2 <= J).
  { intros H1. unfold J. change 2 with (2 ^ 1) at 1.
    apply Z.pow_le_mono_r; lia. }
  assert (Hmdle : Zpos md <= 5404319552844595 * J).
  { destruct Hle as [Hlt|[-> Hm]].
    - specialize (HJ2 ltac:(unfold j; lia)). nia.
    - unfold J, j. cbn. lia. }
  (* the operands aligned on the exponent of d *)
  unfold SF64sub, SFsub. rewrite Z.min_r by lia.
  destruct (shl_align_spec 4503599627370496 (-52) ed ltac:(lia)) as [H1 _].
  destruct (shl_align_spec md ed ed ltac:(lia)) as [H2 _].
  rewrite Z.sub_diag in H2. change (2 ^ 0) with 1 in H2.
  replace (-52 - ed) with (j + 1) in H1 by (unfold j; lia).
  rewrite pow2_succ in H1 by lia. fold J in H1.
  unfold prec, emax. cbn [cond_Zopp]. rewrite H1, H2. clear H1 H2.
  set (D := 4503599627370496 * (2 * J) - Zpos md * 1).
  assert (HD : 3602879701896397 * J <= D < 9007199254740992 * J) by (unfold D; lia).
  destruct D as [|Dp|Dp] eqn:ED; try lia.
  cbn [binary_normalize].
  (* the number of digits of the difference *)
  pose proof (digits2_bounds Dp) as [Hlo Hhi].
  set (d := Zpos (digits2_pos Dp)) in *.
  assert (Hd : d = 52 + j \/ d = 53 + j).
  { assert (2 ^ (51 + j) <= Zpos Dp).
    { rewrite Z.pow_add_r by lia. fold J.
      change (2 ^ 51) with 2251799813685248. lia. }
    assert (Zpos Dp < 2 ^ (53 + j)).
    { rewrite Z.pow_add_r by lia. fold J.
      change (2 ^ 53) with 9007199254740992. lia. }
    assert (51 + j < d).
    { apply (Z.pow_lt_mono_r_iff 2); [lia|unfold d; lia|lia]. }
    assert (d - 1 < 53 + j).
    { apply (Z.pow_lt_mono_r_iff 2); lia. }
    lia. }
  destruct (binary_round_normal false Dp ed) as (m' & e' & Heq & Hd' & He' & Hex & Hrnd).
  { fold d. unfold j in Hd. lia. }
  { fold d. unfold j in Hd. lia. }
  fold d in He', Hex, Hrnd. unfold prec, emax in Heq.
  exists m', e'. split; [exact Heq|]. split; [exact Hd'|].
  pose proof (digits2_bounds m') as [Hm'lo Hm'hi]. rewrite Hd' in Hm'lo, Hm'hi.
  change (2 ^ (53 - 1)) with 4503599627370496 in Hm'lo.
  change (2 ^ 53) with 9007199254740992 in Hm'hi.
  destruct (Z.le_gt_cases d 53) as [Hsmall|Hbig].
  - (* the difference is a float: no rounding *)
    destruct (Hex Hsmall) as [-> Hm']. clear Hex Hrnd.
    destruct Hd as [Hd|Hd].
    + assert (j = 0 \/ j = 1) as [Hj0|Hj1] by lia.
      * split; [right|left; unfold j in *; lia].
        split; [unfold j in *; lia|].
        rewrite Hm'. replace (53 - d) with 1 by lia.
        unfold J in HD. rewrite Hj0 in HD. cbn in HD. cbn. lia.
      * split; [right|left; unfold j in *; lia].
        split; [unfold j in *; lia|].
        rewrite Hm'. replace (53 - d) with 0 by lia.
        unfold J in HD. rewrite Hj1 in HD. cbn in HD. cbn. lia.
    + split; left; unfold j in *; lia.
  - (* the difference is rounded at position d - 53 *)
    specialize (Hrnd Hbig). clear Hex.
    destruct Hd as [Hd|Hd].
    + (* value in [0.4, 0.5) *)
      split; [|left; unfold j in *; lia].
      assert (e' = -54 \/ e' = -53) as [->| ->] by (unfold j in *; lia);
        [right|left; lia]. split; [reflexivity|].
      replace (-54 - (d + ed - 53)) with 0 in Hrnd by (unfold j in *; lia).
      change (2 ^ 0) with 1 in Hrnd. rewrite Z.mul_1_r in Hrnd. rewrite Hrnd.
      rewrite <- (rnd_even_fix (d - 53) 7205759403792794) by lia.
      apply rnd_even_mono; [lia|]. split.
      * apply Z.mul_nonneg_nonneg; [lia|apply Z.pow_nonneg; lia].
      * replace (d - 53) with (j - 1) by lia.
        assert (J = 2 * 2 ^ (j - 1)) as HJ'.
        { unfold J. replace j with ((j - 1) + 1) at 1 by lia.
          apply pow2_succ. lia. }
        lia.
    + (* value in [0.5, 1) *)
      split; [left; unfold j in *; lia|].
      assert (e' = -53 \/ e' = -52) as [->| ->] by (unfold j in *; lia);
        [left; lia|right]. split; [reflexivity|].
      replace (-52 - (d + ed - 53)) with 1 in Hrnd by (unfold j in *; lia).
      change (2 ^ 1) with 2 in Hrnd.
      assert (rnd_even (Zpos Dp) (d - 53) <= 9007199254740992).
      { rewrite <- (rnd_even_fix (d - 53) 9007199254740992) by lia.
        apply rnd_even_mono; [lia|]. split; [lia|].
        replace (d - 53) with j by lia. fold J. lia. }
      lia.
Qed.

Lemma one_minus_distance d :
  fle 0 d = true -> fle d 0.6 = true ->
  fle 0.4 (1 - d) = true /\ fle (1 - d) 1 = true /\ fgt (1 - d) 0 = true.
Proof.
  rewrite !fle_key, fgt_key, sub_spec, SF_three_fifths, SF_two_fifths, SF_one.
  change (Prim2SF 0) with (S754_zero false).
  pose proof (Prim2SF_valid d) as Hv.
  destruct (Prim2SF d) as [sd|sd| |sd md ed]; try destruct sd;
    unfold not_nan, lex_lt, lex_le; cbn [SFkey fst snd];
    intros H0 H6; try lia.
  - cbn. lia.
  - cbn. lia.
  - cbn [valid_binary] in Hv.
    destruct (SFsub_one md ed Hv ltac:(lia)) as (m' & e' & -> & _ & Hlo & Hhi).
    cbn [SFkey fst snd]. lia.
Qed.

Section ComparatorRange.
Variable Encoding : Type.
Variable face_distance : Encoding -> Encoding -> float.
Hypothesis distance_nonneg : forall a b, fle 0 (face_distance a b) = true.

Lemma matching_similarity_range (A B : list Encoding) x :
  In x (matching_similarities face_distance A B) ->
  fle 0.4 x = true /\ fle x 1 = true.
Proof.
  unfold matching_similarities. rewrite in_map_iff.
  intros (p & <- & Hp). apply filter_In in Hp. destruct Hp as [_ Hm].
  unfold matching in Hm. unfold pair_similarity, max0.
  destruct (one_minus_distance _ (distance_nonneg (fst p) (snd p)) Hm)
    as (H4 & H1 & Hpos).
  rewrite Hpos. now split.
Qed.

Lemma compare_faces_range_aux (A B : list Encoding) :
  compare_faces face_distance A B = 0%float \/
  (fle 0.4 (compare_faces face_distance A B) = true /\
   fle (compare_faces face_distance A B) 1 = true).
Proof.
  destruct (compare_faces_char Encoding face_distance A B) as (_ & [H|H] & _);
    [now left|right].
  now apply (matching_similarity_range A B).
Qed.

(** X14: when the distance function never returns a negative number or a
    NaN, as a norm does, the comparator returns either 0.0 or a similarity
    between 0.4 and 1: a similarity strictly between 0 and 0.4 never
    reaches the scorer. *)
Theorem compare_faces_range (A B : list Encoding) :
  compare_faces face_distance A B = 0%float \/
  (fle 0.4 (compare_faces face_distance A B) = true /\
   fle (compare_faces face_distance A B) 1 = true).
Proof. apply compare_faces_range_aux. Qed.

Lemma two_fifths_exactly r :
  fle 0.4 r = true -> fgt r 0.4 = false -> r = 0.4%float.
Proof.
  intros H4 Hn.
  assert (Hr : fle r r = true) by (clear Hn; float_order).
  assert (H44 : fle 0.4 0.4 = true) by reflexivity.
  pose proof (fle_total r 0.4 Hr H44 Hn) as Hle.
  apply fle_antisym_nonneg; trivial; right; [|reflexivity].
  revert H4. rewrite fle_key, fgt_key, SF_two_fifths.
  change (Prim2SF 0) with (S754_zero false).
  unfold not_nan, lex_lt, lex_le. cbn [SFkey fst snd].
  destruct (SFkey (Prim2SF r)) as [[k1 k2] k3]. cbn [fst snd]. lia.
Qed.

(** X15: with such a distance function the scorer never raises on the
    comparator's result, for any text and flag; the score is in [20,100],
    and the face stage contributes 40 or 20 when no pair is within the
    tolerance, exactly 56 when the best similarity is exactly 0.4, and
    between 78 and 90 otherwise. *)
Theorem comparator_then_scorer
    (A B : list Encoding) (text : string) (is_license : bool) :
  let s := compare_faces face_distance A B in
  exists base v,
    face_stage is_license s = Some base /\
    calculate_safety_score text is_license s = Some v /\
    20 <= v <= 100 /\
    ((s = 0%float /\ base = if is_license then 40 else 20) \/
     (s = 0.4%float /\ base = 56) \/
     (fgt s 0.4 = true /\ 78 <= base <= 90)).
Proof.
  cbn zeta. set (s := compare_faces face_distance A B).
  assert (Hcases :
    exists base, face_stage is_license s = Some base /\ 20 <= base /\
      ((s = 0%float /\ base = if is_license then 40 else 20) \/
       (s = 0.4%float /\ base = 56) \/
       (fgt s 0.4 = true /\ 78 <= base <= 90))).
  { destruct (compare_faces_range_aux A B) as [H0|[H4 H1]]; fold s in H0 || fold s in H4, H1.
    - rewrite H0. exists (if is_license then 40 else 20).
      split; [now destruct is_license|]. split; [destruct is_license; lia|].
      left. now split.
    - destruct (fgt s 0.4) eqn:Eg.
      + assert (Hs : fle s s = true) by (clear Eg; float_order).
        destruct (bonus_twenty s s Eg Hs H1) as (k & k' & Ek & _ & Hk).
        exists (70 + k). unfold face_stage. rewrite Eg, Ek. cbn [bind].
        split; [reflexivity|]. split; [lia|]. right. right. split; [reflexivity|lia].
      + rewrite (two_fifths_exactly s H4 Eg). exists 56.
        split; [reflexivity|]. split; [lia|]. right. left. now split. }
  destruct Hcases as (base & Ef & Hb & Hc).
  exists base, (clamp (base + text_points text)).
  split; [exact Ef|]. split.
  - rewrite calculate_safety_score_stages, Ef. reflexivity.
  - split; [|exact Hc].
    pose proof (text_points_nonneg text).
    pose proof (clamp_range (base + text_points text)).
    pose proof (clamp_ge_20 (base + text_points text) ltac:(lia)). lia.
Qed.
End ComparatorRange.

(** * The handler *)


Lemma no_match_score text is_license s :
  fgt s 0.2 = false ->
  calculate_safety_score text is_license s
  = Some (clamp ((if is_license then 40 else 20) + text_points text)).
Proof.
  intros H2.
  assert (H4 : fgt s 0.4 = false).
  { destruct (fgt s 0.4) eqn:E; [|reflexivity].
    apply above_two_fifths in E. destruct E. congruence. }
  rewrite calculate_safety_score_stages. unfold face_stage. rewrite H4, H2.
  now destruct is_license.
Qed.

Lemma keyword_stage_without_flag text :
  is_license_text text = false -> keyword_stage (lower text) <= 3.
Proof.
  unfold is_license_text, ocr_keywords. cbn [existsb].
  rewrite !orb_false_iff. intros (Hl & Hd & Hi & Hn & Hs & Hm & Hp & _).
  rewrite keyword_stage_sum. unfold license_keywords.
  cbn [map fst snd]. rewrite Hl, Hd, Hi, Hn, Hs, Hm, Hp.
  unfold zsum. cbn [fold_left].
  destruct (contains "motor" (lower text)),
           (contains "vehicle" (lower text)),
           (contains "card" (lower text)); cbn; lia.
Qed.

Section HandlerFacts.
Variables Bytes Image Encoding : Type.
Variable image_open : Bytes -> attempt Image.
Variable to_rgb : Image -> attempt Image.
Variable size : Image -> Z * Z.
Variable resize : Image -> Z -> Z -> attempt Image.
Variable enhance : Image -> enhancer -> float -> attempt Image.
Variable save_temp : Image -> attempt string.
Variable image_to_string : string -> string -> option string.
Variable extract_faces : string -> list Encoding.
Variable unlink : string -> attempt unit.
Variable face_distance : Encoding -> Encoding -> float.
Variable round3 : float -> float.

Local Abbreviation handler :=
  (ocr image_open to_rgb size resize enhance save_temp image_to_string
       extract_faces unlink face_distance round3).
Local Abbreviation license_of :=
  (read_license image_open to_rgb size resize enhance save_temp
                image_to_string extract_faces unlink).
Local Abbreviation user_of :=
  (read_user image_open to_rgb save_temp extract_faces unlink).
Local Abbreviation body_of := (assemble face_distance round3).

(** What a run that passed the checks on the request went through. *)
Lemma ocr_past_validation files :
  (forall message, handler files = Rejected message ->
                   message = "Invalid or unsupported image format") ->
  exists license_file user_photo_file,
    files "license_image" = Some license_file /\
    files "user_photo" = Some user_photo_file /\
    filename license_file <> "" /\ filename user_photo_file <> "" /\
    has_allowed_extension (filename license_file) /\
    has_allowed_extension (filename user_photo_file) /\
    handler files =
      match (license <~ license_of license_file ;;
             let '(text, license_face_encodings) := license in
             user_face_encodings <~ user_of user_photo_file ;;
             body_of text license_face_encodings user_face_encodings) with
      | inr body => Verified body
      | inl UnidentifiedImageError =>
          Rejected "Invalid or unsupported image format"
      | inl OtherException => Failed
      end.
Proof.
  unfold ocr. intros H.
  destruct (files "license_image") as [l|];
    [|specialize (H _ eq_refl); discriminate].
  destruct (files "user_photo") as [u|];
    [|specialize (H _ eq_refl); discriminate].
  destruct (String.eqb_spec (filename l) "") as [El|El];
    [specialize (H _ eq_refl); discriminate|].
  destruct (String.eqb_spec (filename u) "") as [Eu|Eu];
    [specialize (H _ eq_refl); discriminate|].
  cbn [orb] in *.
  destruct (allowed_file_char (filename l)) as [[bl Hbl] Hl].
  destruct (allowed_file_char (filename u)) as [[bu Hbu] Hu].
  rewrite Hbl in *. destruct bl; [|specialize (H _ eq_refl); discriminate].
  rewrite Hbu in *. destruct bu; [|specialize (H _ eq_refl); discriminate].
  exists l, u. repeat split; trivial; [now apply Hl|now apply Hu].
Qed.

Lemma assemble_inr text license_encodings user_encodings body :
  body_of text license_encodings user_encodings = inr body ->
  let s := compare_faces face_distance license_encodings user_encodings in
  v_text body = text /\
  v_is_license body = is_license_text text /\
  v_face_match_score body = round3 s /\
  v_license_faces body = Z.of_nat (List.length license_encodings) /\
  v_user_faces body = Z.of_nat (List.length user_encodings) /\
  calculate_safety_score text (is_license_text text) s
    = Some (v_safety_score body) /\
  v_safety_status body = get_safety_status (v_safety_score body) /\
  v_confidence_level body = get_confidence_level (v_safety_score body) /\
  score_breakdown text (is_license_text text) s = Some (v_score_breakdown body).
Proof.
  unfold assemble. cbn zeta.
  destruct (calculate_safety_score _ _ _) as [v|]; cbn [raising abind];
    [|discriminate].
  destruct (score_breakdown _ _ _) as [b|]; cbn [raising abind]; [|discriminate].
  intros H. injection H as <-. cbn. repeat split; reflexivity.
Qed.


Lemma ocr_verified files body :
  handler files = Verified body ->
  exists license_file user_photo_file text license_encodings user_encodings,
    files "license_image" = Some license_file /\
    files "user_photo" = Some user_photo_file /\
    has_allowed_extension (filename license_file) /\
    has_allowed_extension (filename user_photo_file) /\
    license_of license_file = inr (text, license_encodings) /\
    user_of user_photo_file = inr user_encodings /\
    body_of text license_encodings user_encodings = inr body.
Proof.
  intros Hv.
  destruct (ocr_past_validation files) as (l & u & Hl & Hu & _ & _ & Al & Au & Hrun).
  { intros m Hm. rewrite Hv in Hm. discriminate. }
  rewrite Hv in Hrun.
  destruct (license_of l) as [e|[text le]] eqn:E1; cbn [abind] in Hrun.
  { destruct e; discriminate. }
  destruct (user_of u) as [e|ue] eqn:E2; cbn [abind] in Hrun.
  { destruct e; discriminate. }
  destruct (body_of text le ue) as [e|b] eqn:E3.
  { destruct e; discriminate. }
  injection Hrun as ->. now exists l, u, text, le, ue.
Qed.

(** X16: the images are looked at only after the request passed the
    checks: whenever the answer is anything but one of the four rejections
    of the request itself, both uploads are present, have a name, and the
    name ends in .png, .jpg or .jpeg up to case. *)
Theorem ocr_runs_only_on_allowed_files files :
  (forall message,
     ocr image_open to_rgb size resize enhance save_temp image_to_string
       extract_faces unlink face_distance round3 files = Rejected message ->
     message = "Invalid or unsupported image format") ->
  exists license_file user_photo_file,
    files "license_image" = Some license_file /\
    files "user_photo" = Some user_photo_file /\
    filename license_file <> "" /\ filename user_photo_file <> "" /\
    has_allowed_extension (filename license_file) /\
    has_allowed_extension (filename user_photo_file).
Proof.
  intros H.
  destruct (ocr_past_validation files H) as (l & u & Hl & Hu & Nl & Nu & Al & Au & _).
  now exists l, u.
Qed.


(** X18: a 200 answer that reports no face in one of the two images has a
    score of at most 74, and at most 42 when the text is not that of a
    document; its status is never very_safe. *)
Theorem ocr_without_faces_is_capped files body :
  ocr image_open to_rgb size resize enhance save_temp image_to_string
    extract_faces unlink face_distance round3 files = Verified body ->
  v_license_faces body = 0 \/ v_user_faces body = 0 ->
  20 <= v_safety_score body <= 74 /\
  (v_is_license body = false -> v_safety_score body <= 42) /\
  v_safety_status body <> very_safe.
Proof.
  intros Hv Hnone.
  destruct (ocr_verified files body Hv)
    as (l & u & text & le & ue & _ & _ & _ & _ & _ & _ & Hb).
  destruct (assemble_inr _ _ _ _ Hb)
    as (_ & Hi & _ & Hlf & Huf & Hs & Hst & _). cbn zeta in Hs.
  assert (H0 : compare_faces face_distance le ue = 0%float).
  { rewrite Hlf, Huf in Hnone. unfold compare_faces, compare_faces_log.
    destruct le as [|a le]; [reflexivity|].
    destruct ue as [|b ue]; [reflexivity|]. cbn in Hnone. lia. }
  rewrite H0, no_match_score in Hs by reflexivity. injection Hs as Hs.
  pose proof (text_points_nonneg text) as Hnn.
  pose proof (text_points_le text) as Hle.
  assert (Hcap : 20 <= v_safety_score body <= 74).
  { rewrite <- Hs. unfold clamp. destruct (is_license_text text); lia. }
  split; [exact Hcap|]. split.
  - intros Hf. rewrite Hi in Hf.
    pose proof (keyword_stage_without_flag text Hf).
    assert (text_points text <= 22).
    { unfold text_points. pose proof (quality_stage_le text).
      pose proof (field_stage_le (lower text)). lia. }
    rewrite <- Hs, Hf. unfold clamp. lia.
  - rewrite Hst. unfold get_safety_status.
    destruct (Z.leb_spec 80 (v_safety_score body)); [lia|].
    repeat match goal with |- context [?a <=? ?b] => destruct (a <=? b) end;
      discriminate.
Qed.

Hypothesis distance_nonneg : forall a b, fle 0 (face_distance a b) = true.

Lemma assemble_total text license_encodings user_encodings :
  exists body, body_of text license_encodings user_encodings = inr body.
Proof.
  unfold assemble. cbn zeta.
  set (s := compare_faces face_distance license_encodings user_encodings).
  assert (Hs : s = 0%float \/ (fle 0.4 s = true /\ fle s 1 = true)).
  { apply compare_faces_range_aux. exact distance_nonneg. }
  assert (Hscore : exists v, calculate_safety_score text (is_license_text text) s
                             = Some v).
  { destruct Hs as [->|[H4 H1]].
    - rewrite no_match_score by reflexivity. eauto.
    - assert (Hu : in_unit s).
      { split; [|exact H1]. clear H1. revert H4.
        rewrite !fle_key, SF_two_fifths.
        change (Prim2SF 0) with (S754_zero false).
        unfold not_nan, lex_le. cbn [SFkey fst snd].
        destruct (SFkey (Prim2SF s)) as [[k1 k2] k3]. cbn [fst snd]. lia. }
      assert (Hss : fle s s = true) by (clear Hu H1; float_order).
      destruct (face_stage_mono (is_license_text text) s s Hu Hu Hss)
        as (b & _ & E & _).
      rewrite calculate_safety_score_stages, E. cbn [bind]. eauto. }
  assert (Hbreak : exists k, int_of_float (s * 15) = Some k).
  { destruct Hs as [->|[H4 H1]]; [exists 0; reflexivity|].
    assert (H2 : fgt s 0.2 = true).
    { revert H4. rewrite fle_key, fgt_key, SF_two_fifths, SF_one_fifth.
      unfold not_nan, lex_lt, lex_le. cbn [SFkey fst snd].
      destruct (SFkey (Prim2SF s)) as [[k1 k2] k3]. cbn [fst snd]. lia. }
    assert (Hss : fle s s = true) by (clear H2 H1; float_order).
    destruct (int_mul_mono 15 _ _ SF_fifteen eq_refl ltac:(lia) s s H2 Hss H1)
      as (k & _ & E & _). eauto. }
  destruct Hscore as [v ->]. cbn [raising abind].
  unfold score_breakdown. destruct Hbreak as [k ->]. cbn [bind raising abind].
  eauto.
Qed.

(** X19: when the distance function never returns a negative number or a
    NaN, the comparing and scoring part of the handler cannot fail: from any
    text and any two sets of encodings it builds a body, so a 500 answer
    always comes from an exception other than [UnidentifiedImageError]
    raised while one of the two images was read (lines 262-336). *)
Theorem ocr_failure_comes_from_reading files :
  (forall text license_encodings user_encodings,
     exists body,
       assemble face_distance round3 text license_encodings user_encodings
       = inr body) /\
  (ocr image_open to_rgb size resize enhance save_temp image_to_string
     extract_faces unlink face_distance round3 files = Failed ->
   (exists license_file,
      files "license_image" = Some license_file /\
      read_license image_open to_rgb size resize enhance save_temp
        image_to_string extract_faces unlink license_file
      = inl OtherException) \/
   (exists user_photo_file,
      files "user_photo" = Some user_photo_file /\
      read_user image_open to_rgb save_temp extract_faces unlink
        user_photo_file
      = inl OtherException)).
Proof.
  split; [apply assemble_total|]. intros Hf.
  destruct (ocr_past_validation files) as (l & u & Hl & Hu & _ & _ & _ & _ & Hrun).
  { intros m Hm. rewrite Hf in Hm. discriminate. }
  rewrite Hf in Hrun.
  destruct (license_of l) as [e|[text le]] eqn:E1; cbn [abind] in Hrun.
  { destruct e; [discriminate|]. left. now exists l. }
  destruct (user_of u) as [e|ue] eqn:E2; cbn [abind] in Hrun.
  { destruct e; [discriminate|]. right. now exists u. }
  destruct (assemble_total text le ue) as [b Hb]. rewrite Hb in Hrun.
  discriminate.
Qed.
End HandlerFacts.

(** * Concrete runs *)

Lemma sample_distance_nonneg a b : fle 0 (sample_distance a b) = true.
Proof. unfold sample_distance. destruct (a =? b); reflexivity. Defined.

Lemma extract_faces_result_witness :
  sample_extract "photo.png" = [7] <->
  exists image d locations,
    prepared_image (fun _ => Some tt) (fun _ => (480, 640))
      (fun image _ _ => Some image) "photo.png" = Some image /\
    sample_locations image d = Some locations /\ locations <> [] /\
    (forall d', detector_rank d' < detector_rank d ->
                sample_locations image d' = Some []) /\
    Some (map (fun _ : unit => 7) locations) = Some [7].
Proof.
  apply (extract_faces_result unit unit Z (fun _ => Some tt)
           (fun _ => (480, 640)) (fun image _ _ => Some image)
           sample_locations (fun _ boxes => Some (map (fun _ => 7) boxes))
           "photo.png" [7]).
  discriminate.
Defined.

Lemma compare_faces_monotone_witness :
  fle (compare_faces sample_distance [1] [2])
      (compare_faces sample_distance [1; 2] [2; 3]) = true.
Proof.
  apply (compare_faces_monotone Z sample_distance [1] [1; 2] [2] [2; 3]).
  - intros x [<-|[]]. now left.
  - intros x [<-|[]]. now left.
Defined.

Lemma compare_faces_order_independent_witness :
  compare_faces sample_distance [1; 2] [2; 3]
  = compare_faces sample_distance [2; 1; 2] [3; 2].
Proof.
  apply (compare_faces_order_independent Z sample_distance
           [1; 2] [2; 1; 2] [2; 3] [3; 2]).
  - intros a. cbn. tauto.
  - intros b. cbn. tauto.
Defined.

Lemma compare_faces_range_witness :
  compare_faces sample_distance [1; 2] [2; 3] = 0%float \/
  (fle 0.4 (compare_faces sample_distance [1; 2] [2; 3]) = true /\
   fle (compare_faces sample_distance [1; 2] [2; 3]) 1 = true).
Proof.
  apply (compare_faces_range Z sample_distance sample_distance_nonneg).
Defined.

Lemma comparator_then_scorer_witness :
  exists base v,
    face_stage true (compare_faces sample_distance [1; 2] [2; 3]) = Some base /\
    calculate_safety_score "DRIVER LICENSE" true
      (compare_faces sample_distance [1; 2] [2; 3]) = Some v /\
    20 <= v <= 100 /\
    ((compare_faces sample_distance [1; 2] [2; 3] = 0%float /\ base = 40) \/
     (compare_faces sample_distance [1; 2] [2; 3] = 0.4%float /\ base = 56) \/
     (fgt (compare_faces sample_distance [1; 2] [2; 3]) 0.4 = true /\
      78 <= base <= 90)).
Proof.
  apply (comparator_then_scorer Z sample_distance sample_distance_nonneg
           [1; 2] [2; 3] "DRIVER LICENSE" true).
Defined.

Lemma ocr_runs_only_on_allowed_files_witness :
  exists license_file user_photo_file,
    sample_files "license_image" = Some license_file /\
    sample_files "user_photo" = Some user_photo_file /\
    filename license_file <> "" /\ filename user_photo_file <> "" /\
    has_allowed_extension (filename license_file) /\
    has_allowed_extension (filename user_photo_file).
Proof.
  apply (ocr_runs_only_on_allowed_files unit unit Z
           (fun _ => inr tt) (fun image => inr image) (fun _ => (640, 480))
           (fun image _ _ => inr image) (fun image _ _ => inr image)
           (fun _ => inr "tmp.png") (fun _ _ => Some "DRIVER LICENSE")
           (fun _ => [1]) (fun _ => inr tt) sample_distance (fun x => x)
           sample_files).
  intros message H. vm_compute in H. discriminate H.
Defined.

Lemma sample_ocr_verified :
  sample_ocr sample_files
  = Verified (Verification "DRIVER LICENSE" true 0.75 1 1 90 very_safe very_high
                (Breakdown 70 11 4 2 0)).
Proof. vm_compute. reflexivity. Defined.

Lemma sample_ocr_no_face_verified :
  sample_ocr_no_face sample_files
  = Verified (Verification "DRIVER LICENSE" true 0 0 0 45 moderate medium
                (Breakdown 70 0 4 2 0)).
Proof. vm_compute. reflexivity. Defined.


Lemma ocr_without_faces_is_capped_witness :
  let body := Verification "DRIVER LICENSE" true 0 0 0 45 moderate medium
                (Breakdown 70 0 4 2 0) in
  20 <= v_safety_score body <= 74 /\
  (v_is_license body = false -> v_safety_score body <= 42) /\
  v_safety_status body <> very_safe.
Proof.
  apply (ocr_without_faces_is_capped unit unit Z
           (fun _ => inr tt) (fun image => inr image) (fun _ => (640, 480))
           (fun image _ _ => inr image) (fun image _ _ => inr image)
           (fun _ => inr "tmp.png") (fun _ _ => Some "DRIVER LICENSE")
           (fun _ => []) (fun _ => inr tt) sample_distance (fun x => x)
           sample_files).
  - vm_compute. reflexivity.
  - left. reflexivity.
Defined.

Lemma ocr_failure_comes_from_reading_witness :
  (forall text license_encodings user_encodings,
     exists body,
       assemble sample_distance (fun x => x) text license_encodings
         user_encodings = inr body) /\
  sample_ocr_broken sample_files = Failed /\
  ((exists license_file,
      sample_files "license_image" = Some license_file /\
      read_license (Image := unit) (Encoding := Z)
        (fun _ => inr tt) (fun image => inr image) (fun _ => (640, 480))
        (fun image _ _ => inr image) sample_enhance_broken
        (fun _ => inr "tmp.png") (fun _ _ => Some "DRIVER LICENSE")
        (fun _ => [1]) (fun _ => inr tt) license_file = inl OtherException) \/
   (exists user_photo_file,
      sample_files "user_photo" = Some user_photo_file /\
      read_user (Image := unit) (Encoding := Z)
        (fun _ => inr tt) (fun image => inr image)
        (fun _ => inr "tmp.png") (fun _ => [1]) (fun _ => inr tt)
        user_photo_file = inl OtherException)).
Proof.
  assert (Hfailed : sample_ocr_broken sample_files = Failed)
    by (vm_compute; reflexivity).
  destruct (ocr_failure_comes_from_reading unit unit Z
              (fun _ => inr tt) (fun image => inr image) (fun _ => (640, 480))
              (fun image _ _ => inr image) sample_enhance_broken
              (fun _ => inr "tmp.png") (fun _ _ => Some "DRIVER LICENSE")
              (fun _ => [1]) (fun _ => inr tt) sample_distance (fun x => x)
              sample_distance_nonneg sample_files) as [Htotal Hwhy].
  split; [exact Htotal|]. split; [exact Hfailed|]. exact (Hwhy Hfailed).
Defined.

(** * Resizing: the arithmetic of the new dimensions *)

(** ** Conversion of an integer *)

Lemma float_of_int_spec (n : Z) :
  1 <= n < 2 ^ 53 ->
  exists m e,
    Prim2SF (float_of_int n) = S754_finite false m e /\
    Zpos (digits2_pos m) = 53 /\ -52 <= e <= 0 /\
    Zpos m = n * 2 ^ (- e).
Proof.
  intros Hn. unfold float_of_int.
  rewrite of_uint63_spec, Uint63.of_Z_spec.
  rewrite Z.mod_small.
  2:{ change Uint63Axioms.wB with (2 ^ 63). change (2 ^ 53) with 9007199254740992 in Hn.
      change (2 ^ 63) with 9223372036854775808. lia. }
  destruct n as [|D|D]; try lia.
  cbn [binary_normalize].
  pose proof (digits2_bounds D) as Hb.
  assert (Hd : 1 <= Zpos (digits2_pos D) <= 53).
  { split; [lia|].
    destruct (Z.le_gt_cases (Zpos (digits2_pos D)) 53) as [H|H]; [exact H|].
    assert (2 ^ 53 <= 2 ^ (Zpos (digits2_pos D) - 1))
      by (apply Z.pow_le_mono_r; lia).
    lia. }
  destruct (binary_round_normal false D 0) as (m & e & Heq & Hdm & He & Hsmall & _);
    cbn zeta; try lia.
  exists m, e. split; [exact Heq|]. split; [exact Hdm|].
  destruct (Hsmall ltac:(lia)) as [-> Hm]. split; [lia|].
  rewrite Hm. do 2 f_equal. lia.
Qed.

(** ** Rounding a quotient *)

(** The last step of [binary_round_aux] on a mantissa that was rounded to
    at most [2^53]. *)
Lemma round_finish sx M e :
  2 ^ 52 <= M <= 2 ^ 53 -> -1074 <= e -> e + 1 <= 971 ->
  exists m e2,
    (let '(mrs, e'') := shr_fexp prec emax M e loc_Exact in
     match shr_m mrs with
     | 0 => S754_zero sx
     | Zpos m => if e'' <=? emax - prec then S754_finite sx m e''
                 else S754_infinity sx
     | Zneg _ => S754_nan
     end) = S754_finite sx m e2 /\
    Zpos (digits2_pos m) = 53 /\ e <= e2 <= e + 1 /\
    Zpos m * 2 ^ (e2 - e) = M.
Proof.
  change (2 ^ 52) with 4503599627370496. change (2 ^ 53) with 9007199254740992.
  intros HM Hlo Hhi.
  unfold shr_fexp, fexp, SpecFloat.emin, emax, prec.
  destruct M as [|m|m]; try lia. cbn [Zdigits2 shr_record_of_loc].
  destruct (Z.eq_dec (Zpos m) 9007199254740992) as [Heq|Hne].
  - injection Heq as ->. cbn [digits2_pos Pos.succ].
    replace (Z.max _ _ - _) with 1 by (rewrite Z.max_l; lia).
    cbn [shr iter_pos shr_1 shr_m].
    exists 4503599627370496%positive, (e + 1).
    split; [|split; [reflexivity|split; [lia|]]].
    + destruct (Z.leb_spec (e + 1) (1024 - 53)); [reflexivity|lia].
    + replace (e + 1 - e) with 1 by lia. reflexivity.
  - assert (Hd : Zpos (digits2_pos m) = 53).
    { apply digits2_unique. change (2 ^ (53 - 1)) with 4503599627370496.
      change (2 ^ 53) with 9007199254740992. lia. }
    rewrite Hd. rewrite Z.max_l by lia.
    replace (53 + e - 53 - e) with 0 by lia. cbn [shr shr_m].
    exists m, e. split; [|split; [exact Hd|split; [lia|]]].
    + destruct (Z.leb_spec e (1024 - 53)); [reflexivity|lia].
    + rewrite Z.sub_diag. change (2 ^ 0) with 1. lia.
Qed.

(** [binary_round_aux] on a mantissa of 53 or 54 digits with any location:
    the result is a normal float within one unit of the mantissa. *)
Lemma bra_any_location (Q : positive) e l :
  2 ^ 52 <= Zpos Q < 2 ^ 54 -> -1074 <= e -> e + 2 <= 971 ->
  exists m e2,
    binary_round_aux prec emax false (Zpos Q) e l = S754_finite false m e2 /\
    Zpos (digits2_pos m) = 53 /\ e <= e2 <= e + 2 /\
    Zpos Q - 1 <= Zpos m * 2 ^ (e2 - e) <= Zpos Q + 1.
Proof.
  change (2 ^ 52) with 4503599627370496. change (2 ^ 54) with 18014398509481984.
  intros HQ Hlo Hhi.
  destruct (Z.lt_ge_cases (Zpos Q) 9007199254740992) as [H53|H54].
  - (* 53 digits: no shift *)
    assert (Hd : Zpos (digits2_pos Q) = 53).
    { apply digits2_unique. change (2 ^ (53 - 1)) with 4503599627370496.
      change (2 ^ 53) with 9007199254740992. lia. }
    unfold binary_round_aux.
    assert (E1 : shr_fexp prec emax (Zpos Q) e l = (shr_record_of_loc (Zpos Q) l, e)).
    { unfold shr_fexp, fexp, SpecFloat.emin, emax, prec. cbn [Zdigits2].
      rewrite Hd. rewrite Z.max_l by lia.
      replace (53 + e - 53 - e) with 0 by lia. reflexivity. }
    rewrite E1.
    set (M := round_nearest_even (shr_m (shr_record_of_loc (Zpos Q) l))
                (loc_of_shr_record (shr_record_of_loc (Zpos Q) l))).
    assert (HM : Zpos Q <= M <= Zpos Q + 1).
    { unfold M.
      destruct l as [|[]];
        cbn [round_nearest_even shr_m shr_record_of_loc loc_of_shr_record];
        try destruct (Z.even _); lia. }
    destruct (round_finish false M e) as (m & e2 & Heq & Hdm & He2 & Hv);
      try (change (2 ^ 52) with 4503599627370496;
           change (2 ^ 53) with 9007199254740992); try lia.
    exists m, e2. split; [exact Heq|]. split; [exact Hdm|]. split; lia.
  - (* 54 digits: one shift *)
    assert (Hd : Zpos (digits2_pos Q) = 54).
    { apply digits2_unique. change (2 ^ (54 - 1)) with 9007199254740992.
      change (2 ^ 54) with 18014398509481984. lia. }
    unfold binary_round_aux.
    assert (E1 : shr_fexp prec emax (Zpos Q) e l
                 = (shr_1 (shr_record_of_loc (Zpos Q) l), e + 1)).
    { unfold shr_fexp, fexp, SpecFloat.emin, emax, prec. cbn [Zdigits2].
      rewrite Hd. rewrite Z.max_l by lia.
      replace (54 + e - 53 - e) with 1 by lia. reflexivity. }
    rewrite E1.
    set (M := round_nearest_even (shr_m (shr_1 (shr_record_of_loc (Zpos Q) l)))
                (loc_of_shr_record (shr_1 (shr_record_of_loc (Zpos Q) l)))).
    assert (HM : Zpos Q - 1 <= 2 * M <= Zpos Q + 1).
    { unfold M.
      destruct Q as [p|p|]; try lia;
        destruct l as [|[]];
        cbn [round_nearest_even shr_m shr_1 shr_record_of_loc
             loc_of_shr_record orb];
        try destruct (Z.even _); lia. }
    destruct (round_finish false M (e + 1)) as (m & e2 & Heq & Hdm & He2 & Hv);
      try (change (2 ^ 52) with 4503599627370496;
           change (2 ^ 53) with 9007199254740992); try lia.
    exists m, e2. split; [exact Heq|]. split; [exact Hdm|]. split; [lia|].
    replace (e2 - e) with ((e2 - (e + 1)) + 1) by lia.
    rewrite Z.pow_add_r by lia. change (2 ^ 1) with 2. lia.
Qed.

(** The quotient of two positive normal floats with exponents in
    [-52, 0]: a normal float within [2 * ulp] of the exact quotient. *)
Lemma SFdiv_normal m1 e1 m2 e2 :
  Zpos (digits2_pos m1) = 53 -> Zpos (digits2_pos m2) = 53 ->
  -52 <= e1 <= 0 -> -52 <= e2 <= 0 ->
  exists m e,
    SF64div (S754_finite false m1 e1) (S754_finite false m2 e2)
      = S754_finite false m e /\
    Zpos (digits2_pos m) = 53 /\
    e1 - e2 - 53 <= e <= e1 - e2 - 51 /\
    Zpos m1 * 2 ^ 53 - 2 * Zpos m2
      < Zpos m * 2 ^ (e - (e1 - e2 - 53)) * Zpos m2
      <= Zpos m1 * 2 ^ 53 + Zpos m2.
Proof.
  intros Hd1 Hd2 He1 He2.
  assert (Hb1 := digits2_bounds m1). rewrite Hd1 in Hb1.
  assert (Hb2 := digits2_bounds m2). rewrite Hd2 in Hb2.
  change (2 ^ (53 - 1)) with 4503599627370496 in *.
  change (2 ^ 53) with 9007199254740992 in *.
  unfold SF64div, SFdiv, SFdiv_core_binary. cbn [Zdigits2 xorb].
  rewrite Hd1, Hd2.
  unfold fexp, SpecFloat.emin, emax, prec.
  replace (Z.min (Z.max (53 + e1 - (53 + e2) - 53) (3 - 1024 - 53)) (e1 - e2))
    with (e1 - e2 - 53) by lia.
  replace (e1 - e2 - (e1 - e2 - 53)) with 53 by lia.
  rewrite Z.shiftl_mul_pow2 by lia.
  change (2 ^ 53) with 9007199254740992.
  pose proof (Z.div_eucl_eq (Zpos m1 * 9007199254740992) (Zpos m2) ltac:(lia)) as Heq.
  pose proof (Z.mod_pos_bound (Zpos m1 * 9007199254740992) (Zpos m2) ltac:(lia)) as Hr.
  unfold Z.modulo in Hr.
  destruct (Z.div_eucl (Zpos m1 * 9007199254740992) (Zpos m2)) as [q r].
  assert (Hq : 4503599627370496 <= q < 18014398509481984) by nia.
  destruct q as [|Q|Q]; try lia.
  destruct (bra_any_location Q (e1 - e2 - 53) (new_location (Zpos m2) r))
    as (m & e & Hm & Hdm & He & Hv);
    try (change (2 ^ 52) with 4503599627370496;
         change (2 ^ 54) with 18014398509481984); try lia.
  exists m, e. split; [exact Hm|]. split; [exact Hdm|]. split; [lia|].
  nia.
Qed.

(** ** Rounding a product and truncating it *)

Lemma rnd_even_near M n :
  1 <= n -> 0 <= M ->
  M - 2 ^ (n - 1) <= rnd_even M n * 2 ^ n <= M + 2 ^ (n - 1).
Proof.
  intros Hn HM.
  assert (Hh := pow2_pos (n - 1) ltac:(lia)).
  assert (Hp : 2 ^ n = 2 * 2 ^ (n - 1)).
  { replace n with ((n - 1) + 1) at 1 by lia. apply pow2_succ. lia. }
  pose proof (Z.div_mod M (2 ^ n) ltac:(lia)) as Hd.
  pose proof (Z.mod_pos_bound M (2 ^ n) ltac:(lia)) as Hr.
  unfold rnd_even.
  repeat match goal with |- context [?a <? ?b] => destruct (Z.ltb_spec a b) end;
    try destruct (Z.even _); nia.
Qed.

(** [Z.shiftl m e] is the floor of [m * 2^e]. *)
Lemma shiftl_floor m e K N :
  0 <= m -> 0 <= K -> 0 <= e + K ->
  (m * 2 ^ (e + K) < (N + 1) * 2 ^ K -> Z.shiftl m e <= N) /\
  (N * 2 ^ K <= m * 2 ^ (e + K) -> N <= Z.shiftl m e).
Proof.
  intros Hm HK He.
  destruct (Z.le_gt_cases 0 e) as [Hpos|Hneg].
  - rewrite Z.shiftl_mul_pow2 by lia. rewrite Z.pow_add_r by lia.
    assert (Hk := pow2_pos K HK). assert (Hpe := pow2_pos e Hpos).
    split; intros H; nia.
  - rewrite Z.shiftl_div_pow2 by lia.
    assert (Hs : 2 ^ K = 2 ^ (- e) * 2 ^ (e + K)).
    { rewrite <- Z.pow_add_r by lia. f_equal. lia. }
    rewrite Hs.
    assert (Hg := pow2_pos (e + K) He). assert (Hpe := pow2_pos (- e) ltac:(lia)).
    split; intros H.
    + assert (m < (N + 1) * 2 ^ (- e)) by nia.
      assert (m / 2 ^ (- e) < N + 1) by (apply Z.div_lt_upper_bound; lia). lia.
    + apply Z.div_le_lower_bound; [lia|]. nia.
Qed.

(** The integer part of the product of an integer below [2^53], given
    by its float, and a positive normal float: it is [N] or less when the
    exact product is at most [N + 1/4], and [N] or more when the exact
    product is at least [N + 1/4].  The exact product is written times
    [2^256]. *)
Lemma mul_floor mw ew ms es :
  Zpos (digits2_pos mw) = 53 -> Zpos (digits2_pos ms) = 53 ->
  -52 <= ew <= 0 -> -204 <= es <= 60 ->
  exists k,
    int_of_SF (SF64mul (S754_finite false mw ew) (S754_finite false ms es))
      = Some k /\
    0 <= k /\
    forall N, 0 <= N < 2 ^ 51 ->
      let X := Zpos mw * 2 ^ (ew + 52) * (Zpos ms * 2 ^ (es + 204)) in
      (4 * X <= (4 * N + 1) * 2 ^ 256 -> k <= N) /\
      ((4 * N + 1) * 2 ^ 256 <= 4 * X -> N <= k).
Proof.
  intros Hdw Hds Hew Hes.
  assert (Hbw := digits2_bounds mw). rewrite Hdw in Hbw.
  assert (Hbs := digits2_bounds ms). rewrite Hds in Hbs.
  change (2 ^ (53 - 1)) with 4503599627370496 in *.
  change (2 ^ 53) with 9007199254740992 in *.
  set (P := (mw * ms)%positive).
  assert (HP : Zpos P = Zpos mw * Zpos ms) by reflexivity.
  assert (HPb : 2 ^ 104 <= Zpos P < 2 ^ 106).
  { change (2 ^ 104) with (4503599627370496 * 4503599627370496).
    change (2 ^ 106) with (9007199254740992 * 9007199254740992). nia. }
  assert (Hl : 104 <= Z.log2 (Zpos P) < 106).
  { split; [apply Z.log2_le_pow2; lia | apply Z.log2_lt_pow2; lia]. }
  set (n := Zpos (digits2_pos P) - 53).
  assert (Hn : Z.log2 (Zpos P) = 52 + n) by (rewrite log2_digits; unfold n; lia).
  assert (Hn1 : 52 <= n <= 53) by lia.
  destruct (bra_normal false P (ew + es) n) as (m' & e' & Heq & He' & Hval & Hd');
    try (unfold n; lia).
  assert (Hmul : SF64mul (S754_finite false mw ew) (S754_finite false ms es)
                 = S754_finite false m' e') by exact Heq.
  rewrite Hmul. cbn [int_of_SF cond_Zopp].
  exists (Z.shiftl (Zpos m') e'). split; [reflexivity|].
  split; [apply Z.shiftl_nonneg; lia|].
  intros N HN. cbn zeta.
  set (A := rnd_even (Zpos P) n) in *.
  (* the result and the exact product, both times 2^256 *)
  set (G := 2 ^ (ew + es + 256)).
  assert (HG : 0 < G) by (apply pow2_pos; lia).
  assert (HX : Zpos mw * 2 ^ (ew + 52) * (Zpos ms * 2 ^ (es + 204)) = Zpos P * G).
  { unfold G. replace (ew + es + 256) with ((ew + 52) + (es + 204)) by lia.
    rewrite (Z.pow_add_r 2 (ew + 52) (es + 204)) by lia. rewrite HP. ring. }
  rewrite HX.
  assert (HV : Zpos m' * 2 ^ (e' + 256) = A * 2 ^ n * G).
  { rewrite <- Hval. unfold G.
    rewrite <- !Z.mul_assoc. rewrite <- !Z.pow_add_r by lia.
    do 2 f_equal. lia. }
  destruct (rnd_even_near (Zpos P) n ltac:(lia) ltac:(lia)) as [Hlo Hhi].
  fold A in Hlo, Hhi.
  assert (Hh : 9007199254740992 * 2 ^ (n - 1) <= Zpos P).
  { pose proof (Z.log2_spec (Zpos P) ltac:(lia)) as [H _]. rewrite Hn in H.
    replace (52 + n) with (53 + (n - 1)) in H by lia.
    rewrite Z.pow_add_r in H by lia.
    change (2 ^ 53) with 9007199254740992 in H. exact H. }
  set (h := 2 ^ (n - 1)) in *.
  set (R := A * 2 ^ n) in *.
  set (Z256 := 2 ^ 256).
  assert (HZ : 0 < Z256) by reflexivity.
  change (2 ^ 51) with 2251799813685248 in HN.
  destruct (shiftl_floor (Zpos m') e' 256 N ltac:(lia) ltac:(lia) ltac:(lia))
    as [Hup Hdn].
  fold Z256 in Hup, Hdn. rewrite HV in Hup, Hdn.
  assert (H1 : 9007199254740992 * (R * G) <= 9007199254740993 * (Zpos P * G)) by nia.
  assert (H2 : 9007199254740991 * (Zpos P * G) <= 9007199254740992 * (R * G)) by nia.
  set (V := R * G) in *. set (X := Zpos P * G) in *.
  set (NZ := N * Z256).
  assert (HNZ : 0 <= NZ) by (unfold NZ; nia).
  assert (HNZ2 : 4 * NZ + Z256 < 3 * 9007199254740992 * Z256).
  { unfold NZ. nia. }
  split; intros H.
  - apply Hup. replace ((4 * N + 1) * Z256) with (4 * NZ + Z256) in H
      by (unfold NZ; ring).
    replace ((N + 1) * Z256) with (NZ + Z256) by (unfold NZ; ring). lia.
  - apply Hdn. replace ((4 * N + 1) * Z256) with (4 * NZ + Z256) in H
      by (unfold NZ; ring).
    fold NZ. lia.
Qed.

(** ** The scale factor *)

(** [limit / d] for a limit and a dimension below [2^53]: a positive
    normal float [q] with
    [limit * (1 - 2^-51) < d * q <= limit * (1 + 2^-52)], where [q] is
    written times [2^204]. *)
Lemma true_div_spec (limit d : Z) :
  1 <= limit < 2 ^ 53 -> 1 <= d < 2 ^ 53 ->
  exists q mq eq,
    true_div limit d = Some q /\
    Prim2SF q = S754_finite false mq eq /\
    Zpos (digits2_pos mq) = 53 /\ -105 <= eq <= 1 /\
    (2 ^ 51 - 1) * (limit * 2 ^ 204)
      < 2 ^ 51 * (d * (Zpos mq * 2 ^ (eq + 204))) /\
    2 ^ 52 * (d * (Zpos mq * 2 ^ (eq + 204)))
      <= (2 ^ 52 + 1) * (limit * 2 ^ 204).
Proof.
  intros HT Hd.
  destruct (float_of_int_spec limit HT) as (m1 & e1 & E1 & Hd1 & He1 & Hm1).
  destruct (float_of_int_spec d Hd) as (m2 & e2 & E2 & Hd2 & He2 & Hm2).
  assert (Hb1 := digits2_bounds m1). rewrite Hd1 in Hb1.
  assert (Hb2 := digits2_bounds m2). rewrite Hd2 in Hb2.
  change (2 ^ (53 - 1)) with 4503599627370496 in *.
  change (2 ^ 53) with 9007199254740992 in *.
  destruct (SFdiv_normal m1 e1 m2 e2 Hd1 Hd2 He1 He2)
    as (m & e & Heq & Hdm & He & Hlo & Hhi).
  change (2 ^ 53) with 9007199254740992 in *.
  unfold true_div. destruct (Z.eqb_spec d 0) as [H0|_]; [lia|].
  exists (float_of_int limit / float_of_int d)%float, m, e.
  split; [reflexivity|]. split; [rewrite div_spec, E1, E2; exact Heq|].
  split; [exact Hdm|]. split; [lia|].
  set (A := 2 ^ (- e1)) in *. set (B := 2 ^ (- e2)) in *.
  assert (HA : 0 < A) by (apply pow2_pos; lia).
  assert (HB : 0 < B) by (apply pow2_pos; lia).
  set (W := Zpos m * 2 ^ (e - (e1 - e2 - 53))) in *.
  (* d * V * A = W * m2 * 2^151 *)
  assert (HV : d * (Zpos m * 2 ^ (e + 204)) * A = W * Zpos m2 * 2 ^ 151).
  { unfold W, A. rewrite Hm2. unfold B.
    replace (e + 204) with ((e - (e1 - e2 - 53)) + (e1 - e2 + 151)) by lia.
    rewrite (Z.pow_add_r 2 (e - (e1 - e2 - 53)) (e1 - e2 + 151)) by lia.
    assert (Hpw : 2 ^ (e1 - e2 + 151) * 2 ^ (- e1) = 2 ^ (- e2) * 2 ^ 151).
    { rewrite <- !Z.pow_add_r by lia. f_equal. lia. }
    set (U := 2 ^ (e - (e1 - e2 - 53))) in *.
    transitivity (d * Zpos m * U * (2 ^ (e1 - e2 + 151) * 2 ^ (- e1))); [ring|].
    rewrite Hpw. ring. }
  set (V := Zpos m * 2 ^ (e + 204)) in *.
  set (C := 2 ^ 151) in *.
  assert (HC : 0 < C) by reflexivity.
  assert (H204 : 2 ^ 204 = 9007199254740992 * C) by reflexivity.
  rewrite H204.
  change (2 ^ 51) with 2251799813685248. change (2 ^ 52) with 4503599627370496.
  assert (Hup : d * V * A <= (Zpos m1 * 9007199254740992 + Zpos m2) * C).
  { rewrite HV. apply Z.mul_le_mono_nonneg_r; lia. }
  assert (Hdn : (Zpos m1 * 9007199254740992 - 2 * Zpos m2) * C < d * V * A).
  { rewrite HV. apply Z.mul_lt_mono_pos_r; lia. }
  set (dV := d * V) in *.
  assert (HLA : limit * (9007199254740992 * C) * A
                = Zpos m1 * 9007199254740992 * C) by (rewrite Hm1; ring).
  set (L := limit * (9007199254740992 * C)) in *.
  set (M1 := Zpos m1 * C) in *. set (M2 := Zpos m2 * C) in *.
  assert (HM : 0 < M2 < 2 * M1) by (unfold M1, M2; nia).
  assert (Hup' : dV * A <= 9007199254740992 * M1 + M2) by (unfold M1, M2; lia).
  assert (Hdn' : 9007199254740992 * M1 - 2 * M2 < dV * A) by (unfold M1, M2; lia).
  assert (HLA' : L * A = 9007199254740992 * M1) by (unfold M1; lia).
  split.
  - apply Z.mul_lt_mono_pos_r with A; [lia|].
    replace (2251799813685248 * dV * A) with (2251799813685248 * (dV * A)) by ring.
    replace ((2251799813685248 - 1) * L * A)
      with ((2251799813685248 - 1) * (L * A)) by ring.
    rewrite HLA'. lia.
  - apply Z.mul_le_mono_pos_r with A; [lia|].
    replace (4503599627370496 * dV * A) with (4503599627370496 * (dV * A)) by ring.
    replace ((4503599627370496 + 1) * L * A)
      with ((4503599627370496 + 1) * (L * A)) by ring.
    rewrite HLA'. lia.
Qed.

(** The order of positive normal floats is that of the numbers they
    denote, written times [2^204]. *)
Lemma normal_value_order ma ea mb eb :
  Zpos (digits2_pos ma) = 53 -> Zpos (digits2_pos mb) = 53 ->
  -204 <= ea -> -204 <= eb ->
  lex_le (SFkey (S754_finite false ma ea)) (SFkey (S754_finite false mb eb)) ->
  Zpos ma * 2 ^ (ea + 204) <= Zpos mb * 2 ^ (eb + 204).
Proof.
  intros Hda Hdb Hea Heb. unfold lex_le. cbn [SFkey].
  assert (Hba := digits2_bounds ma). rewrite Hda in Hba.
  assert (Hbb := digits2_bounds mb). rewrite Hdb in Hbb.
  change (2 ^ (53 - 1)) with 4503599627370496 in *.
  change (2 ^ 53) with 9007199254740992 in *.
  assert (HG := pow2_pos (ea + 204) ltac:(lia)).
  intros [H|[_ [H|[-> H]]]]; [lia| |nia].
  replace (eb + 204) with ((eb - ea) + (ea + 204)) by lia.
  rewrite (Z.pow_add_r 2 (eb - ea) (ea + 204)) by lia.
  assert (HU : 2 ^ 1 <= 2 ^ (eb - ea)) by (apply Z.pow_le_mono_r; lia).
  change (2 ^ 1) with 2 in HU.
  assert (Zpos ma <= Zpos mb * 2 ^ (eb - ea)) by nia.
  rewrite Z.mul_assoc. apply Z.mul_le_mono_nonneg_r; lia.
Qed.

(** [min] of two positive normal floats is the one that denotes the
    smaller number. *)
Lemma fmin_normal a b ma ea mb eb :
  Prim2SF a = S754_finite false ma ea -> Prim2SF b = S754_finite false mb eb ->
  Zpos (digits2_pos ma) = 53 -> Zpos (digits2_pos mb) = 53 ->
  -204 <= ea -> -204 <= eb ->
  (fmin a b = a /\ Zpos ma * 2 ^ (ea + 204) <= Zpos mb * 2 ^ (eb + 204)) \/
  (fmin a b = b /\ Zpos mb * 2 ^ (eb + 204) <= Zpos ma * 2 ^ (ea + 204)).
Proof.
  intros Ea Eb Hda Hdb Hea Heb. unfold fmin.
  destruct (PrimFloat.ltb b a) eqn:E.
  - right. split; [reflexivity|].
    rewrite ltb_spec, SFltb_key, Ea, Eb in E. destruct E as (_ & _ & E).
    apply normal_value_order; trivial.
    revert E. unfold lex_lt, lex_le. cbn [SFkey]. lia.
  - left. split; [reflexivity|].
    apply normal_value_order; trivial.
    assert (N : ~ lex_lt (SFkey (Prim2SF b)) (SFkey (Prim2SF a))).
    { intros H. rewrite ltb_spec in E.
      assert (SFltb (Prim2SF b) (Prim2SF a) = true) as E'.
      { apply SFltb_key. rewrite Ea, Eb. unfold not_nan. cbn [SFkey fst].
        rewrite Ea, Eb in H. repeat split; trivial; lia. }
      congruence. }
    rewrite Ea, Eb in N. revert N. unfold lex_lt, lex_le. cbn [SFkey]. lia.
Qed.

(** The same limit divided by a greater dimension is not greater. *)
Lemma true_div_antitone limit d1 d2 q1 q2 m1 e1 m2 e2 :
  1 <= limit < 2 ^ 53 -> 1 <= d1 -> d1 <= d2 -> d2 < 2 ^ 50 ->
  true_div limit d1 = Some q1 -> true_div limit d2 = Some q2 ->
  Prim2SF q1 = S754_finite false m1 e1 ->
  Prim2SF q2 = S754_finite false m2 e2 ->
  Zpos m2 * 2 ^ (e2 + 204) <= Zpos m1 * 2 ^ (e1 + 204).
Proof.
  intros HT H1 H12 H2 Q1 Q2 E1 E2.
  change (2 ^ 50) with 1125899906842624 in H2.
  destruct (Z.eq_dec d1 d2) as [->|Hne].
  { rewrite Q1 in Q2. injection Q2 as ->. rewrite E1 in E2.
    injection E2 as -> ->. lia. }
  destruct (true_div_spec limit d1 HT) as (q & mq & eq & Q & E & _ & He & Hlo & _).
  { change (2 ^ 53) with 9007199254740992. lia. }
  rewrite Q1 in Q. injection Q as <-. rewrite E1 in E. injection E as <- <-.
  destruct (true_div_spec limit d2 HT) as (q & mq & eq & Q & E & _ & He' & _ & Hhi).
  { change (2 ^ 53) with 9007199254740992. lia. }
  rewrite Q2 in Q. injection Q as <-. rewrite E2 in E. injection E as <- <-.
  change (2 ^ 51) with 2251799813685248 in *.
  change (2 ^ 52) with 4503599627370496 in *.
  set (V1 := Zpos m1 * 2 ^ (e1 + 204)) in *.
  set (V2 := Zpos m2 * 2 ^ (e2 + 204)) in *.
  set (L := limit * 2 ^ 204) in *.
  assert (HV1 : 0 < V1).
  { unfold V1. pose proof (pow2_pos (e1 + 204) ltac:(lia)). nia. }
  destruct (Z.le_gt_cases V2 V1) as [H|H]; [exact H|exfalso].
  assert (Ha : d1 * V1 + V1 <= d2 * V2) by nia.
  assert (Hb : d1 * V1 <= 1125899906842623 * V1) by nia.
  lia.
Qed.

(** ** A new dimension *)

(** [int(d * scale)] for a scale that is at most [limit / d]: at most the
    limit, and the limit or one less when the scale is [limit / d]. *)
Lemma new_dimension (limit d : Z) (scale q : float) ms es mq eq :
  1 <= limit < 2 ^ 50 -> 1 <= d < 2 ^ 53 ->
  true_div limit d = Some q -> Prim2SF q = S754_finite false mq eq ->
  Prim2SF scale = S754_finite false ms es ->
  Zpos (digits2_pos ms) = 53 -> -204 <= es <= 60 ->
  Zpos ms * 2 ^ (es + 204) <= Zpos mq * 2 ^ (eq + 204) ->
  exists k,
    int_of_float (float_of_int d * scale) = Some k /\
    0 <= k <= limit /\
    (Zpos ms * 2 ^ (es + 204) = Zpos mq * 2 ^ (eq + 204) -> limit - 1 <= k).
Proof.
  intros HT Hd Q E Es Hds Hes Hle.
  change (2 ^ 50) with 1125899906842624 in HT.
  destruct (true_div_spec limit d) as (q' & mq' & eq' & Q' & E' & _ & _ & Hlo & Hhi);
    trivial.
  { change (2 ^ 53) with 9007199254740992. lia. }
  rewrite Q in Q'. injection Q' as <-. rewrite E in E'. injection E' as <- <-.
  destruct (float_of_int_spec d Hd) as (mw & ew & Ew & Hdw & Hew & Hmw).
  destruct (mul_floor mw ew ms es Hdw Hds Hew Hes) as (k & Hk & Hk0 & HN).
  exists k. split.
  { unfold int_of_float. rewrite mul_spec, Ew, Es. exact Hk. }
  assert (HD : Zpos mw * 2 ^ (ew + 52) = d * 2 ^ 52).
  { rewrite Hmw. rewrite <- Z.mul_assoc. rewrite <- Z.pow_add_r by lia.
    do 2 f_equal. lia. }
  change (2 ^ 51) with 2251799813685248 in *.
  change (2 ^ 52) with 4503599627370496 in *.
  set (Vs := Zpos ms * 2 ^ (es + 204)) in *.
  set (Vq := Zpos mq * 2 ^ (eq + 204)) in *.
  assert (H256 : 2 ^ 256 = 4503599627370496 * 2 ^ 204) by reflexivity.
  set (Z204 := 2 ^ 204) in *.
  assert (HZ : 0 < Z204) by reflexivity.
  assert (HVs : 0 < Vs).
  { unfold Vs. pose proof (pow2_pos (es + 204) ltac:(lia)). nia. }
  set (LZ := limit * Z204) in *.
  assert (HLZ : Z204 <= LZ < 1125899906842624 * Z204) by (unfold LZ; nia).
  split; [split; [exact Hk0|]|].
  - destruct (HN limit ltac:(lia)) as [Hup _]. cbn zeta in Hup. apply Hup.
    rewrite HD, H256. fold Vs.
    assert (d * Vs <= d * Vq) by nia.
    replace ((4 * limit + 1) * (4503599627370496 * Z204))
      with (4503599627370496 * (4 * LZ + Z204)) by (unfold LZ; ring).
    replace (4 * (d * 4503599627370496 * Vs))
      with (4503599627370496 * (4 * (d * Vs))) by ring.
    apply Z.mul_le_mono_nonneg_l; lia.
  - intros Heq.
    destruct (Z.eq_dec limit 1) as [->|H1]; [lia|].
    destruct (HN (limit - 1) ltac:(lia)) as [_ Hdn]. cbn zeta in Hdn. apply Hdn.
    rewrite HD, H256. fold Vs. rewrite Heq.
    replace ((4 * (limit - 1) + 1) * (4503599627370496 * Z204))
      with (4503599627370496 * (4 * LZ - 3 * Z204)) by (unfold LZ; ring).
    replace (4 * (d * 4503599627370496 * Vq))
      with (4503599627370496 * (4 * (d * Vq))) by ring.
    apply Z.mul_le_mono_nonneg_l; lia.
Qed.

(** Both new dimensions for the scale [min(limit_w / width,
    limit_h / height)]: no exception, each within its limit, and the one
    whose quotient is the scale is its limit or one less. *)
Lemma new_dimensions (limit_w limit_h width height : Z) :
  1 <= limit_w < 2 ^ 50 -> 1 <= limit_h < 2 ^ 50 ->
  1 <= width < 2 ^ 53 -> 1 <= height < 2 ^ 53 ->
  exists sw sh msw esw msh esh new_width new_height,
    true_div limit_w width = Some sw /\
    true_div limit_h height = Some sh /\
    Prim2SF sw = S754_finite false msw esw /\
    Prim2SF sh = S754_finite false msh esh /\
    int_of_float (float_of_int width * fmin sw sh) = Some new_width /\
    int_of_float (float_of_int height * fmin sw sh) = Some new_height /\
    0 <= new_width <= limit_w /\ 0 <= new_height <= limit_h /\
    (Zpos msw * 2 ^ (esw + 204) <= Zpos msh * 2 ^ (esh + 204) ->
     limit_w - 1 <= new_width) /\
    (Zpos msh * 2 ^ (esh + 204) <= Zpos msw * 2 ^ (esw + 204) ->
     limit_h - 1 <= new_height).
Proof.
  intros HTw HTh Hw Hh.
  assert (HTw' : 1 <= limit_w < 2 ^ 53).
  { change (2 ^ 50) with 1125899906842624 in HTw.
    change (2 ^ 53) with 9007199254740992. lia. }
  assert (HTh' : 1 <= limit_h < 2 ^ 53).
  { change (2 ^ 50) with 1125899906842624 in HTh.
    change (2 ^ 53) with 9007199254740992. lia. }
  destruct (true_div_spec limit_w width HTw' Hw)
    as (sw & msw & esw & Qw & Ew & Hdw & Hew & _).
  destruct (true_div_spec limit_h height HTh' Hh)
    as (sh & msh & esh & Qh & Eh & Hdh & Heh & _).
  exists sw, sh, msw, esw, msh, esh.
  destruct (fmin_normal sw sh msw esw msh esh Ew Eh Hdw Hdh ltac:(lia) ltac:(lia))
    as [[-> Hle]|[-> Hle]].
  - destruct (new_dimension limit_w width sw sw msw esw msw esw HTw Hw Qw Ew Ew Hdw
                ltac:(lia) ltac:(lia)) as (nw & Enw & Hnw & Hnw').
    destruct (new_dimension limit_h height sw sh msw esw msh esh HTh Hh Qh Eh Ew Hdw
                ltac:(lia) Hle) as (nh & Enh & Hnh & Hnh').
    exists nw, nh.
    split; [exact Qw|]. split; [exact Qh|]. split; [exact Ew|].
    split; [exact Eh|]. split; [exact Enw|]. split; [exact Enh|].
    split; [exact Hnw|]. split; [exact Hnh|]. split.
    + intros _. apply Hnw'. reflexivity.
    + intros Hge. apply Hnh'. lia.
  - destruct (new_dimension limit_w width sh sw msh esh msw esw HTw Hw Qw Ew Eh Hdh
                ltac:(lia) Hle) as (nw & Enw & Hnw & Hnw').
    destruct (new_dimension limit_h height sh sh msh esh msh esh HTh Hh Qh Eh Eh Hdh
                ltac:(lia) ltac:(lia)) as (nh & Enh & Hnh & Hnh').
    exists nw, nh.
    split; [exact Qw|]. split; [exact Qh|]. split; [exact Ew|].
    split; [exact Eh|]. split; [exact Enw|]. split; [exact Enh|].
    split; [exact Hnw|]. split; [exact Hnh|]. split.
    + intros Hge. apply Hnw'. lia.
    + intros _. apply Hnh'. reflexivity.
Qed.

(** ** The two resizing steps *)

Section ResizedFacts.
Variable Image : Type.
Variable shape : Image -> Z * Z.
Variable resize : Image -> Z -> Z -> option Image.

(** X20: in the face extractor, an image with a side above 800 (and both
    sides from 1 up to [2^50]) is resized without an arithmetic exception
    to dimensions of at most 800 each, and the longer side becomes 800 or
    799; the float quotient [800 / side] can fall short of the exact one,
    and [int] truncates. *)
Theorem resized_within_800 (image : Image) (height width : Z) :
  shape image = (height, width) ->
  1 <= width < 2 ^ 50 -> 1 <= height < 2 ^ 50 ->
  800 < width \/ 800 < height ->
  exists new_width new_height,
    resized shape resize image = resize image new_width new_height /\
    0 <= new_width <= 800 /\ 0 <= new_height <= 800 /\
    (height <= width -> 799 <= new_width) /\
    (width <= height -> 799 <= new_height).
Proof.
  intros Hs Hw Hh Hbig.
  assert (Hw' : 1 <= width < 2 ^ 53).
  { change (2 ^ 50) with 1125899906842624 in Hw.
    change (2 ^ 53) with 9007199254740992. lia. }
  assert (Hh' : 1 <= height < 2 ^ 53).
  { change (2 ^ 50) with 1125899906842624 in Hh.
    change (2 ^ 53) with 9007199254740992. lia. }
  destruct (new_dimensions 800 800 width height) as
    (sw & sh & msw & esw & msh & esh & nw & nh & Qw & Qh & Ew & Eh & Enw & Enh &
     Hnw & Hnh & Hfw & Hfh); trivial; try (split; [lia|reflexivity]).
  exists nw, nh. split.
  - unfold resized. rewrite Hs.
    assert ((800 <? width) || (800 <? height) = true) as ->.
    { apply orb_true_iff. rewrite !Z.ltb_lt. exact Hbig. }
    rewrite Qw, Qh. cbn [bind]. rewrite Enw, Enh. reflexivity.
  - split; [exact Hnw|]. split; [exact Hnh|]. split.
    + intros Hle. apply Hfw.
      apply (true_div_antitone 800 height width sh sw msh esh msw esw);
        trivial; lia.
    + intros Hle. apply Hfh.
      apply (true_div_antitone 800 width height sw sh msw esw msh esh);
        trivial; lia.
Qed.
End ResizedFacts.

Section OcrResizedFacts.
Variable Image : Type.
Variable size : Image -> Z * Z.
Variable resize : Image -> Z -> Z -> attempt Image.

(** X21: in the handler, a license image wider than 1500 or higher than
    1000 (both sides from 1 up to [2^50]) is resized without an arithmetic
    exception to a width of at most 1500 and a height of at most 1000, and
    the width is 1500 or 1499 or the height is 1000 or 999. *)
Theorem ocr_resized_within_limits (license_image : Image) (width height : Z) :
  size license_image = (width, height) ->
  1 <= width < 2 ^ 50 -> 1 <= height < 2 ^ 50 ->
  1500 < width \/ 1000 < height ->
  exists new_width new_height,
    ocr_resized size resize license_image
      = resize license_image new_width new_height /\
    0 <= new_width <= 1500 /\ 0 <= new_height <= 1000 /\
    (1499 <= new_width \/ 999 <= new_height).
Proof.
  intros Hs Hw Hh Hbig.
  assert (Hw' : 1 <= width < 2 ^ 53).
  { change (2 ^ 50) with 1125899906842624 in Hw.
    change (2 ^ 53) with 9007199254740992. lia. }
  assert (Hh' : 1 <= height < 2 ^ 53).
  { change (2 ^ 50) with 1125899906842624 in Hh.
    change (2 ^ 53) with 9007199254740992. lia. }
  destruct (new_dimensions 1500 1000 width height) as
    (sw & sh & msw & esw & msh & esh & nw & nh & Qw & Qh & Ew & Eh & Enw & Enh &
     Hnw & Hnh & Hfw & Hfh); trivial; try (split; [lia|reflexivity]).
  exists nw, nh. split.
  - unfold ocr_resized. rewrite Hs.
    assert ((1500 <? width) || (1000 <? height) = true) as ->.
    { apply orb_true_iff. rewrite !Z.ltb_lt. exact Hbig. }
    rewrite Qw, Qh. cbn [raising abind]. rewrite Enw, Enh. reflexivity.
  - split; [exact Hnw|]. split; [exact Hnh|].
    destruct (Z.le_ge_cases (Zpos msw * 2 ^ (esw + 204))
                (Zpos msh * 2 ^ (esh + 204))) as [H|H].
    + left. apply Hfw in H. lia.
    + right. apply Hfh in H. lia.
Qed.
End OcrResizedFacts.

(** A photo of 1078 x 600 is resized to 799 x 445, not to 800 wide. *)
Remark resized_to_799 :
  resized sample_shape sample_resize (600, 1078) = Some (445, 799).
Proof. vm_compute. reflexivity. Qed.

Lemma resized_within_800_witness :
  exists new_width new_height,
    resized sample_shape sample_resize (600, 1078)
      = sample_resize (600, 1078) new_width new_height /\
    0 <= new_width <= 800 /\ 0 <= new_height <= 800 /\
    (600 <= 1078 -> 799 <= new_width) /\
    (1078 <= 600 -> 799 <= new_height).
Proof.
  apply (resized_within_800 (Z * Z) sample_shape sample_resize (600, 1078)
           600 1078).
  - reflexivity.
  - split; [lia|reflexivity].
  - split; [lia|reflexivity].
  - left. lia.
Defined.

Lemma ocr_resized_within_limits_witness :
  exists new_width new_height,
    ocr_resized sample_size sample_pil_resize (4032, 3024)
      = sample_pil_resize (4032, 3024) new_width new_height /\
    0 <= new_width <= 1500 /\ 0 <= new_height <= 1000 /\
    (1499 <= new_width \/ 999 <= new_height).
Proof.
  apply (ocr_resized_within_limits (Z * Z) sample_size sample_pil_resize
           (4032, 3024) 4032 3024).
  - reflexivity.
  - split; [lia|reflexivity].
  - split; [lia|reflexivity].
  - left. lia.
Defined.

(** * More concrete runs *)

(** A pair at distance 0.25 gives the similarity 0.75. *)
Remark compare_faces_at_a_quarter :
  compare_faces sample_distance [1] [1] = 0.75%float.
Proof. vm_compute. reflexivity. Qed.

(** Upper-case text is classified, and an upper-case extension accepted. *)
Remark upper_case_is_folded :
  is_license_text "DMV 123" = true /\ allowed_file "license.JPG" = Some true.
Proof. split; reflexivity. Qed.

(** Blank outputs are not kept, and eight blanks do not beat two letters. *)
Remark blank_outputs_are_not_kept :
  ocr_race (fun _ => Some " ") ocr_configs = "" /\
  ocr_race (fun config => if String.eqb config "--psm 6 --oem 3"
                          then Some "        " else Some "ab")
           ocr_configs = "ab".
Proof. split; reflexivity. Qed.
